(** * The Genie chat widget of script.js, embedded and verified

    The development follows [class GenieChat] of [script.js]: the polling
    state machine ([pollForResult]), the submission workflow ([handleSend],
    [sendMessage]), the normalisation of a completed payload
    ([displayResult], [renderDataTable]) and the persisted session
    ([saveState], [loadState]).

    Around the widget stand the Azure Function it calls ([api/genie]: the
    handler with [startConversation], [sendMessage], [pollResult] and
    [categorizeError]) and the polling loop of the local test script
    ([testPollResult]); both are embedded as well, and the widget is
    verified against the function as its server.

    JavaScript values are a tagged sum; a thrown exception is an explicit
    result; the instance fields, the page, [localStorage] and the sequence of
    observable effects (network calls, timers, storage writes, alerts) are
    threaded through a state monad whose exceptions keep the state, as
    JavaScript's do. *)

From Stdlib Require Import ZArith Lia Ascii String List.
From Stdlib Require Import DecimalString DecimalPos DecimalN DecimalZ DecimalFacts.
From stdpp Require Import base tactics option list strings gmap.

Set Warnings "-register-all".
Local Open Scope string_scope.
Local Open Scope list_scope.
Local Open Scope Z_scope.

#[local] Arguments String.append !_ _ / : simpl nomatch.

(** ** Text

    A JavaScript string is a sequence of code units. The model reads an
    [ascii] as the code unit of the same number, so it covers text over
    U+0000..U+00FF. *)

(** The double quote, kept out of string literals. *)
Definition dq : string := String "034"%char EmptyString.
(** Line feed, as the template literal of [showError] contains it. *)
Definition nl : string := String "010"%char EmptyString.

Definition codeOf (c : ascii) : Z := Z.of_N (N_of_ascii c).

(** [hay.includes(needle)] on strings. *)
Fixpoint includes (hay needle : string) : bool :=
  if String.prefix needle hay then true
  else match hay with
       | EmptyString => false
       | String _ rest => includes rest needle
       end.

(** WhiteSpace and LineTerminator code units below U+0100: TAB, LF, VT, FF,
    CR, SP and NBSP. *)
Definition isJsSpace (c : ascii) : bool :=
  let n := codeOf c in
  (9 <=? n) && (n <=? 13) || (n =? 32) || (n =? 160).

Fixpoint trimStart (s : string) : string :=
  match s with
  | String c rest => if isJsSpace c then trimStart rest else s
  | EmptyString => EmptyString
  end.

(** Drops trailing white space: a character is kept when it is not white
    space or when something that is kept follows it. *)
Fixpoint trimEnd (s : string) : string :=
  match s with
  | EmptyString => EmptyString
  | String c rest =>
      match trimEnd rest with
      | EmptyString => if isJsSpace c then EmptyString else String c EmptyString
      | kept => String c kept
      end
  end.

(** [String.prototype.trim]. *)
Definition trim (s : string) : string := trimEnd (trimStart s).

(** [s.length]. *)
Definition strlen (s : string) : Z := Z.of_nat (String.length s).

(** Decimal rendering of an integer, as [String(n)] gives it. *)
Definition decimal (n : Z) : string := NilZero.string_of_int (Z.to_int n).

Definition concatStr (l : list string) : string := fold_right String.append "" l.

(** ** Values *)

(** A JavaScript value as JSON delivers it, plus [undefined]. Numbers are the
    integers; an object is its list of properties in insertion order. *)
Inductive value : Type :=
| VUndefined
| VNull
| VBool (b : bool)
| VNum (n : Z)
| VStr (s : string)
| VArr (items : list value)
| VObj (props : list (string * value)).

(** What a [throw] carries: only [error.message] is ever read. [Unmodelled]
    marks the one operation the model leaves out (numeric coercion of a
    string or an object); no [catch] handles it. *)
Inductive exn : Type :=
| JsError (message : string)
| TypeError (message : string)
| Unmodelled (what : string).

Definition messageOf (e : exn) : string :=
  match e with
  | JsError m | TypeError m | Unmodelled m => m
  end.

Inductive result (A : Type) : Type :=
| Ok (a : A)
| Throw (e : exn).
Arguments Ok {A} a.
Arguments Throw {A} e.

Definition bindR {A B} (r : result A) (k : A -> result B) : result B :=
  match r with
  | Ok a => k a
  | Throw e => Throw e
  end.

Declare Scope result_scope.
Delimit Scope result_scope with result.
Notation "x <~ r ;; k" := (bindR r (fun x => k))
  (at level 100, r at next level, right associativity) : result_scope.
Local Open Scope result_scope.

(** Truthiness, as [if (v)], [!v], [a && b] and [a || b] test it. *)
Definition truthy (v : value) : bool :=
  match v with
  | VUndefined | VNull => false
  | VBool b => b
  | VNum n => negb (n =? 0)
  | VStr s => negb (String.eqb s "")
  | VArr _ | VObj _ => true
  end.

(** [v === "literal"]. *)
Definition isStr (v : value) (lit : string) : bool :=
  match v with
  | VStr s => String.eqb s lit
  | _ => false
  end.

(** [v === 0]. *)
Definition isZero (v : value) : bool :=
  match v with
  | VNum n => n =? 0
  | _ => false
  end.

(** [v === null]. *)
Definition isNull (v : value) : bool :=
  match v with
  | VNull => true
  | _ => false
  end.

Fixpoint assoc (name : string) (props : list (string * value)) : option value :=
  match props with
  | [] => None
  | (k, v) :: rest => if String.eqb k name then Some v else assoc name rest
  end.

Definition describe (v : value) : string :=
  match v with
  | VNull => "null"
  | _ => "undefined"
  end.

(** The message V8 gives when a property of [undefined] or [null] is read. *)
Definition cannotRead (v : value) (name : string) : exn :=
  TypeError ("Cannot read properties of " +:+ describe v +:+
             " (reading '" +:+ name +:+ "')").

Definition notAFunction (what : string) : exn :=
  TypeError (what +:+ " is not a function").

(** [v.name]: throws on [undefined] and [null], gives [undefined] for a
    property that is not there. *)
Definition getProp (v : value) (name : string) : result value :=
  match v with
  | VUndefined | VNull => Throw (cannotRead v name)
  | VObj props => Ok (default VUndefined (assoc name props))
  | VArr items =>
      Ok (if String.eqb name "length" then VNum (Z.of_nat (length items))
          else VUndefined)
  | VStr s =>
      Ok (if String.eqb name "length" then VNum (strlen s) else VUndefined)
  | VBool _ | VNum _ => Ok VUndefined
  end.

(** [v > 0]. Numeric coercion of strings, arrays and objects is left out. *)
Definition gtZero (v : value) : result bool :=
  match v with
  | VUndefined | VNull => Ok false
  | VBool b => Ok b
  | VNum n => Ok (0 <? n)
  | VStr _ | VArr _ | VObj _ => Throw (Unmodelled "ToNumber")
  end.

(** [String(v)], also the conversion of template literals and [new Error]. *)
Fixpoint toString (v : value) : string :=
  match v with
  | VUndefined => "undefined"
  | VNull => "null"
  | VBool true => "true"
  | VBool false => "false"
  | VNum n => decimal n
  | VStr s => s
  | VArr items =>
      let item x := match x with
                    | VUndefined | VNull => ""
                    | _ => toString x
                    end in
      match items with
      | [] => ""
      | x :: rest => item x +:+ concatStr (map (fun y => "," +:+ item y) rest)
      end
  | VObj _ => "[object Object]"
  end.

(** [typeof v === 'object'] for a truthy [v]. *)
Definition isObject (v : value) : bool :=
  match v with
  | VArr _ | VObj _ | VNull => true
  | _ => false
  end.

(** [l.slice(-n)] on an array. *)
Definition lastN {A} (n : nat) (l : list A) : list A := drop (length l - n) l.

Fixpoint dropStr (n : nat) (s : string) : string :=
  match n, s with
  | S n', String _ rest => dropStr n' rest
  | _, _ => s
  end.

(** ** JSON, as [JSON.stringify] writes it and [JSON.parse] reads it back *)

Module JSON.

Definition hexDigit (n : Z) : ascii :=
  default "0"%char (String.get (Z.to_nat n) "0123456789abcdef").

(** QuoteJSONString, one code unit at a time. *)
Definition quoteChar (c : ascii) : string :=
  let n := codeOf c in
  if n =? 34 then "\" +:+ dq
  else if n =? 92 then "\\"
  else if n =? 8 then "\b"
  else if n =? 12 then "\f"
  else if n =? 10 then "\n"
  else if n =? 13 then "\r"
  else if n =? 9 then "\t"
  else if n <? 32 then
    "\u00" +:+ String (hexDigit (n / 16)) (String (hexDigit (n mod 16)) "")
  else String c "".

Fixpoint quoteChars (s : string) : string :=
  match s with
  | EmptyString => ""
  | String c rest => quoteChar c +:+ quoteChars rest
  end.

Definition quote (s : string) : string := dq +:+ quoteChars s +:+ dq.

(** SerializeJSONProperty without indentation: [undefined] is [null] inside
    an array and its property is left out of an object. *)
Fixpoint stringify (v : value) : string :=
  match v with
  | VUndefined | VNull => "null"
  | VBool true => "true"
  | VBool false => "false"
  | VNum n => decimal n
  | VStr s => quote s
  | VArr items =>
      match items with
      | [] => "[]"
      | x :: rest =>
          "[" +:+ stringify x +:+
          (fix elements (l : list value) : string :=
             match l with
             | [] => "]"
             | y :: l' => "," +:+ stringify y +:+ elements l'
             end) rest
      end
  | VObj props =>
      "{" +:+
      (fix members (first : bool) (l : list (string * value)) : string :=
         match l with
         | [] => "}"
         | (_, VUndefined) :: l' => members first l'
         | (k, y) :: l' =>
             (if first then "" else ",") +:+ quote k +:+ ":" +:+
             stringify y +:+ members false l'
         end) true props
  end.

(** The loop of [stringify] over the elements that follow the first. *)
Fixpoint stringifyElements (l : list value) : string :=
  match l with
  | [] => "]"
  | y :: l' => "," +:+ stringify y +:+ stringifyElements l'
  end.

(** The loop of [stringify] over the properties of an object. *)
Fixpoint stringifyMembers (first : bool) (l : list (string * value)) : string :=
  match l with
  | [] => "}"
  | (_, VUndefined) :: l' => stringifyMembers first l'
  | (k, y) :: l' =>
      (if first then "" else ",") +:+ quote k +:+ ":" +:+
      stringify y +:+ stringifyMembers false l'
  end.

Fixpoint uniqueKeys (keys : list string) : bool :=
  match keys with
  | [] => true
  | k :: rest => negb (existsb (String.eqb k) rest) && uniqueKeys rest
  end.

(** The values that JSON carries unchanged: no [undefined] anywhere and no
    property name twice in an object. *)
Fixpoint storable (v : value) : bool :=
  match v with
  | VUndefined => false
  | VNull | VBool _ | VNum _ | VStr _ => true
  | VArr items => forallb storable items
  | VObj props =>
      uniqueKeys (map fst props) && forallb (fun kv => storable (snd kv)) props
  end.

(** *** Reading *)

Definition hexValue (c : ascii) : option Z :=
  let n := codeOf c in
  if (48 <=? n) && (n <=? 57) then Some (n - 48)
  else if (97 <=? n) && (n <=? 102) then Some (n - 87)
  else if (65 <=? n) && (n <=? 70) then Some (n - 55)
  else None.

Definition charOfCode (n : Z) : option ascii :=
  if (0 <=? n) && (n <? 256) then Some (ascii_of_N (Z.to_N n)) else None.

(** What follows a backslash: the character denoted and the rest. A
    [\uXXXX] above U+00FF is outside the model's text. *)
Definition parseEscape (s : string) : option (ascii * string) :=
  match s with
  | String e rest =>
      let n := codeOf e in
      if (n =? 34) || (n =? 92) || (n =? 47) then Some (e, rest)
      else if n =? 98 then Some ("008"%char, rest)
      else if n =? 102 then Some ("012"%char, rest)
      else if n =? 110 then Some ("010"%char, rest)
      else if n =? 114 then Some ("013"%char, rest)
      else if n =? 116 then Some ("009"%char, rest)
      else if n =? 117 then
        match rest with
        | String h3 (String h2 (String h1 (String h0 rest'))) =>
            match hexValue h3, hexValue h2, hexValue h1, hexValue h0 with
            | Some a, Some b, Some c, Some d =>
                match charOfCode (4096 * a + 256 * b + 16 * c + d) with
                | Some ch => Some (ch, rest')
                | None => None
                end
            | _, _, _, _ => None
            end
        | _ => None
        end
      else None
  | EmptyString => None
  end.

(** The characters of a string literal after its opening quote, up to and
    including the closing quote. The recursion is on the length of the
    text still to read. *)
Fixpoint parseChars (fuel : nat) (s : string) : option (string * string) :=
  match fuel, s with
  | S fuel', String c rest =>
      let n := codeOf c in
      if n =? 34 then Some ("", rest)
      else if n =? 92 then
        match parseEscape rest with
        | Some (ch, rest') =>
            match parseChars fuel' rest' with
            | Some (str, r) => Some (String ch str, r)
            | None => None
            end
        | None => None
        end
      else if n <? 32 then None
      else
        match parseChars fuel' rest with
        | Some (str, r) => Some (String c str, r)
        | None => None
        end
  | _, _ => None
  end.

Definition isDigit (c : ascii) : bool := (48 <=? codeOf c) && (codeOf c <=? 57).

Fixpoint spanDigits (s : string) : string * string :=
  match s with
  | String c rest =>
      if isDigit c then let (d, r) := spanDigits rest in (String c d, r)
      else ("", s)
  | EmptyString => ("", "")
  end.

(** An unsigned integer without a leading zero. *)
Definition parseDigits (s : string) : option (Z * string) :=
  let (ds, rest) := spanDigits s in
  match NilZero.uint_of_string ds with
  | Some u =>
      if Decimal.uint_beq (Decimal.unorm u) u then Some (Z.of_uint u, rest)
      else None
  | None => None
  end.

Definition parseNumber (s : string) : option (Z * string) :=
  match s with
  | String c rest =>
      if codeOf c =? 45 then
        match parseDigits rest with
        | Some (n, r) => Some (- n, r)
        | None => None
        end
      else parseDigits s
  | EmptyString => None
  end.

Definition expect (lit s : string) : option string :=
  if String.prefix lit s then Some (dropStr (String.length lit) s) else None.

(** [obj[k] = v]: a key that is already there keeps its place. *)
Fixpoint setProp (k : string) (v : value) (props : list (string * value))
  : list (string * value) :=
  match props with
  | [] => [(k, v)]
  | (k', v') :: rest =>
      if String.eqb k' k then (k, v) :: rest else (k', v') :: setProp k v rest
  end.

Definition objectOf (members : list (string * value)) : value :=
  VObj (fold_left (fun acc kv => setProp (fst kv) (snd kv) acc) members []).

Fixpoint parseValue (fuel : nat) (s : string) : option (value * string) :=
  match fuel, s with
  | S fuel', String c rest =>
      let n := codeOf c in
      if n =? 110 then option_map (pair VNull) (expect "ull" rest)
      else if n =? 116 then option_map (pair (VBool true)) (expect "rue" rest)
      else if n =? 102 then option_map (pair (VBool false)) (expect "alse" rest)
      else if n =? 34 then
        match parseChars (String.length rest) rest with
        | Some (str, r) => Some (VStr str, r)
        | None => None
        end
      else if n =? 91 then
        match expect "]" rest with
        | Some r => Some (VArr [], r)
        | None =>
            match parseValue fuel' rest with
            | Some (v, r) =>
                match parseElements fuel' r with
                | Some (vs, r') => Some (VArr (v :: vs), r')
                | None => None
                end
            | None => None
            end
        end
      else if n =? 123 then
        match expect "}" rest with
        | Some r => Some (VObj [], r)
        | None =>
            match parseMembers fuel' ("," +:+ rest) with
            | Some (kvs, r) => Some (objectOf kvs, r)
            | None => None
            end
        end
      else
        match parseNumber s with
        | Some (z, r) => Some (VNum z, r)
        | None => None
        end
  | _, _ => None
  end
with parseElements (fuel : nat) (s : string) : option (list value * string) :=
  match fuel, s with
  | S fuel', String c rest =>
      if codeOf c =? 93 then Some ([], rest)
      else if codeOf c =? 44 then
        match parseValue fuel' rest with
        | Some (v, r) =>
            match parseElements fuel' r with
            | Some (vs, r') => Some (v :: vs, r')
            | None => None
            end
        | None => None
        end
      else None
  | _, _ => None
  end
with parseMembers (fuel : nat) (s : string)
  : option (list (string * value) * string) :=
  match fuel, s with
  | S fuel', String c rest =>
      if codeOf c =? 125 then Some ([], rest)
      else if codeOf c =? 44 then
        match expect dq rest with
        | Some r0 =>
            match parseChars (String.length r0) r0 with
            | Some (k, r1) =>
                match expect ":" r1 with
                | Some r2 =>
                    match parseValue fuel' r2 with
                    | Some (v, r3) =>
                        match parseMembers fuel' r3 with
                        | Some (kvs, r4) => Some ((k, v) :: kvs, r4)
                        | None => None
                        end
                    | None => None
                    end
                | None => None
                end
            | None => None
            end
        | None => None
        end
      else None
  | _, _ => None
  end.

(** What may follow a number: anything but a further digit. *)
Definition endsNumber (rest : string) : bool :=
  match rest with
  | String c _ => negb (isDigit c)
  | EmptyString => true
  end.

Definition syntaxError : exn := JsError "Unexpected token in JSON".

(** [JSON.parse(text)] on the compact grammar that [stringify] writes:
    no insignificant white space, integers only. *)
Definition parse (text : string) : result value :=
  match parseValue (S (String.length text)) text with
  | Some (v, EmptyString) => Ok v
  | _ => Throw syntaxError
  end.

(** [v], once written, is read back from the front of any text in which no
    digit follows it. *)
Definition reads (v : value) : Prop :=
  forall (fuel : nat) (rest : string),
    (String.length (stringify v) < fuel)%nat ->
    endsNumber rest = true ->
    parseValue fuel (stringify v +:+ rest) = Some (v, rest).

End JSON.

(** ** The browser: page, storage, network and clock *)

Inductive markup : Type :=
| InnerHTML (html : string)      (* parsed as markup *)
| TextContent (text : string).   (* shown as text *)

(** The children of [#genie-messages]. *)
Inductive node : Type :=
| MessageDiv (className : string) (body : markup) (time : option string)
| TypingIndicator
| ErrorDiv (html : string) (retry : bool).

(** What the widget does to the outside, in the order it does it. *)
Inductive event : Type :=
| Alert (msg : string)
| Fetch (action : string) (params : list (string * value))
| Timeout (ms : Z)
| SetItem (key data : string).

(** The fields of a [GenieChat] instance. *)
Record instance : Type := {
  conversationId : value;
  messages : value;
  isOpen : bool;
  isLoading : bool;
  lastQuery : value
}.

Record page : Type := {
  inputValue : string;    (* #genie-input *)
  sendDisabled : bool;    (* #genie-send-btn *)
  processing : bool;      (* class of #genie-chat-btn *)
  welcome : bool;         (* .genie-welcome is in the document *)
  children : list node
}.

(** What [fetch] resolves to; [body] is the outcome of [response.json()]. *)
Record response : Type := {
  ok : bool;
  status : Z;
  contentType : option string;
  body : result value
}.

Inductive fetched : Type :=
| NetworkError (e : exn)
| Response (r : response).

(** The environment a run cannot influence: the reply to the n-th request,
    the n-th reading of the clock and the locale's rendering of a time. *)
Record browser : Type := {
  respond : nat -> string -> list (string * value) -> fetched;
  clock : nat -> Z;
  localeTime : Z -> string
}.

Record world : Type := {
  this : instance;
  doc : page;
  localStorage : gmap string string;
  trace : list event;
  fetches : nat;
  ticks : nat;
  env : browser
}.

Definition withThis (f : instance -> instance) (w : world) : world :=
  {| this := f (this w); doc := doc w; localStorage := localStorage w;
     trace := trace w; fetches := fetches w; ticks := ticks w; env := env w |}.

Definition withDoc (f : page -> page) (w : world) : world :=
  {| this := this w; doc := f (doc w); localStorage := localStorage w;
     trace := trace w; fetches := fetches w; ticks := ticks w; env := env w |}.

Definition setConversationId (v : value) (i : instance) : instance :=
  {| conversationId := v; messages := messages i; isOpen := isOpen i;
     isLoading := isLoading i; lastQuery := lastQuery i |}.

Definition setMessages (v : value) (i : instance) : instance :=
  {| conversationId := conversationId i; messages := v; isOpen := isOpen i;
     isLoading := isLoading i; lastQuery := lastQuery i |}.

Definition setIsLoading (b : bool) (i : instance) : instance :=
  {| conversationId := conversationId i; messages := messages i;
     isOpen := isOpen i; isLoading := b; lastQuery := lastQuery i |}.

Definition setLastQuery (v : value) (i : instance) : instance :=
  {| conversationId := conversationId i; messages := messages i;
     isOpen := isOpen i; isLoading := isLoading i; lastQuery := v |}.

Definition setInputValue (s : string) (p : page) : page :=
  {| inputValue := s; sendDisabled := sendDisabled p;
     processing := processing p; welcome := welcome p;
     children := children p |}.

Definition setSendDisabled (b : bool) (p : page) : page :=
  {| inputValue := inputValue p; sendDisabled := b;
     processing := processing p; welcome := welcome p;
     children := children p |}.

Definition setProcessing (b : bool) (p : page) : page :=
  {| inputValue := inputValue p; sendDisabled := sendDisabled p;
     processing := b; welcome := welcome p; children := children p |}.

Definition setWelcome (b : bool) (p : page) : page :=
  {| inputValue := inputValue p; sendDisabled := sendDisabled p;
     processing := processing p; welcome := b; children := children p |}.

Definition setChildren (l : list node) (p : page) : page :=
  {| inputValue := inputValue p; sendDisabled := sendDisabled p;
     processing := processing p; welcome := welcome p; children := l |}.

(** ** Computations: state, with exceptions that keep the state *)

Definition M (A : Type) : Type := world -> result A * world.

Definition ret {A} (a : A) : M A := fun w => (Ok a, w).

Definition bind {A B} (c : M A) (k : A -> M B) : M B :=
  fun w =>
    match c w with
    | (Ok a, w') => k a w'
    | (Throw e, w') => (Throw e, w')
    end.

Definition throw {A} (e : exn) : M A := fun w => (Throw e, w).

Definition liftR {A} (r : result A) : M A := fun w => (r, w).

Declare Scope js_scope.
Delimit Scope js_scope with js.
Notation "x <- c ;; k" := (bind c (fun x => k))
  (at level 100, c at next level, right associativity) : js_scope.
Notation "c ;; k" := (bind c (fun _ => k))
  (at level 100, right associativity) : js_scope.
Local Open Scope js_scope.

(** [try { c } catch (error) { h error }]. *)
Definition tryCatch {A} (c : M A) (h : exn -> M A) : M A :=
  fun w =>
    match c w with
    | (Throw (Unmodelled what), w') => (Throw (Unmodelled what), w')
    | (Throw e, w') => h e w'
    | done => done
    end.

(** [try { c } finally { f }]. *)
Definition tryFinally {A} (c : M A) (f : M unit) : M A :=
  fun w =>
    match c w with
    | (r, w') =>
        match f w' with
        | (Ok _, w'') => (r, w'')
        | (Throw e, w'') => (Throw e, w'')
        end
    end.

Definition getThis : M instance := fun w => (Ok (this w), w).
Definition getEnv : M browser := fun w => (Ok (env w), w).
Definition getDoc : M page := fun w => (Ok (doc w), w).
Definition modifyThis (f : instance -> instance) : M unit :=
  fun w => (Ok tt, withThis f w).
Definition modifyDoc (f : page -> page) : M unit :=
  fun w => (Ok tt, withDoc f w).

Definition emit (e : event) : M unit :=
  fun w =>
    (Ok tt,
     {| this := this w; doc := doc w; localStorage := localStorage w;
        trace := trace w ++ [e]; fetches := fetches w; ticks := ticks w;
        env := env w |}).

(** [Date.now()] and [new Date()]. *)
Definition now : M Z :=
  fun w =>
    (Ok (clock (env w) (ticks w)),
     {| this := this w; doc := doc w; localStorage := localStorage w;
        trace := trace w; fetches := fetches w; ticks := S (ticks w);
        env := env w |}).

(** [await new Promise(resolve => setTimeout(resolve, ms))]. *)
Definition sleep (ms : Z) : M unit := emit (Timeout ms).

(** [await fetch('/api/genie', { method: 'POST', body: {action, ...params} })]. *)
Definition fetch (action : string) (params : list (string * value)) : M response :=
  fun w =>
    let w' :=
      {| this := this w; doc := doc w; localStorage := localStorage w;
         trace := trace w ++ [Fetch action params]; fetches := S (fetches w);
         ticks := ticks w; env := env w |} in
    match respond (env w) (fetches w) action params with
    | NetworkError e => (Throw e, w')
    | Response r => (Ok r, w')
    end.

(** [localStorage.setItem(key, data)]; the quota is taken to suffice. *)
Definition setItem (key data : string) : M unit :=
  fun w =>
    (Ok tt,
     {| this := this w; doc := doc w;
        localStorage := <[key := data]> (localStorage w);
        trace := trace w ++ [SetItem key data]; fetches := fetches w;
        ticks := ticks w; env := env w |}).

(** [localStorage.getItem(key)]. *)
Definition getItem (key : string) : M (option string) :=
  fun w => (Ok (localStorage w !! key), w).

Definition appendChild (n : node) : M unit :=
  modifyDoc (fun p => setChildren (children p ++ [n]) p).

(** [arr.forEach(f)] for an effectful callback. *)
Fixpoint forEach {A} (f : A -> M unit) (l : list A) : M unit :=
  match l with
  | [] => ret tt
  | x :: rest => f x ;; forEach f rest
  end.

(** A loop that appends to a local [html] string: the pieces in order, or
    the first exception. The callback gets the index as [forEach] passes it. *)
Fixpoint renderEach {A} (f : A -> nat -> result string) (i : nat) (l : list A)
  : result string :=
  match l with
  | [] => Ok ""
  | x :: rest =>
      match f x i with
      | Ok piece =>
          match renderEach f (S i) rest with
          | Ok more => Ok (piece +:+ more)
          | Throw e => Throw e
          end
      | Throw e => Throw e
      end
  end.

(** [content.includes('<')] on whatever [content] is. *)
Definition jsIncludes (what : string) (content : value) (needle : string)
  : result bool :=
  match content with
  | VStr s => Ok (includes s needle)
  | VArr items => Ok (existsb (fun x => isStr x needle) items)
  | VUndefined | VNull => Throw (cannotRead content "includes")
  | VBool _ | VNum _ | VObj _ => Throw (notAFunction (what +:+ ".includes"))
  end.

(** [v.slice(-n)]. *)
Definition sliceLast (what : string) (n : nat) (v : value) : result value :=
  match v with
  | VArr items => Ok (VArr (lastN n items))
  | VStr s => Ok (VStr (dropStr (String.length s - n) s))
  | VUndefined | VNull => Throw (cannotRead v "slice")
  | VBool _ | VNum _ | VObj _ => Throw (notAFunction (what +:+ ".slice"))
  end.

(** [v.slice(0, 3)] evaluated for a log line: only whether it throws matters. *)
Definition sliceForLog (what : string) (v : value) : result unit :=
  match v with
  | VArr _ | VStr _ => Ok tt
  | VUndefined | VNull => Throw (cannotRead v "slice")
  | VBool _ | VNum _ | VObj _ => Throw (notAFunction (what +:+ ".slice"))
  end.

(** The items of an array, for [v.forEach] and [for ... of]. *)
Definition itemsOf (what : string) (v : value) : result (list value) :=
  match v with
  | VArr items => Ok items
  | VUndefined | VNull => Throw (cannotRead v "forEach")
  | _ => Throw (notAFunction (what +:+ ".forEach"))
  end.

(** ** The parts of the DOM the widget relies on *)

Module DOM.

(** Serialisation of a text node, as [div.innerHTML] returns it. *)
Definition escapeChar (c : ascii) : string :=
  let n := codeOf c in
  if n =? 38 then "&amp;"
  else if n =? 60 then "&lt;"
  else if n =? 62 then "&gt;"
  else if n =? 160 then "&nbsp;"
  else String c "".

Fixpoint serializeText (s : string) : string :=
  match s with
  | EmptyString => ""
  | String c rest => escapeChar c +:+ serializeText rest
  end.

(** [div.textContent = v]: [null] and [undefined] give the empty text. *)
Definition textOf (v : value) : string :=
  match v with
  | VUndefined | VNull => ""
  | _ => toString v
  end.

(** [name="value"]. *)
Definition attr (name val : string) : string :=
  name +:+ "=" +:+ dq +:+ val +:+ dq.

Fixpoint removeFirstTyping (l : list node) : list node :=
  match l with
  | [] => []
  | TypingIndicator :: rest => rest
  | n :: rest => n :: removeFirstTyping rest
  end.

End DOM.

(** ** class GenieChat *)

Module GenieChat.

Definition storageKey : string := "GENIE_CHAT_STATE".

(** [constructor()], before [this.init()]. *)
Definition fresh : instance :=
  {| conversationId := VNull; messages := VArr []; isOpen := false;
     isLoading := false; lastQuery := VNull |}.

(** [escapeHtml(text)]. *)
Definition escapeHtml (text : value) : string :=
  DOM.serializeText (DOM.textOf text).

(** [saveState()]. *)
Definition saveState : M unit :=
  self <- getThis ;;
  kept <- liftR (sliceLast "this.messages" 20 (messages self)) ;;
  let state := VObj [("conversationId", conversationId self);
                     ("messages", kept)] in
  setItem storageKey (JSON.stringify state).

(** The body of the [forEach] of [loadState]. *)
Definition restoreMessage (msg : value) : M unit :=
  role <- liftR (getProp msg "role") ;;
  content <- liftR (getProp msg "content") ;;
  hasMarkup <- liftR (jsIncludes "msg.content" content "<") ;;
  appendChild
    (MessageDiv ("genie-message " +:+ toString role)
       (if hasMarkup : bool then InnerHTML (toString content)
        else TextContent (DOM.textOf content))
       None).

(** [loadState()]. *)
Definition loadState : M unit :=
  tryCatch
    (saved <- getItem storageKey ;;
     match saved with
     | Some text =>
         if String.eqb text "" then ret tt
         else
           state <- liftR (JSON.parse text) ;;
           cid <- liftR (getProp state "conversationId") ;;
           modifyThis (setConversationId cid) ;;
           stored <- liftR (getProp state "messages") ;;
           let msgs := if truthy stored then stored else VArr [] in
           modifyThis (setMessages msgs) ;;
           len <- liftR (getProp msgs "length") ;;
           some <- liftR (gtZero len) ;;
           if some : bool then
             modifyDoc (setWelcome false) ;;
             items <- liftR (itemsOf "this.messages" msgs) ;;
             forEach restoreMessage items
           else ret tt
     | None => ret tt
     end)
    (fun _ => ret tt).

(** [new GenieChat()]: the fields, then [init()], which loads the state. *)
Definition construct : M unit :=
  modifyThis (fun _ => fresh) ;;
  loadState.

(** [addMessage(role, content)]. *)
Definition addMessage (role : string) (content : value) : M unit :=
  hasMarkup <- liftR (jsIncludes "content" content "<") ;;
  let body := if hasMarkup : bool then InnerHTML (toString content)
              else TextContent (DOM.textOf content) in
  date <- now ;;
  browser <- getEnv ;;
  page <- getDoc ;;
  (if welcome page && String.eqb role "user"
   then modifyDoc (setWelcome false) else ret tt) ;;
  appendChild
    (MessageDiv ("genie-message " +:+ role) body
       (Some (localeTime browser date))) ;;
  timestamp <- now ;;
  self <- getThis ;;
  match messages self with
  | VArr items =>
      modifyThis
        (setMessages
           (VArr (items ++ [VObj [("role", VStr role); ("content", content);
                                  ("timestamp", VNum timestamp)]])))
  | VUndefined | VNull => throw (cannotRead (messages self) "push")
  | _ => throw (notAFunction "this.messages.push")
  end ;;
  saveState.

Definition showTypingIndicator : M unit := appendChild TypingIndicator.

Definition hideTypingIndicator : M unit :=
  modifyDoc (fun p => setChildren (DOM.removeFirstTyping (children p)) p).

(** The user-facing wording [showError] picks for a message. *)
Definition displayMessageOf (message : string) : string :=
  if includes message "401" || includes message "403" then
    "Authentication failed. Please check your Databricks credentials."
  else if includes message "429" then
    "Too many requests. Please wait a moment and try again."
  else if includes message "timeout" then
    "Query took too long to complete. Try a simpler question."
  else if includes message "fetch" || includes message "network" then
    "Could not connect to Genie. Check your internet connection."
  else if includes message "Azure storage" || includes message "not authorized" then
    "Data access error: The Genie Space may not have proper access to your data tables. Check your Databricks workspace permissions and storage configuration."
  else if includes message "SQL_EXECUTION_EXCEPTION" then
    "SQL execution error: The query failed to run. This may be due to data access permissions or missing tables in your workspace."
  else message.

(** [showError(message, canRetry)]. *)
Definition showError (message : string) (canRetry : bool) : M unit :=
  let displayMessage := displayMessageOf message in
  appendChild
    (ErrorDiv
       (nl +:+ "            <p><strong>Error:</strong> " +:+
        escapeHtml (VStr displayMessage) +:+ "</p>" +:+
        nl +:+ "            " +:+
        (if canRetry
         then "<button " +:+ DOM.attr "class" "genie-retry-btn" +:+ ">Retry</button>"
         else "") +:+
        nl +:+ "        ")
       canRetry).

(** [callAPI(action, params)]. *)
Definition callAPI (action : string) (params : list (string * value)) : M value :=
  tryCatch
    (response <- fetch action params ;;
     (if negb (ok response) then
        let isJson := match contentType response with
                      | Some ct => negb (String.eqb ct "") &&
                                   includes ct "application/json"
                      | None => false
                      end in
        if isJson then
          errorData <- liftR (body response) ;;
          detail <- liftR (getProp errorData "error") ;;
          throw (JsError (if truthy detail then toString detail
                          else "Server error: " +:+ decimal (status response)))
        else if status response =? 503 then
          throw (JsError "Service temporarily unavailable. The function may be starting up or experiencing high load. Please try again in a moment.")
        else if status response =? 500 then
          throw (JsError "Server error. Check the Azure Function logs for details.")
        else
          throw (JsError ("Server error: " +:+ decimal (status response)))
      else ret tt) ;;
     result <- liftR (body response) ;;
     success <- liftR (getProp result "success") ;;
     if negb (truthy success) then
       detail <- liftR (getProp result "error") ;;
       throw (JsError (if truthy detail then toString detail
                       else "API request failed"))
     else liftR (getProp result "data"))
    (fun error =>
       if includes (messageOf error) "JSON" then
         throw (JsError "Invalid response from server. The API may be misconfigured or experiencing issues.")
       else throw error).

Definition delays : list Z := [500; 1000; 2000; 5000].
Definition maxAttempts : Z := 30.

(** [delays[Math.min(attempt, delays.length - 1)]], with [undefined] (an
    index below zero) read by [setTimeout] as no delay. *)
Definition delayOf (attempt : Z) : Z :=
  let index := Z.min attempt (Z.of_nat (length delays) - 1) in
  if index <? 0 then 0 else default 0 (delays !! Z.to_nat index).

(** The message of a FAILED result. *)
Definition failureMessage (result : value) : M string :=
  error <- liftR (getProp result "error") ;;
  if truthy error then
    inner <- liftR (if isObject error then getProp error "error"
                    else Ok VUndefined) ;;
    if isObject error && truthy inner then ret (toString inner)
    else match error with
         | VStr s => ret s
         | _ => ret (JSON.stringify error)
         end
  else ret "Query failed".

(** The loop over the attachments of a FAILED result, which only logs. *)
Definition scanAttachments (result : value) : M unit :=
  attachments <- liftR (getProp result "attachments") ;;
  if truthy attachments then
    len <- liftR (getProp attachments "length") ;;
    some <- liftR (gtZero len) ;;
    if some : bool then
      match attachments with
      | VArr items =>
          forEach (fun attachment =>
                     text <- liftR (getProp attachment "text") ;;
                     if truthy text
                     then liftR (getProp text "content") ;; ret tt
                     else ret tt) items
      | VStr _ => ret tt
      | _ => throw (TypeError "result.attachments is not iterable")
      end
    else ret tt
  else ret tt.

Definition timeoutMessage : string :=
  "Query timeout - Genie took too long to respond. This might be a complex query.".

(** [pollForResult(messageId, attempt)]. The recursion of the source ends
    because [attempt] grows up to [maxAttempts]; [budget] counts the
    attempts that are left. *)
Fixpoint pollFrom (budget : nat) (messageId : value) (attempt : Z) : M value :=
  if maxAttempts <=? attempt then
    throw (JsError timeoutMessage)
  else
    match budget with
    | O => throw (Unmodelled "attempts left")
    | S budget' =>
        sleep (delayOf attempt) ;;
        self <- getThis ;;
        result <- callAPI "poll-result"
                    [("conversationId", conversationId self);
                     ("messageId", messageId)] ;;
        status <- liftR (getProp result "status") ;;
        if isStr status "EXECUTING" || isStr status "FILTERING_CONTEXT"
           || isStr status "QUERY_RESULT_EXPIRED" then
          pollFrom budget' messageId (attempt + 1)
        else if isStr status "COMPLETED" then ret result
        else if isStr status "FAILED" then
          errorMessage <- failureMessage result ;;
          scanAttachments result ;;
          throw (JsError errorMessage)
        else pollFrom budget' messageId (attempt + 1)
    end.

Definition pollForResult (messageId : value) (attempt : Z) : M value :=
  pollFrom (Z.to_nat (maxAttempts - attempt)) messageId attempt.

Definition numericTypes : list string :=
  ["LONG"; "INT"; "DOUBLE"; "FLOAT"; "DECIMAL"].

(** The body of [row.forEach((cell, colIndex) => ...)]. *)
Definition renderCell (columns : list value) (cell : value) (colIndex : nat)
  : result string :=
  colType <~ getProp (default VUndefined (columns !! colIndex)) "type" ;;
  let isNumeric := existsb (isStr colType) numericTypes in
  let className := if isNumeric then "numeric" else "" in
  let displayValue := if isNull cell then "NULL" else toString cell in
  Ok ("<td " +:+ DOM.attr "class" className +:+ ">" +:+
      escapeHtml (VStr displayValue) +:+ "</td>").

(** The body of [data_array.forEach((row, rowIndex) => ...)]. *)
Definition renderRow (columns : list value) (row : value) (rowIndex : nat)
  : result string :=
  cells <~ itemsOf "row" row ;;
  tds <~ renderEach (renderCell columns) 0 cells ;;
  Ok ("<tr>" +:+ tds +:+ "</tr>").

(** The body of [schema.columns.forEach(col => ...)]. *)
Definition renderHeader (col : value) (_ : nat) : result string :=
  name <~ getProp col "name" ;;
  Ok ("<th>" +:+ escapeHtml name +:+ "</th>").

Definition noDataFound : string :=
  "<p " +:+ DOM.attr "style" "color: var(--medium-gray); font-style: italic;" +:+
  ">No data found for this query.</p>".

(** [renderDataTable(queryResult)]. *)
Definition renderDataTable (queryResult : value) : result string :=
  data_array <~ getProp queryResult "data_array" ;;
  schema <~ getProp queryResult "schema" ;;
  row_count <~ getProp queryResult "row_count" ;;
  len <~ (if truthy data_array then getProp data_array "length" else Ok (VNum 0)) ;;
  if negb (truthy data_array) || isZero len then Ok noDataFound
  else
    columns <~ getProp schema "columns" ;;
    _ <~ getProp columns "length" ;;
    cols <~ itemsOf "schema.columns" columns ;;
    ths <~ renderEach renderHeader 0 cols ;;
    rows <~ itemsOf "data_array" data_array ;;
    trs <~ renderEach (renderRow cols) 0 rows ;;
    truncated <~ getProp queryResult "truncated" ;;
    Ok ("<div " +:+ DOM.attr "class" "genie-table-wrapper" +:+ ">" +:+
        "<table " +:+ DOM.attr "class" "genie-results-table" +:+ ">" +:+
        "<thead><tr>" +:+ ths +:+ "</tr></thead>" +:+
        "<tbody>" +:+ trs +:+ "</tbody>" +:+
        "</table></div>" +:+
        (if truthy truncated then
           "<p " +:+
           DOM.attr "style" "color: var(--gold); font-size: 0.85rem; margin-top: 5px;" +:+
           ">Showing first " +:+ toString len +:+ " of " +:+
           toString row_count +:+ " rows</p>"
         else "")).

Definition noAttachments : string :=
  "Genie processed your query but returned no data.".
Definition noDataShown : string :=
  "Query executed but no data was returned. Check browser console for details.".

(** [displayResult(result)]. *)
Definition displayResult (result : value) : M unit :=
  attachments <- liftR (getProp result "attachments") ;;
  count <- liftR (if truthy attachments then getProp attachments "length"
                  else Ok (VNum 0)) ;;
  if negb (truthy attachments) || isZero count then
    addMessage "assistant" (VStr noAttachments)
  else
    items <- liftR (itemsOf "result.attachments" attachments) ;;
    let attachment := default VUndefined (items !! 0%nat) in
    query <- liftR (getProp attachment "query") ;;
    queryResult <- liftR (if truthy query then getProp query "query_result"
                          else Ok query) ;;
    hasData <-
      (if truthy queryResult then
         data_array <- liftR (getProp queryResult "data_array") ;;
         some <- liftR (if truthy data_array
                        then len <~ getProp data_array "length" ;; gtZero len
                        else Ok false) ;;
         if some : bool then
           liftR (sliceForLog "queryResult.data_array" data_array) ;;
           tableHTML <- liftR (renderDataTable queryResult) ;;
           addMessage "assistant" (VStr tableHTML) ;;
           ret true
         else ret false
       else ret false) ;;
    text <- liftR (getProp attachment "text") ;;
    narrative <- liftR (if truthy text then getProp text "content" else Ok text) ;;
    (if truthy narrative then addMessage "assistant" narrative else ret tt) ;;
    query <- liftR (getProp attachment "query") ;;
    sql <- liftR (if truthy query then getProp query "query" else Ok query) ;;
    (if truthy sql then
       addMessage "assistant"
         (VStr ("<div " +:+ DOM.attr "class" "genie-sql-code" +:+ "><pre>" +:+
                escapeHtml sql +:+ "</pre></div>"))
     else ret tt) ;;
    if hasData : bool then ret tt
    else addMessage "assistant" (VStr noDataShown).

(** [sendMessage(content)]. *)
Definition sendMessage (content : string) : M unit :=
  tryFinally
    (tryCatch
       (modifyThis (setIsLoading true) ;;
        modifyDoc (setProcessing true) ;;
        addMessage "user" (VStr content) ;;
        self <- getThis ;;
        (if negb (truthy (conversationId self)) then
           conversationData <- callAPI "start-conversation" [] ;;
           cid <- liftR (getProp conversationData "conversation_id") ;;
           modifyThis (setConversationId cid) ;;
           saveState
         else ret tt) ;;
        self <- getThis ;;
        messageData <- callAPI "send-message"
                         [("conversationId", conversationId self);
                          ("content", VStr content)] ;;
        messageId <- liftR (getProp messageData "id") ;;
        showTypingIndicator ;;
        result <- pollForResult messageId 0 ;;
        hideTypingIndicator ;;
        displayResult result)
       (fun error =>
          hideTypingIndicator ;;
          showError (messageOf error) true))
    (modifyThis (setIsLoading false) ;;
     modifyDoc (setProcessing false)).

(** [handleSend()]. *)
Definition handleSend : M unit :=
  page <- getDoc ;;
  let text := trim (inputValue page) in
  if strlen text <? 5 then emit (Alert "Please enter at least 5 characters")
  else if 1000 <? strlen text then
    emit (Alert "Message is too long (max 1000 characters)")
  else
    self <- getThis ;;
    if isLoading self then ret tt
    else
      modifyDoc (setInputValue "") ;;
      modifyDoc (setSendDisabled true) ;;
      modifyThis (setLastQuery (VStr text)) ;;
      sendMessage text.

End GenieChat.

(** ** Observations on a run *)

(** The events a computation adds to a trace that held [before]. *)
Definition emitted (before after : world) : list event :=
  drop (length (trace before)) (trace after).

(** The waits of a sequence of events, in order. *)
Fixpoint waits (evs : list event) : list Z :=
  match evs with
  | [] => []
  | Timeout ms :: rest => ms :: waits rest
  | _ :: rest => waits rest
  end.

(** The requests of a sequence of events, in order. *)
Fixpoint requests (evs : list event) : list string :=
  match evs with
  | [] => []
  | Fetch action _ :: rest => action :: requests rest
  | _ :: rest => requests rest
  end.

Definition sumZ (l : list Z) : Z := fold_right Z.add 0 l.

(** The delay waited before the k-th request (from 0) of [evs] is issued;
    [None] when there is no such request. *)
Fixpoint waitedBeforeRequest (k : nat) (evs : list event) : option Z :=
  match evs with
  | [] => None
  | Timeout ms :: rest => Z.add ms <$> waitedBeforeRequest k rest
  | Fetch _ _ :: rest =>
      match k with
      | O => Some 0
      | S k' => waitedBeforeRequest k' rest
      end
  | _ :: rest => waitedBeforeRequest k rest
  end.

(** The delay waited before the k-th wait (from 0) of [evs] starts. *)
Fixpoint waitedBeforeWait (k : nat) (evs : list event) : option Z :=
  match evs with
  | [] => None
  | Timeout ms :: rest =>
      match k with
      | O => Some 0
      | S k' => Z.add ms <$> waitedBeforeWait k' rest
      end
  | _ :: rest => waitedBeforeWait k rest
  end.

(** The world once [events] have happened and [n] more requests were sent. *)
Definition advanced (events : list event) (n : nat) (w : world) : world :=
  {| this := this w; doc := doc w; localStorage := localStorage w;
     trace := trace w ++ events; fetches := n + fetches w; ticks := ticks w;
     env := env w |}.

Definition alerted (msg : string) (w : world) : world :=
  advanced [Alert msg] 0 w.

(** The request of a poll, as [pollForResult] builds it. *)
Definition pollParams (w : world) (messageId : value) : list (string * value) :=
  [("conversationId", conversationId (this w)); ("messageId", messageId)].

(** What [n] consecutive polls starting at [attempt] leave in the trace. *)
Fixpoint pollEvents (w : world) (messageId : value) (attempt : Z) (n : nat)
  : list event :=
  match n with
  | O => []
  | S n' =>
      Timeout (GenieChat.delayOf attempt) ::
      Fetch "poll-result" (pollParams w messageId) ::
      pollEvents w messageId (attempt + 1) n'
  end.

(** The delay of [k] consecutive attempts starting at [attempt]. *)
Definition scheduleSum (attempt : Z) (k : nat) : Z :=
  sumZ (map (fun i => GenieChat.delayOf (attempt + Z.of_nat i)) (seq 0 k)).

(** A reply that keeps the poll going: a successful envelope whose status is
    neither COMPLETED nor FAILED. *)
Definition stillWorking (reply : fetched) : bool :=
  match reply with
  | Response r =>
      ok r &&
      match body r with
      | Ok result =>
          match getProp result "success", getProp result "data" with
          | Ok success, Ok data =>
              truthy success &&
              match getProp data "status" with
              | Ok status =>
                  negb (isStr status "COMPLETED") && negb (isStr status "FAILED")
              | Throw _ => false
              end
          | _, _ => false
          end
      | Throw _ => false
      end
  | NetworkError _ => false
  end.

(** [piece] is a contiguous part of [html]. *)
Definition occursIn (piece html : string) : Prop :=
  exists pre post, html = pre +:+ piece +:+ post.

(** The history entry [addMessage] pushes. *)
Definition turn (role : string) (content : value) (timestamp : Z) : value :=
  VObj [("role", VStr role); ("content", content); ("timestamp", VNum timestamp)].

(** How [addMessage] and [loadState] put a string into a message element:
    as markup when it holds a [<], as text otherwise. *)
Definition bodyOf (s : string) : markup :=
  if includes s "<" then InnerHTML s else TextContent s.

(** The document [saveState] writes for a history [items]. *)
Definition storedState (cid : value) (items : list value) : string :=
  JSON.stringify (VObj [("conversationId", cid);
                        ("messages", VArr (lastN 20 items))]).

(** The world after [addMessage(role, s)] on a history [items]. *)
Definition appended (role s : string) (items : list value) (w : world) : world :=
  let items' := items ++ [turn role (VStr s) (clock (env w) (S (ticks w)))] in
  let data := storedState (conversationId (this w)) items' in
  {| this := setMessages (VArr items') (this w);
     doc := setChildren
              (children (doc w) ++
               [MessageDiv ("genie-message " +:+ role) (bodyOf s)
                  (Some (localeTime (env w) (clock (env w) (ticks w))))])
              (if welcome (doc w) && String.eqb role "user"
               then setWelcome false (doc w) else doc w);
     localStorage := <[GenieChat.storageKey := data]> (localStorage w);
     trace := trace w ++ [SetItem GenieChat.storageKey data];
     fetches := fetches w;
     ticks := S (S (ticks w));
     env := env w |}.

(** What of a session the widget must keep: history, conversation handle,
    storage, and the events so far. *)
Definition sameSession (w w' : world) : Prop :=
  messages (this w') = messages (this w) /\
  conversationId (this w') = conversationId (this w) /\
  localStorage w' = localStorage w /\
  exists evs, trace w' = trace w ++ evs.

Definition isAssistant (t : value) : Prop :=
  getProp t "role" = Ok (VStr "assistant").

(** The user's turn [u], pushed onto [items] in world [w0], is kept: the
    history is [items], [u] and at most [n] assistant turns, the storage
    holds that history, and the first thing that happened after [w0] was the
    write of the history ending in [u]. *)
Definition keeps (w0 : world) (items : list value) (u : value) (n : nat)
                 (w : world) : Prop :=
  (exists more,
     messages (this w) = VArr (items ++ u :: more) /\
     Forall isAssistant more /\ (length more <= n)%nat /\
     localStorage w !! GenieChat.storageKey
     = Some (storedState (conversationId (this w)) (items ++ u :: more))) /\
  exists later,
    trace w = trace w0 ++
              SetItem GenieChat.storageKey
                (storedState (conversationId (this w0)) (items ++ [u])) :: later.

(** Whatever [c] returns or throws, it takes a world in [P] to one in [Q]. *)
Definition leads {A} (P : world -> Prop) (c : M A) (Q : world -> Prop) : Prop :=
  forall w, P w -> Q (snd (c w)).

(** From a world in [P], [c] returns [a] in a world in [Q a], or throws [e]
    in a world in [E e]. *)
Definition yields {A} (P : world -> Prop) (c : M A)
    (Q : A -> world -> Prop) (E : exn -> world -> Prop) : Prop :=
  forall w, P w ->
    match c w with
    | (Ok a, w') => Q a w'
    | (Throw e, w') => E e w'
    end.

(** The marker of an operation the model leaves out. *)
Definition isUnmodelled (e : exn) : bool :=
  match e with
  | Unmodelled _ => true
  | _ => false
  end.

(** [v == null]. *)
Definition isNullish (v : value) : bool :=
  match v with
  | VUndefined | VNull => true
  | _ => false
  end.

(** The typing indicators among the children of the messages pane. *)
Fixpoint typingShown (l : list node) : nat :=
  match l with
  | [] => 0
  | TypingIndicator :: rest => S (typingShown rest)
  | _ :: rest => typingShown rest
  end.


(** The requests of a sequence of events with their parameters, in order. *)
Fixpoint calls (evs : list event) : list (string * list (string * value)) :=
  match evs with
  | [] => []
  | Fetch action params :: rest => (action, params) :: calls rest
  | _ :: rest => calls rest
  end.

Definition isSetItem (e : event) : bool :=
  match e with
  | SetItem _ _ => true
  | _ => false
  end.

(** A step that only writes to storage and keeps the conversation handle. *)
Definition quiet {A} (c : M A) : Prop :=
  forall w,
    conversationId (this (snd (c w))) = conversationId (this w) /\
    exists es, trace (snd (c w)) = trace w ++ es /\ forallb isSetItem es = true.

(** Since [w0] the requests made satisfy [P], and the conversation handle
    satisfies [C]. *)
Definition stage (w0 : world) (P : list (string * list (string * value)) -> Prop)
    (C : value -> Prop) (w : world) : Prop :=
  (exists evs, trace w = trace w0 ++ evs /\ P (calls evs)) /\
  C (conversationId (this w)).

(** The parameters of send-message and the request of a poll, as
    [sendMessage] and [pollForResult] build them. *)
Definition sendParams (cid : value) (content : string) : list (string * value) :=
  [("conversationId", cid); ("content", VStr content)].

Definition pollCall (cid messageId : value) : string * list (string * value) :=
  ("poll-result", [("conversationId", cid); ("messageId", messageId)]).

(** start-conversation is requested when there is no conversation yet. *)
Definition startCalls (cid0 : value) : list (string * list (string * value)) :=
  if truthy cid0 then [] else [("start-conversation", [])].

(** The requests one submission makes when nothing stops it: the
    conversation is [cid0] before and [cid] after the start, the message is
    [messageId], and [n] polls are needed. *)
Definition exchange (cid0 cid messageId : value) (content : string) (n : nat)
  : list (string * list (string * value)) :=
  startCalls cid0 ++ ("send-message", sendParams cid content) ::
  replicate n (pollCall cid messageId).

Definition inExchange (cid0 : value) (content : string)
    (l : list (string * list (string * value))) : Prop :=
  exists cid messageId n,
    (n <= 30)%nat /\ (truthy cid0 = true -> cid = cid0) /\
    l `prefix_of` exchange cid0 cid messageId content n.

(** The payload of a reply that [callAPI] accepts: a response with an OK
    status whose body parses to an envelope with a truthy [success]. *)
Definition payloadOf (reply : fetched) : option value :=
  match reply with
  | Response r =>
      if ok r then
        match body r with
        | Ok envelope =>
            match getProp envelope "success", getProp envelope "data" with
            | Ok success, Ok data => if truthy success then Some data else None
            | _, _ => None
            end
        | Throw _ => None
        end
      else None
  | NetworkError _ => None
  end.

(** The message [callAPI] puts in place of one that mentions JSON. *)
Definition invalidResponse : string :=
  "Invalid response from server. The API may be misconfigured or experiencing issues.".

(** The text a FAILED message gives for its failure: [error.error] of an
    error object, or an error string. *)
Definition errorText (data : value) : option string :=
  match getProp data "error" with
  | Ok (VStr s) => Some s
  | Ok (VObj props) =>
      match assoc "error" props with
      | Some (VStr s) => Some s
      | _ => None
      end
  | _ => None
  end.

(** The characters that the serialisation of a text node rewrites. *)
Definition needsEscape (c : ascii) : bool :=
  let n := codeOf c in
  (n =? 38) || (n =? 60) || (n =? 62) || (n =? 160).

Fixpoint plainText (s : string) : bool :=
  match s with
  | EmptyString => true
  | String c rest => negb (needsEscape c) && plainText rest
  end.

(** How often the character [c] occurs in [s]. *)
Fixpoint occurrences (c : ascii) (s : string) : nat :=
  match s with
  | EmptyString => 0
  | String x rest => (if Ascii.eqb x c then 1 else 0) + occurrences c rest
  end.

(** A turn as the history stores it, from its role, text and time. *)
Definition turnOf (t : string * string * Z) : value :=
  turn (fst (fst t)) (VStr (snd (fst t))) (snd t).

(** The message element [loadState] rebuilds for a stored turn: it carries
    no time stamp. *)
Definition restoredDiv (role s : string) : node :=
  MessageDiv ("genie-message " +:+ role) (bodyOf s) None.

(** The history is [items] followed by between [lo] and [hi] turns of the
    assistant. *)
Definition answered (items : list value) (lo hi : nat) (w : world) : Prop :=
  exists more,
    messages (this w) = VArr (items ++ more) /\
    (lo <= length more <= hi)%nat /\ Forall isAssistant more.

(** What the user sees last in the messages pane: an answer of the
    assistant, or the error box with its retry button. *)
Definition feedbackShown (w : world) : Prop :=
  match last (children (doc w)) with
  | Some (MessageDiv className _ (Some _)) => className = "genie-message assistant"
  | Some (ErrorDiv _ retry) => retry = true
  | _ => False
  end.


(** ** The proxy function of the API: [api/genie]

    The Azure Function stands between the widget and the Genie service. A
    run of its handler makes requests to the service and ends by setting
    [context.res]; the service, the configuration and the clock are its
    environment. What it writes to the log is left out, but not what
    evaluating a logged expression may throw. *)

(** [s.toLowerCase()] on code units below U+0100: the capital letters A to Z
    and U+00C0 to U+00DE, the multiplication sign apart. *)
Definition lowerChar (c : ascii) : ascii :=
  let n := codeOf c in
  if (65 <=? n) && (n <=? 90) || (192 <=? n) && (n <=? 222) && negb (n =? 215)
  then ascii_of_N (Z.to_N (n + 32))
  else c.

Fixpoint toLowerCase (s : string) : string :=
  match s with
  | EmptyString => EmptyString
  | String c rest => String (lowerChar c) (toLowerCase rest)
  end.

Module Proxy.

(** [process.env]: a variable is a string or is not set. *)
Record settings : Type := {
  DATABRICKS_WORKSPACE_URL : option string;
  DATABRICKS_PAT_TOKEN : option string;
  GENIE_SPACE_ID : option string
}.

(** [req]: the method and the body, which arrives parsed, as a string, or
    not at all. *)
Record request : Type := {
  method : string;
  body : value
}.

(** A request to the service, as [fetch(url, options)] sends it. *)
Record call : Type := {
  url : string;
  verb : string;              (* options.method *)
  authorization : string;     (* options.headers.Authorization *)
  payload : option string     (* options.body *)
}.

(** What node-fetch resolves to: [response.ok], [response.status] and the
    outcomes of [response.text()] and [response.json()]. *)
Record reply : Type := {
  ok : bool;
  status : Z;
  text : result string;
  json : result value
}.

Inductive outcome : Type :=
| Rejected (e : exn)
| Replied (r : reply).

(** [context.res]. *)
Record res : Type := {
  code : Z;                          (* status *)
  headers : list (string * string);
  content : string                   (* body *)
}.

(** Computations of the function: the requests made so far are the state. *)
Definition N (A : Type) : Type := list call -> result A * list call.

Definition ret {A} (a : A) : N A := fun log => (Ok a, log).

Definition bind {A B} (c : N A) (k : A -> N B) : N B :=
  fun log =>
    match c log with
    | (Ok a, log') => k a log'
    | (Throw e, log') => (Throw e, log')
    end.

Definition throw {A} (e : exn) : N A := fun log => (Throw e, log).

Definition liftR {A} (r : result A) : N A := fun log => (r, log).

(** [try { c } catch (error) { h error }]. *)
Definition tryCatch {A} (c : N A) (h : exn -> N A) : N A :=
  fun log =>
    match c log with
    | (Throw (Unmodelled what), log') => (Throw (Unmodelled what), log')
    | (Throw e, log') => h e log'
    | done => done
    end.

Declare Scope proxy_scope.
Delimit Scope proxy_scope with proxy.
Notation "x <- c ;; k" := (bind c (fun x => k))
  (at level 100, c at next level, right associativity) : proxy_scope.
Local Open Scope proxy_scope.

(** [await fetch(url, options)] against the service [genie]. *)
Definition fetch (genie : call -> outcome) (c : call) : N reply :=
  fun log =>
    match genie c with
    | Rejected e => (Throw e, log ++ [c])
    | Replied r => (Ok r, log ++ [c])
    end.

Definition bearer (token : string) : string := "Bearer " +:+ token.

Definition spaceUrl (workspaceUrl spaceId : string) : string :=
  workspaceUrl +:+ "/api/2.0/genie/spaces/" +:+ spaceId.

(** [v[0]]. *)
Definition first (v : value) : value :=
  match v with
  | VArr items => default VUndefined (items !! 0%nat)
  | VStr (String c _) => VStr (String c "")
  | VObj props => default VUndefined (assoc "0" props)
  | _ => VUndefined
  end.

(** [v?.name]. *)
Definition getOptional (v : value) (name : string) : value :=
  match getProp v name with
  | Ok x => x
  | Throw _ => VUndefined
  end.

(** [v?.slice(0, 5)], evaluated for a log line: only whether it throws
    matters. *)
Definition sliceOptional (what : string) (v : value) : result unit :=
  match v with
  | VUndefined | VNull | VArr _ | VStr _ => Ok tt
  | VBool _ | VNum _ | VObj _ => Throw (notAFunction (what +:+ "?.slice"))
  end.

(** The request of [startConversation]. *)
Definition startRequest (workspaceUrl token spaceId : string) : call :=
  let requestBody := VObj [("content", VStr "F1 Racing History Chat");
                           ("title", VStr "F1 Racing History Chat")] in
  {| url := spaceUrl workspaceUrl spaceId +:+ "/start-conversation";
     verb := "POST";
     authorization := bearer token;
     payload := Some (JSON.stringify requestBody) |}.

(** [startConversation(workspaceUrl, token, spaceId, context)]. *)
Definition startConversation (genie : call -> outcome)
    (workspaceUrl token spaceId : string) : N value :=
  response <- fetch genie (startRequest workspaceUrl token spaceId) ;;
  if negb (ok response) then
    errorText <- liftR (text response) ;;
    throw (JsError ("Failed to start conversation: " +:+
                    decimal (status response) +:+ " " +:+ errorText))
  else
    data <- liftR (json response) ;;
    _ <- liftR (getProp data "conversation_id") ;;
    ret data.

(** The request of [sendMessage]. *)
Definition sendRequest (workspaceUrl token spaceId : string)
    (conversationId content : value) : call :=
  {| url := spaceUrl workspaceUrl spaceId +:+ "/conversations/" +:+
            toString conversationId +:+ "/messages";
     verb := "POST";
     authorization := bearer token;
     payload := Some (JSON.stringify (VObj [("content", content)])) |}.

(** [sendMessage(workspaceUrl, token, spaceId, conversationId, content,
    context)]. *)
Definition sendMessage (genie : call -> outcome)
    (workspaceUrl token spaceId : string) (conversationId content : value)
  : N value :=
  response <- fetch genie (sendRequest workspaceUrl token spaceId
                              conversationId content) ;;
  if negb (ok response) then
    errorText <- liftR (text response) ;;
    throw (JsError ("Failed to send message: " +:+
                    decimal (status response) +:+ " " +:+ errorText))
  else
    data <- liftR (json response) ;;
    _ <- liftR (getProp data "id") ;;
    _ <- liftR (getProp data "status") ;;
    ret data.

(** What [pollResult] evaluates to log a COMPLETED message. *)
Definition logCompleted (data : value) : result unit :=
  attachments <~ getProp data "attachments" ;;
  some <~ (if truthy attachments
           then len <~ getProp attachments "length" ;; gtZero len
           else Ok false) ;;
  if some : bool then
    let attachment := first attachments in
    query <~ getProp attachment "query" ;;
    queryResult <~ (if truthy query then getProp query "query_result"
                    else Ok query) ;;
    _ <~ (if truthy queryResult then
            sliceOptional "attachment.query.query_result.data_array"
              (getOptional queryResult "data_array")
          else Ok tt) ;;
    _ <~ getProp attachment "text" ;;
    Ok tt
  else Ok tt.

(** What it evaluates to log a FAILED one. *)
Definition logFailed (data : value) : result unit :=
  attachments <~ getProp data "attachments" ;;
  _ <~ (if truthy attachments
        then len <~ getProp attachments "length" ;; gtZero len
        else Ok false) ;;
  Ok tt.

(** The request of [pollResult]. *)
Definition pollRequest (workspaceUrl token spaceId : string)
    (conversationId messageId : value) : call :=
  {| url := spaceUrl workspaceUrl spaceId +:+ "/conversations/" +:+
            toString conversationId +:+ "/messages/" +:+ toString messageId;
     verb := "GET";
     authorization := bearer token;
     payload := None |}.

(** [pollResult(workspaceUrl, token, spaceId, conversationId, messageId,
    context)]. *)
Definition pollResult (genie : call -> outcome)
    (workspaceUrl token spaceId : string) (conversationId messageId : value)
  : N value :=
  response <- fetch genie (pollRequest workspaceUrl token spaceId
                              conversationId messageId) ;;
  if negb (ok response) then
    errorText <- liftR (text response) ;;
    throw (JsError ("Failed to poll result: " +:+
                    decimal (status response) +:+ " " +:+ errorText))
  else
    data <- liftR (json response) ;;
    state <- liftR (getProp data "status") ;;
    _ <- liftR (if isStr state "COMPLETED" then logCompleted data
                else if isStr state "EXECUTING" then Ok tt
                else if isStr state "FAILED" then logFailed data
                else Ok tt) ;;
    ret data.

(** The error the three functions raise when the service refuses. *)
Definition refusal (what : string) (response : reply) (errorText : string) : exn :=
  JsError ("Failed to " +:+ what +:+ ": " +:+
           decimal (status response) +:+ " " +:+ errorText).

(** [categorizeError(error)]. *)
Definition categorizeError (error : exn) : string :=
  let message := toLowerCase (messageOf error) in
  if includes message "401" || includes message "403"
     || includes message "unauthorized" then "auth"
  else if includes message "429" || includes message "rate limit" then "rate_limit"
  else if includes message "timeout" then "timeout"
  else if includes message "network" || includes message "fetch" then "network"
  else "default".

Definition corsHeaders : list (string * string) :=
  [("Content-Type", "application/json");
   ("Access-Control-Allow-Origin", "*");
   ("Access-Control-Allow-Methods", "POST, OPTIONS");
   ("Access-Control-Allow-Headers", "Content-Type")].

Definition missingSettings : string :=
  "Missing required environment variables. Please set DATABRICKS_WORKSPACE_URL, DATABRICKS_PAT_TOKEN, and GENIE_SPACE_ID".

(** A variable that is set and not empty. *)
Definition setting (v : option string) : option string :=
  match v with
  | Some s => if String.eqb s "" then None else Some s
  | None => None
  end.

(** [const { action, ... } = body]: the property, or the TypeError of
    destructuring [undefined] or [null]. *)
Definition destructure (body : value) (name : string) : result value :=
  match body with
  | VUndefined | VNull =>
      Throw (TypeError ("Cannot destructure property 'action' of 'body' as it is " +:+
                        describe body +:+ "."))
  | _ => getProp body name
  end.

(** The [try] block of the handler. *)
Definition route (env : settings) (genie : call -> outcome) (req : request)
  : N value :=
  match setting (DATABRICKS_WORKSPACE_URL env), setting (DATABRICKS_PAT_TOKEN env),
        setting (GENIE_SPACE_ID env) with
  | Some workspaceUrl, Some token, Some spaceId =>
      body <- match body req with
              | VStr s =>
                  match JSON.parse s with
                  | Ok parsed => ret parsed
                  | Throw _ => throw (JsError "Invalid JSON in request body")
                  end
              | given => ret given
              end ;;
      action <- liftR (destructure body "action") ;;
      conversationId <- liftR (destructure body "conversationId") ;;
      messageId <- liftR (destructure body "messageId") ;;
      content <- liftR (destructure body "content") ;;
      if isStr action "start-conversation" then
        startConversation genie workspaceUrl token spaceId
      else if isStr action "send-message" then
        sendMessage genie workspaceUrl token spaceId conversationId content
      else if isStr action "poll-result" then
        pollResult genie workspaceUrl token spaceId conversationId messageId
      else throw (JsError ("Unknown action: " +:+ toString action))
  | _, _, _ => throw (JsError missingSettings)
  end.

(** [context.res] as the [catch] block of the handler sets it. *)
Definition failureRes (error : exn) : res :=
  {| code := 500; headers := corsHeaders;
     content := JSON.stringify
                  (VObj [("success", VBool false);
                         ("error", VStr (messageOf error));
                         ("type", VStr (categorizeError error))]) |}.

(** [module.exports = async function (context, req)]: what [context.res] is
    at the end. [now] is [new Date().toISOString()]. *)
Definition handler (env : settings) (genie : call -> outcome) (now : string)
    (req : request) : N res :=
  if String.eqb (method req) "OPTIONS" then
    ret {| code := 200; headers := corsHeaders; content := "" |}
  else if String.eqb (method req) "GET" then
    ret {| code := 200; headers := corsHeaders;
           content := JSON.stringify
                        (VObj [("message", VStr "Genie API is running");
                               ("method", VStr "Use POST with action parameter");
                               ("timestamp", VStr now)]) |}
  else
    tryCatch
      (data <- route env genie req ;;
       ret {| code := 200; headers := corsHeaders;
              content := JSON.stringify
                           (VObj [("success", VBool true); ("data", data)]) |})
      (fun error => ret (failureRes error)).

End Proxy.

(** What a successful run of one of the three functions means: the service
    answered its one request with an OK status and the data returned. *)
Definition passedOn (genie : Proxy.call -> Proxy.outcome) (log : list Proxy.call)
    (out : result value * list Proxy.call) : Prop :=
  forall data, fst out = Ok data ->
    exists c rep,
      snd out = log ++ [c] /\ genie c = Proxy.Replied rep /\
      Proxy.ok rep = true /\ Proxy.json rep = Ok data.

(** ** The widget served by the function *)

(** The body of the request [callAPI] sends: [{ action, ...params }]. *)
Definition wire (action : string) (params : list (string * value)) : string :=
  JSON.stringify (JSON.objectOf (("action", VStr action) :: params)).

Definition proxyRequest (action : string) (params : list (string * value))
  : Proxy.request :=
  {| Proxy.method := "POST"; Proxy.body := VStr (wire action params) |}.

Fixpoint header (name : string) (hs : list (string * string)) : option string :=
  match hs with
  | [] => None
  | (k, v) :: rest => if String.eqb k name then Some v else header name rest
  end.

(** What the browser makes of the function's answer. *)
Definition responseOf (r : Proxy.res) : response :=
  {| ok := (200 <=? Proxy.code r) && (Proxy.code r <=? 299);
     status := Proxy.code r;
     contentType := header "Content-Type" (Proxy.headers r);
     body := JSON.parse (Proxy.content r) |}.

(** The replies a widget gets whose requests go to the function, configured
    by [cfg], in front of the service [genie]. *)
Definition served (cfg : Proxy.settings) (genie : Proxy.call -> Proxy.outcome)
    (now : string) (n : nat) (action : string) (params : list (string * value))
  : fetched :=
  match fst (Proxy.handler cfg genie now (proxyRequest action params) []) with
  | Ok r => Response (responseOf r)
  | Throw e => NetworkError e
  end.

(** ** The local test script: [test-genie-local.js]

    The script talks to the function as the widget does, so its runs are
    computations over the same network and clock; what it prints is left
    out. *)

Module LocalTest.

Definition delays : list Z := [500; 1000; 2000; 5000].
Definition maxAttempts : Z := 30.

(** [delays[Math.min(attempt, delays.length - 1)]]. *)
Definition delayOf (attempt : Z) : Z :=
  let index := Z.min attempt (Z.of_nat (length delays) - 1) in
  if index <? 0 then 0 else default 0 (delays !! Z.to_nat index).

(** One pass of the loop of [testPollResult]: [Some v] when it returns [v],
    [None] when it goes on to the next attempt. *)
Definition pollOnce (conversationId messageId : value) (attempt : Z)
  : M (option value) :=
  tryCatch
    (sleep (delayOf attempt) ;;
     response <- fetch "poll-result"
                   [("conversationId", conversationId);
                    ("messageId", messageId)] ;;
     result <- liftR (body response) ;;
     success <- liftR (getProp result "success") ;;
     if negb (truthy success) then ret (Some VNull)
     else
       data <- liftR (getProp result "data") ;;
       status <- liftR (getProp data "status") ;;
       if isStr status "EXECUTING" || isStr status "FILTERING_CONTEXT"
          || isStr status "QUERY_RESULT_EXPIRED" then ret None
       else if isStr status "COMPLETED" then ret (Some data)
       else if isStr status "FAILED" then ret (Some VNull)
       else ret None)
    (fun _ => ret (Some VNull)).

(** The [for] loop of [testPollResult] from [attempt] on; [budget] counts
    the attempts that are left. *)
Fixpoint pollLoop (budget : nat) (conversationId messageId : value)
    (attempt : Z) : M value :=
  if attempt <? maxAttempts then
    match budget with
    | O => throw (Unmodelled "attempts left")
    | S budget' =>
        step <- pollOnce conversationId messageId attempt ;;
        match step with
        | Some returned => ret returned
        | None => pollLoop budget' conversationId messageId (attempt + 1)
        end
    end
  else ret VNull.

(** [testPollResult(conversationId, messageId)]. *)
Definition testPollResult (conversationId messageId : value) : M value :=
  if negb (truthy conversationId) || negb (truthy messageId) then ret VNull
  else pollLoop (Z.to_nat maxAttempts) conversationId messageId 0.

End LocalTest.

(** A reply whose status and envelope agree: a failure status does not come
    with a truthy [success]. *)
Definition consistent (reply : fetched) : bool :=
  match reply with
  | NetworkError _ => true
  | Response r =>
      ok r ||
      match body r with
      | Ok envelope =>
          match getProp envelope "success" with
          | Ok success => negb (truthy success)
          | Throw _ => true
          end
      | Throw _ => true
      end
  end.

(** The test has polled like the widget: both leave the same waits and
    requests behind; what the widget returns the test returns, and where the
    widget throws the test returns [null]. *)
Definition alike (widget test : result value * world) : Prop :=
  snd test = snd widget /\
  match fst widget with
  | Ok data => fst test = Ok data
  | Throw e =>
      isUnmodelled e = true \/
      match fst test with
      | Ok returned => returned = VNull
      | Throw e' => isUnmodelled e' = true
      end
  end.

(** ** Concrete runs *)

Module Demo.

(** The relay's envelope around a payload. *)
Definition okReply (data : value) : fetched :=
  Response {| ok := true; status := 200;
              contentType := Some "application/json";
              body := Ok (VObj [("success", VBool true); ("data", data)]) |}.

(** A relay that starts conversation c1, accepts message m1 and answers
    every poll with [completion]. *)
Definition relay (completion : value) (n : nat) (action : string)
                 (params : list (string * value)) : fetched :=
  if String.eqb action "start-conversation" then
    okReply (VObj [("conversation_id", VStr "c1")])
  else if String.eqb action "send-message" then
    okReply (VObj [("id", VStr "m1"); ("status", VStr "EXECUTING")])
  else okReply completion.

Definition executing : value := VObj [("status", VStr "EXECUTING")].

(** A COMPLETED message with one attachment. *)
Definition completed (attachment : value) : value :=
  VObj [("status", VStr "COMPLETED"); ("attachments", VArr [attachment])].

(** A freshly loaded page with [input] typed into the box. *)
Definition start (server : nat -> string -> list (string * value) -> fetched)
                 (input : string) : world :=
  {| this := GenieChat.fresh;
     doc := {| inputValue := input; sendDisabled := false;
               processing := false; welcome := true; children := [] |};
     localStorage := ∅; trace := []; fetches := 0; ticks := 0;
     env := {| respond := server;
               clock := fun n => 1700000000000 + Z.of_nat n;
               localeTime := fun _ => "10:00" |} |}.

(** The service never finishes. *)
Definition stalled : world :=
  start (relay executing) "Who won the most championships?".

Definition column (name type : string) : value :=
  VObj [("name", VStr name); ("type", VStr type)].

Definition driversTable : value :=
  VObj [("data_array", VArr [VArr [VStr "<script>alert(1)</script>"; VNum 103];
                             VArr [VNull; VNum 91]]);
        ("schema", VObj [("columns", VArr [column "driver" "STRING";
                                           column "wins" "LONG"])]);
        ("row_count", VNum 2); ("truncated", VBool false)].

Definition narrativeOnly (narrative : string) : value :=
  completed (VObj [("text", VObj [("content", VStr narrative)])]).

Definition injected : string := "<img src=x onerror=alert(1)>".

(** A tabular block without its column schema. *)
Definition missingSchema : value :=
  completed
    (VObj [("query",
            VObj [("query_result",
                   VObj [("data_array", VArr [VArr [VStr "Lewis Hamilton"]]);
                         ("row_count", VNum 1)])])]).

(** A row with more cells than the schema has columns. *)
Definition wideRow : value :=
  completed
    (VObj [("query",
            VObj [("query_result",
                   VObj [("data_array", VArr [VArr [VStr "Lewis Hamilton"; VNum 103]]);
                         ("schema", VObj [("columns", VArr [column "driver" "STRING"])]);
                         ("row_count", VNum 1)])])]).

(** A history of [n] questions, oldest first. *)
Definition turns (n : nat) : list value :=
  map (fun i => turn "user" (VStr ("Question " +:+ decimal (Z.of_nat i)))
                  (1700000000000 + Z.of_nat i))
      (seq 1 n).

(** A session in conversation c1 with 25 turns behind it. *)
Definition longSession : world :=
  withThis (fun self => setMessages (VArr (turns 25))
                          (setConversationId (VStr "c1") self))
           stalled.

(** A relay whose first [after] replies say EXECUTING and whose later ones
    carry [final]. *)
Definition finishing (after : nat) (final : value) (n : nat) (action : string)
                     (params : list (string * value)) : fetched :=
  if (n <? after)%nat then okReply executing else okReply final.


(** An error page where the envelope should be. *)
Definition errorPage (n : nat) (action : string) (params : list (string * value))
  : fetched :=
  Response {| ok := true; status := 200; contentType := Some "text/html";
              body := Throw (JsError "Unexpected token < in JSON at position 0") |}.

(** The turns of [turns], by role, text and time. *)
Definition questions (n : nat) : list (string * string * Z) :=
  map (fun i => ("user", "Question " +:+ decimal (Z.of_nat i),
                 1700000000000 + Z.of_nat i))
      (seq 1 n).

(** The settings of a deployed function. *)
Definition configured : Proxy.settings :=
  {| Proxy.DATABRICKS_WORKSPACE_URL := Some "https://adb-1.azuredatabricks.net";
     Proxy.DATABRICKS_PAT_TOKEN := Some "dapi-secret";
     Proxy.GENIE_SPACE_ID := Some "space1" |}.

Definition replied (data : value) : Proxy.outcome :=
  Proxy.Replied {| Proxy.ok := true; Proxy.status := 200;
                   Proxy.text := Ok (JSON.stringify data); Proxy.json := Ok data |}.

(** A service that knows conversation c1 and message m1, whose answer is
    ready at the first poll. *)
Definition genie (c : Proxy.call) : Proxy.outcome :=
  if String.eqb (Proxy.verb c) "GET" then
    replied (narrativeOnly "Hamilton, with 103 wins.")
  else if String.eqb (Proxy.url c)
            "https://adb-1.azuredatabricks.net/api/2.0/genie/spaces/space1/start-conversation"
  then replied (VObj [("conversation_id", VStr "c1")])
  else replied (VObj [("id", VStr "m1"); ("status", VStr "EXECUTING")]).

(** The answer of a service that does not accept the token. *)
Definition denied : Proxy.reply :=
  {| Proxy.ok := false; Proxy.status := 401;
     Proxy.text := Ok "Invalid access token";
     Proxy.json := Throw (JsError "invalid json response body") |}.

(** A service that turns every request away. *)
Definition unauthorized (c : Proxy.call) : Proxy.outcome := Proxy.Replied denied.

(** What the clock of the function reads. *)
Definition noon : string := "2024-01-01T12:00:00.000Z".

(** A session in conversation c1 whose answer is ready at the third poll. *)
Definition talking : world :=
  withThis (setConversationId (VStr "c1"))
    (start (finishing 2 (narrativeOnly "Hamilton, with 103 wins.")) "").

End Demo.

(** ** Proof support *)

Ltac run :=
  cbv beta delta [bind ret throw liftR tryCatch tryFinally getThis getEnv getDoc
                  modifyThis modifyDoc emit sleep now appendChild setItem getItem];
  cbn beta iota.

Lemma snd_bind {A B} (c : M A) (k : A -> M B) (w : world) :
  snd (bind c k w) =
  match fst (c w) with
  | Ok a => snd (k a (snd (c w)))
  | Throw _ => snd (c w)
  end.
Proof. unfold bind. by destruct (c w) as [[a | e] w']. Qed.

Lemma str_app_assoc (a b c : string) : (a +:+ b) +:+ c = a +:+ (b +:+ c).
Proof. induction a as [| x a IH]; cbn; [done | by rewrite IH]. Qed.

Lemma str_app_nil_r (a : string) : a +:+ "" = a.
Proof. induction a as [| x a IH]; cbn; [done | by rewrite IH]. Qed.

Lemma occursIn_refl (piece : string) : occursIn piece piece.
Proof. exists "", "". cbn. by rewrite str_app_nil_r. Qed.

Lemma occursIn_app_l (piece a b : string) :
  occursIn piece a -> occursIn piece (a +:+ b).
Proof.
  intros (pre & post & ->). exists pre, (post +:+ b).
  by rewrite !str_app_assoc.
Qed.

Lemma occursIn_app_r (piece a b : string) :
  occursIn piece b -> occursIn piece (a +:+ b).
Proof.
  intros (pre & post & ->). exists (a +:+ pre), post.
  by rewrite !str_app_assoc.
Qed.

Lemma occursIn_cons (piece : string) (c : ascii) (s : string) :
  occursIn piece s -> occursIn piece (String c s).
Proof. intros (pre & post & ->). by exists (String c pre), post. Qed.

Lemma occursIn_trans (a b c : string) :
  occursIn a b -> occursIn b c -> occursIn a c.
Proof.
  intros (pre & post & ->) (pre' & post' & ->).
  exists (pre' +:+ pre), (post +:+ post'). by rewrite !str_app_assoc.
Qed.

(** Reduces the projections of explicit worlds. *)
Ltac fields :=
  cbn [this doc localStorage trace fetches ticks env
       conversationId messages isOpen isLoading lastQuery
       inputValue sendDisabled processing welcome children
       withThis withDoc setConversationId setMessages setIsLoading setLastQuery
       setInputValue setSendDisabled setProcessing setWelcome setChildren
       fst snd].

(** Finds a piece inside a concatenation, given where it is in a part. *)
Ltac find_piece :=
  solve [ eassumption
        | apply occursIn_cons; find_piece
        | apply occursIn_app_l; find_piece
        | apply occursIn_app_r; find_piece ].

Lemma bind_ok {A B} (c : M A) (k : A -> M B) (w w' : world) (a : A) :
  c w = (Ok a, w') -> bind c k w = k a w'.
Proof. unfold bind. by intros ->. Qed.

Lemma bind_liftR_ok {A B} (a : A) (k : A -> M B) : bind (liftR (Ok a)) k = k a.
Proof. reflexivity. Qed.

Lemma bind_ret {A B} (a : A) (k : A -> M B) : bind (ret a) k = k a.
Proof. reflexivity. Qed.

(** * Submitting: [handleSend] *)

Section HandleSend.

Import GenieChat.

Lemma handleSend_too_short (w : world) :
  strlen (trim (inputValue (doc w))) < 5 ->
  handleSend w = (Ok tt, alerted "Please enter at least 5 characters" w).
Proof.
  intros Hlen. unfold handleSend. run.
  destruct (Z.ltb_spec (strlen (trim (inputValue (doc w)))) 5); [reflexivity | lia].
Qed.

Lemma handleSend_too_long (w : world) :
  1000 < strlen (trim (inputValue (doc w))) ->
  handleSend w = (Ok tt, alerted "Message is too long (max 1000 characters)" w).
Proof.
  intros Hlen. unfold handleSend. run.
  destruct (Z.ltb_spec (strlen (trim (inputValue (doc w)))) 5); [lia |].
  destruct (Z.ltb_spec 1000 (strlen (trim (inputValue (doc w))))); [reflexivity | lia].
Qed.

Lemma handleSend_busy (w : world) :
  isLoading (this w) = true ->
  5 <= strlen (trim (inputValue (doc w))) <= 1000 ->
  handleSend w = (Ok tt, w).
Proof.
  intros Hbusy Hlen. unfold handleSend. run.
  destruct (Z.ltb_spec (strlen (trim (inputValue (doc w)))) 5); [lia |].
  destruct (Z.ltb_spec 1000 (strlen (trim (inputValue (doc w))))); [lia |].
  rewrite Hbusy. reflexivity.
Qed.

(** A valid text with no query in flight is handed to [sendMessage], with
    the box cleared, the button disabled and the text remembered for retry. *)
Lemma handleSend_accepted (w : world) :
  isLoading (this w) = false ->
  5 <= strlen (trim (inputValue (doc w))) <= 1000 ->
  handleSend w
  = sendMessage (trim (inputValue (doc w)))
      (withThis (setLastQuery (VStr (trim (inputValue (doc w)))))
         (withDoc (setSendDisabled true) (withDoc (setInputValue "") w))).
Proof.
  intros Hidle Hlen. unfold handleSend. run.
  destruct (Z.ltb_spec (strlen (trim (inputValue (doc w)))) 5); [lia |].
  destruct (Z.ltb_spec 1000 (strlen (trim (inputValue (doc w))))); [lia |].
  rewrite Hidle. reflexivity.
Qed.

(** C6. For every input whose trimmed length is below 5 or above 1000,
    [handleSend] returns at once: it raises one alert naming the invalid
    input, issues no network request, and leaves the instance, the page and
    the storage as they were. *)
Theorem invalid_input_no_network (w : world) :
  strlen (trim (inputValue (doc w))) < 5 \/
  1000 < strlen (trim (inputValue (doc w))) ->
  exists msg,
    (msg = "Please enter at least 5 characters" \/
     msg = "Message is too long (max 1000 characters)") /\
    handleSend w = (Ok tt, alerted msg w) /\
    requests (emitted w (alerted msg w)) = [] /\
    fetches (alerted msg w) = fetches w /\
    this (alerted msg w) = this w /\
    localStorage (alerted msg w) = localStorage w.
Proof.
  intros [Hshort | Hlong].
  - exists "Please enter at least 5 characters".
    split; [by left |]. split; [by apply handleSend_too_short |].
    unfold emitted; cbn. rewrite drop_app_length. done.
  - exists "Message is too long (max 1000 characters)".
    split; [by right |]. split; [by apply handleSend_too_long |].
    unfold emitted; cbn. rewrite drop_app_length. done.
Qed.

(** A two-letter question is turned away with the first alert. *)
Lemma invalid_input_no_network_witness :
  let w := Demo.start (Demo.relay Demo.executing) "  hi  " in
  (strlen (trim (inputValue (doc w))) < 5 \/
   1000 < strlen (trim (inputValue (doc w)))) /\
  exists msg,
    (msg = "Please enter at least 5 characters" \/
     msg = "Message is too long (max 1000 characters)") /\
    handleSend w = (Ok tt, alerted msg w) /\
    requests (emitted w (alerted msg w)) = [] /\
    fetches (alerted msg w) = fetches w /\
    this (alerted msg w) = this w /\
    localStorage (alerted msg w) = localStorage w.
Proof.
  intros w.
  assert (H : strlen (trim (inputValue (doc w))) < 5 \/
              1000 < strlen (trim (inputValue (doc w))))
    by (left; reflexivity).
  split; [exact H | exact (invalid_input_no_network w H)].
Defined.



End HandleSend.

(** * Polling: [callAPI] and [pollForResult] *)

Section Polling.

Import GenieChat.

Lemma advanced_advanced (es es' : list event) (n n' : nat) (w : world) :
  advanced es n (advanced es' n' w) = advanced (es' ++ es) (n + n') w.
Proof.
  unfold advanced; cbn. f_equal.
  - by rewrite app_assoc.
  - lia.
Qed.

Lemma advanced_nil (w : world) : advanced [] 0 w = w.
Proof. destruct w. unfold advanced; cbn. by rewrite app_nil_r. Qed.

(** A call changes nothing but the trace and the count of requests. *)
Lemma callAPI_world (action : string) (params : list (string * value)) (w : world) :
  snd (callAPI action params w) = advanced [Fetch action params] 1 w.
Proof.
  unfold callAPI, fetch. run.
  repeat (case_match; simplify_eq; cbn; try reflexivity).
Qed.

Lemma failureMessage_world (result : value) (w : world) :
  snd (failureMessage result w) = w.
Proof.
  unfold failureMessage. run.
  repeat (case_match; simplify_eq; cbn; try reflexivity).
Qed.

Lemma forEach_pure {A} (f : A -> M unit) (l : list A) (w : world) :
  (forall x w, snd (f x w) = w) -> snd (forEach f l w) = w.
Proof.
  intros Hf. induction l as [| x l IH]; cbn; [done |].
  unfold bind. specialize (Hf x w).
  destruct (f x w) as [[[] | e] w1]; cbn in *; subst; auto.
Qed.

Lemma scanAttachments_world (result : value) (w : world) :
  snd (scanAttachments result w) = w.
Proof.
  unfold scanAttachments. run.
  repeat (case_match; simplify_eq; cbn; try reflexivity).
  all: match goal with
       | |- snd (forEach _ _ _) = _ => apply forEach_pure
       end.
  all: intros x w'; run; repeat (case_match; simplify_eq; cbn; try reflexivity).
Qed.

Lemma pollEvents_this (w w' : world) (mid : value) (attempt : Z) (n : nat) :
  this w' = this w -> pollEvents w' mid attempt n = pollEvents w mid attempt n.
Proof.
  intros Hthis. revert attempt.
  induction n as [| n IH]; intros attempt; cbn; [done |].
  unfold pollParams. by rewrite Hthis, IH.
Qed.

(** Every run of the loop is a number of polls, each a wait followed by one
    status request, and touches nothing else. *)
Lemma pollFrom_world (budget : nat) (mid : value) (attempt : Z) (w : world) :
  exists n, (n <= budget)%nat /\
    (attempt < maxAttempts -> budget <> 0%nat -> (1 <= n)%nat) /\
    snd (pollFrom budget mid attempt w) = advanced (pollEvents w mid attempt n) n w.
Proof.
  revert attempt w.
  induction budget as [| budget IH]; intros attempt w; cbn [pollFrom].
  - exists 0%nat. split; [lia |]. split; [done |].
    destruct (maxAttempts <=? attempt); cbn; by rewrite advanced_nil.
  - destruct (Z.leb_spec maxAttempts attempt).
    { exists 0%nat. split; [lia |]. split; [lia |]. cbn. by rewrite advanced_nil. }
    set (w1 := advanced [Timeout (delayOf attempt)] 0 w).
    set (w2 := advanced [Fetch "poll-result" (pollParams w mid)] 1 w1).
    assert (Hone : w2 = advanced (pollEvents w mid attempt 1) 1 w).
    { subst w2 w1. by rewrite advanced_advanced. }
    assert (Hmore : exists n, (n <= S budget)%nat /\
              (attempt < maxAttempts -> S budget <> 0%nat -> (1 <= n)%nat) /\
              snd (pollFrom budget mid (attempt + 1) w2)
              = advanced (pollEvents w mid attempt n) n w).
    { destruct (IH (attempt + 1) w2) as (n & Hn & _ & Hw).
      exists (S n). split; [lia |]. split; [lia |]. rewrite Hw, Hone.
      rewrite advanced_advanced. cbn.
      rewrite (pollEvents_this w); [| done].
      f_equal. lia. }
    assert (Hstop : exists n, (n <= S budget)%nat /\
              (attempt < maxAttempts -> S budget <> 0%nat -> (1 <= n)%nat) /\
              w2 = advanced (pollEvents w mid attempt n) n w).
    { exists 1%nat. split; [lia |]. split; [lia | exact Hone]. }
    rewrite snd_bind. change (sleep (delayOf attempt) w) with (Ok tt, w1).
    cbn [fst snd]. rewrite snd_bind. cbn [getThis fst snd].
    rewrite snd_bind.
    change [("conversationId", conversationId (this w1)); ("messageId", mid)]
      with (pollParams w mid).
    rewrite callAPI_world. fold w2.
    destruct (fst (callAPI _ _ w1)) as [result | e]; [| exact Hstop].
    rewrite snd_bind. cbn [liftR fst snd].
    destruct (getProp result "status") as [status | e]; [| exact Hstop].
    destruct (isStr status "EXECUTING" || isStr status "FILTERING_CONTEXT"
              || isStr status "QUERY_RESULT_EXPIRED"); [exact Hmore |].
    destruct (isStr status "COMPLETED"); [exact Hstop |].
    destruct (isStr status "FAILED"); [| exact Hmore].
    rewrite snd_bind, failureMessage_world.
    destruct (fst (failureMessage result w2)); [| exact Hstop].
    rewrite snd_bind, scanAttachments_world.
    destruct (fst (scanAttachments result w2)); exact Hstop.
Qed.

(** The loop never runs out of attempts to count: any budget that covers
    the attempts left below [maxAttempts] gives the same run. *)
Lemma pollFrom_enough (budget : nat) (mid : value) (attempt : Z) (w : world) :
  (Z.to_nat (maxAttempts - attempt) <= budget)%nat ->
  pollFrom budget mid attempt w = pollForResult mid attempt w.
Proof.
  unfold pollForResult. revert attempt w.
  induction budget as [| budget IH]; intros attempt w Hbudget.
  - by replace (Z.to_nat (maxAttempts - attempt)) with 0%nat by lia.
  - destruct (Z.leb_spec maxAttempts attempt) as [Hdone | Hleft].
    + replace (Z.to_nat (maxAttempts - attempt)) with 0%nat by lia.
      cbn [pollFrom]. by destruct (Z.leb_spec maxAttempts attempt); [| lia].
    + replace (Z.to_nat (maxAttempts - attempt))
        with (S (Z.to_nat (maxAttempts - (attempt + 1)))) by lia.
      cbn [pollFrom]. destruct (Z.leb_spec maxAttempts attempt); [lia |].
      unfold bind.
      destruct (sleep (delayOf attempt) w) as [[[] | e] w1]; [| done].
      destruct (getThis w1) as [[self | e] w2]; [| done].
      destruct (callAPI _ _ w2) as [[result | e] w3]; [| done].
      destruct (liftR (getProp result "status") w3) as [[status | e] w4]; [| done].
      destruct (isStr status "EXECUTING" || isStr status "FILTERING_CONTEXT"
                || isStr status "QUERY_RESULT_EXPIRED"); [apply IH; lia |].
      destruct (isStr status "COMPLETED"); [done |].
      destruct (isStr status "FAILED"); [done | apply IH; lia].
Qed.

Lemma emitted_advanced (es : list event) (n : nat) (w : world) :
  emitted w (advanced es n w) = es.
Proof. unfold emitted; cbn. apply drop_app_length. Qed.

Lemma waits_pollEvents (w : world) (mid : value) (attempt : Z) (n : nat) :
  waits (pollEvents w mid attempt n)
  = map (fun i => delayOf (attempt + Z.of_nat i)) (seq 0 n).
Proof.
  revert attempt. induction n as [| n IH]; intros attempt; [done |].
  cbn [pollEvents waits seq map]. rewrite IH, <- seq_shift, map_map.
  f_equal; [f_equal; lia |]. apply map_ext. intros i. f_equal. lia.
Qed.

Lemma requests_pollEvents (w : world) (mid : value) (attempt : Z) (n : nat) :
  requests (pollEvents w mid attempt n) = replicate n "poll-result".
Proof.
  revert attempt. induction n as [| n IH]; intros attempt; [done |].
  cbn. by rewrite IH.
Qed.

Lemma scheduleSum_first (attempt : Z) (k : nat) :
  scheduleSum attempt (S k) = delayOf attempt + scheduleSum (attempt + 1) k.
Proof.
  unfold scheduleSum. cbn [seq map sumZ fold_right].
  rewrite <- seq_shift, map_map. f_equal; [f_equal; lia |].
  f_equal. apply map_ext. intros i. f_equal. lia.
Qed.

Lemma scheduleSum_last (attempt : Z) (k : nat) :
  scheduleSum attempt (S k) = scheduleSum attempt k + delayOf (attempt + Z.of_nat k).
Proof.
  unfold scheduleSum. rewrite seq_S, map_app. cbn [map Nat.add].
  generalize (map (fun i => delayOf (attempt + Z.of_nat i)) (seq 0 k)) as l.
  induction l as [| x l IH]; cbn; [lia |]. unfold sumZ in IH. rewrite IH. lia.
Qed.

Lemma waitedBeforeRequest_pollEvents (w : world) (mid : value) (n k : nat) (attempt : Z) :
  (k < n)%nat ->
  waitedBeforeRequest k (pollEvents w mid attempt n) = Some (scheduleSum attempt (S k)).
Proof.
  revert k attempt. induction n as [| n IH]; intros k attempt Hk; [lia |].
  cbn [pollEvents waitedBeforeRequest]. destruct k as [| k].
  - cbn. unfold scheduleSum; cbn. change (Z.of_nat 0) with 0. by rewrite !Z.add_0_r.
  - rewrite (scheduleSum_first attempt (S k)), IH by lia. reflexivity.
Qed.

Lemma waitedBeforeWait_pollEvents (w : world) (mid : value) (n k : nat) (attempt : Z) :
  (k < n)%nat ->
  waitedBeforeWait k (pollEvents w mid attempt n) = Some (scheduleSum attempt k).
Proof.
  revert k attempt. induction n as [| n IH]; intros k attempt Hk; [lia |].
  cbn [pollEvents waitedBeforeWait]. destruct k as [| k]; [done |].
  rewrite (scheduleSum_first attempt k), IH by lia. reflexivity.
Qed.

Lemma delayOf_late (attempt : Z) : 3 <= attempt -> delayOf attempt = 5000.
Proof.
  intros H. unfold delayOf. cbn [length delays].
  replace (Z.min attempt (Z.of_nat 4 - 1)) with 3 by lia. reflexivity.
Qed.

(** From the fourth attempt on the delays add up linearly. *)
Lemma scheduleSum_closed (k : nat) :
  (3 <= k)%nat -> scheduleSum 0 k = 3500 + 5000 * (Z.of_nat k - 3).
Proof.
  induction k as [| k IH]; [lia |]. intros Hk.
  destruct (decide (k = 2%nat)) as [-> | Hne]; [reflexivity |].
  rewrite scheduleSum_last, IH by lia.
  rewrite delayOf_late by lia. lia.
Qed.

Lemma callAPI_still_working (action : string) (params : list (string * value))
      (w : world) :
  stillWorking (respond (env w) (fetches w) action params) = true ->
  exists data status,
    callAPI action params w = (Ok data, advanced [Fetch action params] 1 w) /\
    getProp data "status" = Ok status /\
    isStr status "COMPLETED" = false /\ isStr status "FAILED" = false.
Proof.
  unfold stillWorking, callAPI, fetch. run.
  destruct (respond (env w) (fetches w) action params) as [e | r]; [done |].
  destruct r as [okr st ct [result | e]]; cbn;
    destruct okr; cbn; try done.
  destruct (getProp result "success") as [success | e]; cbn; [| done].
  destruct (getProp result "data") as [data | e]; cbn; [| done].
  destruct (truthy success); cbn; [| done].
  destruct (getProp data "status") as [status | e] eqn:Hstatus; [| done].
  intros [Hc Hf]%andb_prop. exists data, status.
  split; [done |]. split; [done |]. split; by apply negb_true_iff.
Qed.

(** When every reply says the service is still working, the loop sends
    exactly the attempts that are left and then gives up. *)
Lemma pollFrom_exhausts (budget : nat) (mid : value) (attempt : Z) (w : world) :
  (forall n params, stillWorking (respond (env w) n "poll-result" params) = true) ->
  attempt + Z.of_nat budget = maxAttempts ->
  pollFrom budget mid attempt w
  = (Throw (JsError timeoutMessage), advanced (pollEvents w mid attempt budget) budget w).
Proof.
  revert attempt w.
  induction budget as [| budget IH]; intros attempt w Hstill Hsum; cbn [pollFrom].
  - destruct (Z.leb_spec maxAttempts attempt); [| lia].
    cbn. by rewrite advanced_nil.
  - destruct (Z.leb_spec maxAttempts attempt); [lia |].
    set (w1 := advanced [Timeout (delayOf attempt)] 0 w).
    destruct (callAPI_still_working "poll-result" (pollParams w mid) w1)
      as (data & status & Hcall & Hstatus & Hc & Hf).
    { apply Hstill. }
    unfold bind at 1. change (sleep (delayOf attempt) w) with (Ok tt, w1).
    unfold bind at 1. cbn [getThis].
    change [("conversationId", conversationId (this w1)); ("messageId", mid)]
      with (pollParams w mid).
    unfold bind at 1. rewrite Hcall.
    unfold bind at 1. cbn [liftR]. rewrite Hstatus, Hc, Hf.
    assert (Hnext : pollFrom budget mid (attempt + 1)
                      (advanced [Fetch "poll-result" (pollParams w mid)] 1 w1)
                    = (Throw (JsError timeoutMessage),
                       advanced (pollEvents w mid attempt (S budget)) (S budget) w)).
    { rewrite IH; [| apply Hstill | lia]. f_equal.
      subst w1. rewrite !advanced_advanced. cbn.
      rewrite (pollEvents_this w); [| done]. f_equal. lia. }
    destruct (_ || _); exact Hnext.
Qed.

Lemma pollForResult_exhausts (mid : value) (w : world) :
  (forall n params, stillWorking (respond (env w) n "poll-result" params) = true) ->
  pollForResult mid 0 w
  = (Throw (JsError timeoutMessage), advanced (pollEvents w mid 0 30) 30 w).
Proof. intros Hstill. by apply (pollFrom_exhausts 30). Qed.

Lemma delayOf_schedule (k : nat) :
  delayOf (Z.of_nat k)
  = match k with
    | 0%nat => 500
    | 1%nat => 1000
    | 2%nat => 2000
    | _ => 5000
    end.
Proof.
  destruct k as [| [| [| k]]]; try reflexivity.
  apply delayOf_late. lia.
Qed.

(** C1, as the code has it. In every run of [pollForResult] from attempt 0
    there are between 1 and 30 attempts, each one wait followed by one
    status request; attempts 0, 1 and 2 wait 500, 1000 and 2000 ms and every
    later one 5000 ms; before the request of attempt k >= 3 is sent,
    8500 + 5000*(k-3) ms have been waited, of which 3500 + 5000*(k-3) ms
    before the wait of attempt k itself began. *)
Theorem polling_schedule (w : world) (messageId : value) :
  let evs := emitted w (snd (pollForResult messageId 0 w)) in
  exists n : nat,
    (1 <= n <= 30)%nat /\
    length (waits evs) = n /\
    requests evs = replicate n "poll-result" /\
    (forall k : nat, (k < n)%nat ->
       waits evs !! k = Some (match k with
                              | 0%nat => 500
                              | 1%nat => 1000
                              | 2%nat => 2000
                              | _ => 5000
                              end)) /\
    (forall k : nat, (3 <= k < n)%nat ->
       waitedBeforeRequest k evs = Some (8500 + 5000 * (Z.of_nat k - 3)) /\
       waitedBeforeWait k evs = Some (3500 + 5000 * (Z.of_nat k - 3))).
Proof.
  intros evs. subst evs. unfold pollForResult.
  destruct (pollFrom_world (Z.to_nat (maxAttempts - 0)) messageId 0 w)
    as (n & Hn & Hpos & Hw).
  rewrite Hw, emitted_advanced. exists n.
  change (Z.to_nat (maxAttempts - 0)) with 30%nat in *.
  split; [split; [apply Hpos; [reflexivity | lia] | lia] |].
  rewrite waits_pollEvents, requests_pollEvents.
  split; [by rewrite length_map, length_seq |].
  split; [done |]. split.
  - intros k Hk.
    change (map ?f ?l) with (f <$> l).
    rewrite list_lookup_fmap, lookup_seq_lt by lia. cbn.
    by rewrite <- delayOf_schedule.
  - intros k Hk.
    rewrite waitedBeforeRequest_pollEvents, waitedBeforeWait_pollEvents by lia.
    rewrite scheduleSum_last, !scheduleSum_closed by lia.
    rewrite delayOf_late by lia. split; f_equal; lia.
Qed.

(** C1, as stated, fails on the run in which the service never finishes:
    at k = 3 the delay waited is 8500 ms before the request and 3500 ms
    before the attempt, not 1500 ms. *)
Lemma cumulative_delay_counterexample :
  let evs := emitted Demo.stalled (snd (pollForResult (VStr "m1") 0 Demo.stalled)) in
  ~ (forall (k : nat) (t : Z), (3 <= k)%nat ->
       waitedBeforeRequest k evs = Some t -> t = 1500 + 5000 * (Z.of_nat k - 3)) /\
  ~ (forall (k : nat) (t : Z), (3 <= k)%nat ->
       waitedBeforeWait k evs = Some t -> t = 1500 + 5000 * (Z.of_nat k - 3)).
Proof.
  split; intros H.
  - specialize (H 3%nat 8500 (le_n 3)). vm_compute in H.
    specialize (H eq_refl). discriminate H.
  - specialize (H 3%nat 3500 (le_n 3)). vm_compute in H.
    specialize (H eq_refl). discriminate H.
Qed.

(** C2, at the run in which no poll ever reports a terminal status: the
    submission sends 30 status requests, ends with the time-out notice and
    [isLoading] cleared, but only after waiting 138500 ms, more than twice
    the 60 seconds the comment of [pollForResult] announces. *)
Theorem timeout_after_138_seconds :
  let w' := snd (handleSend Demo.stalled) in
  let evs := emitted Demo.stalled w' in
  fst (handleSend Demo.stalled) = Ok tt /\
  requests evs = ["start-conversation"; "send-message"] ++ replicate 30 "poll-result" /\
  last (children (doc w'))
  = Some (ErrorDiv
            (nl +:+ "            <p><strong>Error:</strong> " +:+
             "Query took too long to complete. Try a simpler question." +:+
             "</p>" +:+ nl +:+ "            <button " +:+
             DOM.attr "class" "genie-retry-btn" +:+ ">Retry</button>" +:+
             nl +:+ "        ")
            true) /\
  isLoading (this w') = false /\
  sumZ (waits evs) = 138500 /\
  60000 < sumZ (waits evs).
Proof. vm_compute. repeat split; congruence. Qed.

End Polling.

(** * Text *)

Section Text.

Lemma str_length_app (a b : string) :
  String.length (a +:+ b) = (String.length a + String.length b)%nat.
Proof. induction a as [| x a IH]; cbn; [done | by rewrite IH]. Qed.

(** Searching for one character distributes over concatenation. *)
Lemma includes_char_app (a b : string) (c : ascii) :
  includes (a +:+ b) (String c "") = includes a (String c "") || includes b (String c "").
Proof.
  induction a as [| x a IH].
  - cbn [String.append includes String.prefix]. by destruct b.
  - cbn [String.append includes String.prefix].
    destruct (ascii_dec c x); [by destruct a, b |]. exact IH.
Qed.

Lemma includes_char_cons (x c : ascii) (s : string) :
  includes (String x s) (String c "")
  = (if ascii_dec c x then true else false) || includes s (String c "").
Proof.
  cbn [includes String.prefix]. destruct (ascii_dec c x); [by destruct s | done].
Qed.

(** Escaped text holds neither of the characters that delimit a tag. *)
Lemma serializeText_no_lt (s : string) :
  includes (DOM.serializeText s) "<" = false.
Proof.
  induction s as [| c s IH]; [done |].
  cbn [DOM.serializeText]. rewrite includes_char_app, IH, orb_false_r.
  unfold DOM.escapeChar.
  destruct (codeOf c =? 38); [reflexivity |].
  destruct (codeOf c =? 60) eqn:Hc; [reflexivity |].
  destruct (codeOf c =? 62); [reflexivity |].
  destruct (codeOf c =? 160); [reflexivity |].
  rewrite includes_char_cons.
  destruct (ascii_dec "<" c) as [<- |]; [discriminate Hc | reflexivity].
Qed.

Lemma serializeText_no_gt (s : string) :
  includes (DOM.serializeText s) ">" = false.
Proof.
  induction s as [| c s IH]; [done |].
  cbn [DOM.serializeText]. rewrite includes_char_app, IH, orb_false_r.
  unfold DOM.escapeChar.
  destruct (codeOf c =? 38); [reflexivity |].
  destruct (codeOf c =? 60); [reflexivity |].
  destruct (codeOf c =? 62) eqn:Hc; [reflexivity |].
  destruct (codeOf c =? 160); [reflexivity |].
  rewrite includes_char_cons.
  destruct (ascii_dec ">" c) as [<- |]; [discriminate Hc | reflexivity].
Qed.

End Text.

(** * Rendering a result table: [renderDataTable] *)

Section Rendering.

Import GenieChat.

(** What a cell shows: the marker for [null], the escaped text otherwise. *)
Lemma renderCell_shape (columns : list value) (cell : value) (j : nat) (piece : string) :
  renderCell columns cell j = Ok piece ->
  exists className,
    piece = "<td " +:+ DOM.attr "class" className +:+ ">" +:+
            DOM.serializeText (if isNull cell then "NULL" else toString cell) +:+
            "</td>".
Proof.
  unfold renderCell, bindR.
  destruct (getProp _ "type") as [colType | e]; [| done].
  intros [= <-]. eexists. unfold escapeHtml, DOM.textOf. reflexivity.
Qed.

(** Every element of a rendered list has its piece in the output. *)
Lemma renderEach_lookup {A} (f : A -> nat -> result string) (l : list A)
      (i j : nat) (x : A) (out : string) :
  renderEach f i l = Ok out ->
  l !! j = Some x ->
  exists piece, f x (i + j)%nat = Ok piece /\ occursIn piece out.
Proof.
  revert i j out. induction l as [| y l IH]; intros i j out Hout Hj; [done |].
  cbn [renderEach] in Hout.
  destruct (f y i) as [piece | e] eqn:Hy; [| done].
  destruct (renderEach f (S i) l) as [more | e] eqn:Hmore; [| done].
  injection Hout as <-.
  destruct j as [| j]; cbn in Hj.
  - injection Hj as <-. exists piece. rewrite Nat.add_0_r.
    split; [done |]. apply occursIn_app_l, occursIn_refl.
  - destruct (IH (S i) j more Hmore Hj) as (p & Hp & Hin).
    exists p. split; [by rewrite <- Hp, Nat.add_succ_r |].
    by apply occursIn_app_r.
Qed.

(** C8. In a table that [renderDataTable] renders, the cell at row [i],
    column [j] is a [td] element whose text is the literal NULL when the
    value is [null] and the escaped text of a string value otherwise; that
    text never holds a [<] or a [>], so a [<script>] in a cell is shown, not
    run. *)
Theorem null_and_markup_cells
    (queryResult : value) (html : string) (rows cells : list value)
    (i j : nat) (cell : value) :
  renderDataTable queryResult = Ok html ->
  getProp queryResult "data_array" = Ok (VArr rows) ->
  rows !! i = Some (VArr cells) ->
  cells !! j = Some cell ->
  exists className shown,
    occursIn ("<td " +:+ DOM.attr "class" className +:+ ">" +:+
              shown +:+ "</td>") html /\
    (cell = VNull -> shown = "NULL") /\
    (forall s, cell = VStr s -> shown = DOM.serializeText s) /\
    includes shown "<" = false /\
    includes shown ">" = false.
Proof.
  intros Hhtml Hdata Hrow Hcell.
  unfold renderDataTable in Hhtml. rewrite Hdata in Hhtml.
  cbn [bindR truthy getProp String.eqb Ascii.eqb Bool.eqb] in Hhtml.
  destruct (getProp queryResult "schema") as [schema | e]; [| done].
  destruct (getProp queryResult "row_count") as [row_count | e]; [| done].
  cbn [bindR negb orb isZero] in Hhtml.
  destruct (Z.of_nat (length rows) =? 0) eqn:Hlen.
  { apply Z.eqb_eq in Hlen. destruct rows; [done | cbn in Hlen; lia]. }
  destruct (getProp schema "columns") as [columns | e]; [| done].
  cbn [bindR] in Hhtml.
  destruct (getProp columns "length") as [n | e]; [| done].
  cbn [bindR] in Hhtml.
  destruct (itemsOf "schema.columns" columns) as [cols | e]; [| done].
  cbn [bindR] in Hhtml.
  destruct (renderEach renderHeader 0 cols) as [ths | e]; [| done].
  cbn [bindR itemsOf] in Hhtml.
  destruct (renderEach (renderRow cols) 0 rows) as [trs | e] eqn:Htrs; [| done].
  cbn [bindR] in Hhtml.
  destruct (getProp queryResult "truncated") as [truncated | e]; [| done].
  cbn [bindR] in Hhtml. injection Hhtml as <-.
  destruct (renderEach_lookup _ _ _ _ _ _ Htrs Hrow) as (tr & Htr & Hin_tr).
  unfold renderRow in Htr. cbn [bindR itemsOf] in Htr.
  destruct (renderEach (renderCell cols) 0 cells) as [tds | e] eqn:Htds; [| done].
  cbn [bindR] in Htr. injection Htr as <-.
  destruct (renderEach_lookup _ _ _ _ _ _ Htds Hcell) as (td & Htd & Hin_td).
  destruct (renderCell_shape _ _ _ _ Htd) as (className & ->).
  exists className,
    (DOM.serializeText (if isNull cell then "NULL" else toString cell)).
  split; [| split; [| split; [| split]]].
  - assert (Hin : occursIn
                    ("<td " +:+ DOM.attr "class" className +:+ ">" +:+
                     DOM.serializeText (if isNull cell then "NULL" else toString cell)
                     +:+ "</td>") trs).
    { eapply occursIn_trans; [| exact Hin_tr]. find_piece. }
    clear Hin_td Hin_tr. find_piece.
  - by intros ->.
  - by intros s ->.
  - apply serializeText_no_lt.
  - apply serializeText_no_gt.
Qed.

(** The second row of the drivers' table starts with a [null] cell. *)
Lemma null_and_markup_cells_witness :
  exists html,
    renderDataTable Demo.driversTable = Ok html /\
    exists className shown,
      occursIn ("<td " +:+ DOM.attr "class" className +:+ ">" +:+
                shown +:+ "</td>") html /\
      (VNull = VNull -> shown = "NULL") /\
      (forall s, VNull = VStr s -> shown = DOM.serializeText s) /\
      includes shown "<" = false /\
      includes shown ">" = false.
Proof.
  eexists. split; [vm_compute; reflexivity |].
  eapply (null_and_markup_cells Demo.driversTable _ _ [VNull; VNum 91] 1 0 VNull);
    reflexivity.
Defined.

End Rendering.
(** * Showing a result: [addMessage] and [displayResult] *)

Section Display.

Import GenieChat.

Lemma addMessage_string (role s : string) (items : list value) (w : world) :
  messages (this w) = VArr items ->
  addMessage role (VStr s) w = (Ok tt, appended role s items w).
Proof.
  intros Hitems. unfold addMessage, saveState, appended, bodyOf, storedState.
  run. cbn [jsIncludes]. fields.
  destruct (includes s "<"), (welcome (doc w) && String.eqb role "user");
    fields; rewrite Hitems; fields; cbn [sliceLast]; reflexivity.
Qed.

Lemma appended_messages (role s : string) (items : list value) (w : world) :
  messages (this (appended role s items w))
  = VArr (items ++ [turn role (VStr s) (clock (env w) (S (ticks w)))]).
Proof. reflexivity. Qed.

Lemma truthy_VStr (s : string) : s <> "" -> truthy (VStr s) = true.
Proof. intros Hs. cbn. by apply negb_true_iff, String.eqb_neq. Qed.

(** An attachment with a narrative and no query block: the narrative is
    added as it came, followed by the notice that no data was shown. *)
Lemma displayResult_narrative_only
    (w : world) (result att text : value) (others items : list value)
    (narrative : string) :
  getProp result "attachments" = Ok (VArr (att :: others)) ->
  getProp att "query" = Ok VUndefined ->
  getProp att "text" = Ok text ->
  getProp text "content" = Ok (VStr narrative) ->
  narrative <> "" ->
  messages (this w) = VArr items ->
  displayResult result w
  = (Ok tt,
     appended "assistant" noDataShown
       (items ++ [turn "assistant" (VStr narrative) (clock (env w) (S (ticks w)))])
       (appended "assistant" narrative items w)).
Proof.
  intros Hatts Hquery Htext Hcontent Hne Hitems.
  assert (Htruthy : truthy text = true).
  { destruct text; try done; cbn in Hcontent; by repeat case_match. }
  unfold displayResult.
  rewrite Hatts, bind_liftR_ok.
  cbn [truthy getProp String.eqb Ascii.eqb Bool.eqb negb orb isZero length].
  rewrite bind_liftR_ok.
  cbn [isZero].
  destruct (Z.eqb_spec (Z.of_nat (S (length others))) 0) as [? | _]; [lia |].
  cbn [itemsOf]. rewrite bind_liftR_ok.
  cbn [lookup list_lookup default from_option id]. rewrite Hquery.
  repeat first [rewrite bind_liftR_ok | rewrite bind_ret | progress cbn [truthy]].
  rewrite Htext, bind_liftR_ok, Htruthy, Hcontent, bind_liftR_ok.
  rewrite (truthy_VStr _ Hne). cbv beta iota.
  rewrite (bind_ok _ _ _ _ _ (addMessage_string _ _ items _ Hitems)).
  repeat first [rewrite bind_liftR_ok | rewrite bind_ret | progress cbn [truthy]].
  by rewrite (addMessage_string _ _ _ _ (appended_messages _ _ _ _)).
Qed.
(** C9, as the code has it. For a COMPLETED message whose first attachment
    has a narrative and no query block, [displayResult] returns normally
    and appends two assistant turns to the history: the narrative, then the
    notice that no data was returned. *)
Theorem narrative_only_appends_two_turns
    (w : world) (result att text : value) (others items : list value)
    (narrative : string) :
  getProp result "attachments" = Ok (VArr (att :: others)) ->
  getProp att "query" = Ok VUndefined ->
  getProp att "text" = Ok text ->
  getProp text "content" = Ok (VStr narrative) ->
  narrative <> "" ->
  messages (this w) = VArr items ->
  fst (displayResult result w) = Ok tt /\
  exists t1 t2,
    messages (this (snd (displayResult result w)))
    = VArr (items ++ [turn "assistant" (VStr narrative) t1;
                      turn "assistant" (VStr noDataShown) t2]).
Proof.
  intros Hatts Hquery Htext Hcontent Hne Hitems.
  rewrite (displayResult_narrative_only w result att text others items narrative)
    by done.
  split; [done |]. eexists _, _. cbn [snd]. rewrite appended_messages.
  by rewrite <- app_assoc.
Qed.

(** A one-sentence narrative on an empty history. *)
Lemma narrative_only_appends_two_turns_witness :
  let w := Demo.start (Demo.relay Demo.executing) "" in
  let result := Demo.narrativeOnly "Hamilton leads with 103 wins." in
  fst (displayResult result w) = Ok tt /\
  exists t1 t2,
    messages (this (snd (displayResult result w)))
    = VArr ([] ++ [turn "assistant" (VStr "Hamilton leads with 103 wins.") t1;
                   turn "assistant" (VStr noDataShown) t2]).
Proof.
  intros w result.
  eapply (narrative_only_appends_two_turns w result _ _ [] []);
    [reflexivity | reflexivity | reflexivity | reflexivity | discriminate
    | reflexivity].
Defined.

(** C9, as stated, fails: on an empty history a narrative-only result
    leaves two turns, not one. *)
Lemma single_turn_counterexample :
  let w := Demo.start (Demo.relay Demo.executing) "" in
  let w' := snd (displayResult (Demo.narrativeOnly "Hamilton leads with 103 wins.") w) in
  messages (this w) = VArr [] /\
  ~ (exists t, messages (this w') = VArr ([] ++ [t])).
Proof.
  split; [reflexivity |]. vm_compute. intros [t Ht]. congruence.
Qed.

(** C3, where it fails. A narrative that holds a [<] reaches the page
    through [innerHTML] exactly as the service sent it, which is not its
    escaped form. *)
Theorem narrative_inserted_as_markup
    (w : world) (result att text : value) (others items : list value)
    (narrative : string) :
  getProp result "attachments" = Ok (VArr (att :: others)) ->
  getProp att "query" = Ok VUndefined ->
  getProp att "text" = Ok text ->
  getProp text "content" = Ok (VStr narrative) ->
  includes narrative "<" = true ->
  messages (this w) = VArr items ->
  (exists time time',
     children (doc (snd (displayResult result w)))
     = children (doc w) ++
       [MessageDiv "genie-message assistant" (InnerHTML narrative) time;
        MessageDiv "genie-message assistant" (TextContent noDataShown) time']) /\
  escapeHtml (VStr narrative) <> narrative.
Proof.
  intros Hatts Hquery Htext Hcontent Hlt Hitems.
  assert (Hne : narrative <> "") by (by intros ->).
  rewrite (displayResult_narrative_only w result att text others items narrative)
    by done.
  split.
  - eexists _, _. cbn [snd]. unfold appended. fields.
    change (String.eqb "assistant" "user") with false.
    unfold bodyOf at 1. rewrite Hlt.
    change (bodyOf noDataShown) with (TextContent noDataShown).
    by rewrite <- app_assoc.
  - intros Heq. pose proof (serializeText_no_lt narrative) as Hno.
    unfold escapeHtml in Heq. cbn [DOM.textOf toString] in Heq.
    rewrite Heq in Hno. congruence.
Qed.

(** An [img] element with an [onerror] handler as narrative. *)
Lemma narrative_inserted_as_markup_witness :
  let w := Demo.start (Demo.relay Demo.executing) "" in
  let result := Demo.narrativeOnly Demo.injected in
  (exists time time',
     children (doc (snd (displayResult result w)))
     = children (doc w) ++
       [MessageDiv "genie-message assistant" (InnerHTML Demo.injected) time;
        MessageDiv "genie-message assistant" (TextContent noDataShown) time']) /\
  escapeHtml (VStr Demo.injected) <> Demo.injected.
Proof.
  intros w result.
  eapply (narrative_inserted_as_markup w result _ _ [] []); reflexivity.
Defined.

(** C10, where it fails. A tabular block without its schema, or with a row
    wider than the schema, makes [displayResult] throw a TypeError; nothing
    is added to the history, and the submission ends in the error box
    rather than in a notice that there is no data. *)
Theorem normalization_throws :
  let w := Demo.start (Demo.relay Demo.missingSchema) "Who won in 2008?" in
  fst (displayResult Demo.missingSchema w)
  = Throw (TypeError "Cannot read properties of undefined (reading 'columns')") /\
  messages (this (snd (displayResult Demo.missingSchema w))) = VArr [] /\
  children (doc (snd (displayResult Demo.missingSchema w))) = [] /\
  fst (displayResult Demo.wideRow w)
  = Throw (TypeError "Cannot read properties of undefined (reading 'type')") /\
  messages (this (snd (displayResult Demo.wideRow w))) = VArr [] /\
  children (doc (snd (displayResult Demo.wideRow w))) = [] /\
  last (children (doc (snd (handleSend w))))
  = Some (ErrorDiv
            (nl +:+ "            <p><strong>Error:</strong> " +:+
             "Cannot read properties of undefined (reading 'columns')" +:+
             "</p>" +:+ nl +:+ "            <button " +:+
             DOM.attr "class" "genie-retry-btn" +:+ ">Retry</button>" +:+
             nl +:+ "        ")
            true) /\
  messages (this (snd (handleSend w)))
  = VArr [turn "user" (VStr "Who won in 2008?") 1700000000001].
Proof. vm_compute. repeat split. Qed.

End Display.

(** * JSON: what is written is read back *)

Section JsonFacts.
Import JSON.

Lemma quoteChars_length (s : string) :
  (String.length s <= String.length (quoteChars s))%nat.
Proof.
  induction s as [| c s IH]; [done |].
  cbn [quoteChars]. rewrite str_length_app. cbn [String.length].
  assert (1 <= String.length (quoteChar c))%nat; [| lia].
  unfold quoteChar. repeat case_match; cbn; lia.
Qed.

Lemma parseChars_step (fuel : nat) (c : ascii) (rest : string) :
  parseChars (S fuel) (String c rest)
  = if codeOf c =? 34 then Some ("", rest)
    else if codeOf c =? 92 then
      match parseEscape rest with
      | Some (ch, rest') =>
          match parseChars fuel rest' with
          | Some (str, r) => Some (String ch str, r)
          | None => None
          end
      | None => None
      end
    else if codeOf c <? 32 then None
    else
      match parseChars fuel rest with
      | Some (str, r) => Some (String c str, r)
      | None => None
      end.
Proof. reflexivity. Qed.

(** Evaluates the closed tests on characters that a goal contains. *)
Ltac eval_chars :=
  repeat match goal with
         | |- context [quoteChar ?c] =>
             let q := eval vm_compute in (quoteChar c) in
             change (quoteChar c) with q
         | |- context [codeOf ?c =? ?k] =>
             let b := eval vm_compute in (codeOf c =? k) in
             change (codeOf c =? k) with b
         | |- context [codeOf ?c <? ?k] =>
             let b := eval vm_compute in (codeOf c <? k) in
             change (codeOf c <? k) with b
         | |- context [hexValue ?c] =>
             let b := eval vm_compute in (hexValue c) in
             change (hexValue c) with b
         | |- context [charOfCode ?n] =>
             let b := eval vm_compute in (charOfCode n) in
             change (charOfCode n) with b
         end.

(** One character written by [quoteChar] is read back as itself. *)
Lemma parseChars_quoteChar (c : ascii) (fuel : nat) (tail s rest : string) :
  parseChars fuel tail = Some (s, rest) ->
  parseChars (S fuel) (quoteChar c +:+ tail) = Some (String c s, rest).
Proof.
  intros Htail.
  destruct c as [[] [] [] [] [] [] [] []];
    eval_chars; cbn [String.append]; rewrite parseChars_step;
    unfold parseEscape;
    repeat (progress (eval_chars; cbv beta iota; cbn [orb andb]));
    rewrite Htail; reflexivity.
Qed.

(** Reading back what [quoteChars] wrote, up to the closing quote. *)
Lemma parseChars_quoteChars (s rest : string) (fuel : nat) :
  (String.length s < fuel)%nat ->
  parseChars fuel (quoteChars s +:+ dq +:+ rest) = Some (s, rest).
Proof.
  revert fuel. induction s as [| c s IH]; intros fuel Hfuel.
  - destruct fuel; [cbn in Hfuel; lia |]. reflexivity.
  - destruct fuel as [| fuel]; [cbn in Hfuel; lia |].
    cbn [String.length] in Hfuel.
    cbn [quoteChars]. rewrite str_app_assoc.
    apply parseChars_quoteChar, IH. lia.
Qed.

Lemma spanDigits_uint (u : Decimal.uint) (rest : string) :
  endsNumber rest = true ->
  spanDigits (NilEmpty.string_of_uint u +:+ rest) = (NilEmpty.string_of_uint u, rest).
Proof.
  intros Hrest. induction u as [| u IH | u IH | u IH | u IH | u IH | u IH
                                 | u IH | u IH | u IH | u IH];
    cbn [NilEmpty.string_of_uint String.append spanDigits];
    try (change (isDigit _) with true; cbv beta iota; by rewrite IH).
  destruct rest as [| c rest]; [done |].
  cbn [spanDigits]. cbn in Hrest. by destruct (isDigit c).
Qed.

Lemma parseDigits_uint (u : Decimal.uint) (rest : string) :
  u <> Decimal.Nil ->
  Decimal.unorm u = u ->
  endsNumber rest = true ->
  parseDigits (NilZero.string_of_uint u +:+ rest) = Some (Z.of_uint u, rest).
Proof.
  intros Hnil Hnorm Hrest. unfold parseDigits.
  replace (NilZero.string_of_uint u) with (NilEmpty.string_of_uint u)
    by (by destruct u).
  rewrite spanDigits_uint by done.
  replace (NilEmpty.string_of_uint u) with (NilZero.string_of_uint u)
    by (by destruct u).
  rewrite NilZero.usu by done.
  by rewrite Hnorm, Decimal.internal_uint_dec_lb.
Qed.

Lemma to_uint_normal (p : positive) : Decimal.unorm (Pos.to_uint p) = Pos.to_uint p.
Proof.
  rewrite <- DecimalPos.Unsigned.to_of, DecimalPos.Unsigned.of_to. reflexivity.
Qed.

(** A number is read back as written, when no digit follows it. *)
Lemma parseNumber_decimal (n : Z) (rest : string) :
  endsNumber rest = true ->
  parseNumber (decimal n +:+ rest) = Some (n, rest).
Proof.
  intros Hrest. unfold decimal. destruct n as [| p | p]; cbn [Z.to_int NilZero.string_of_int].
  - unfold parseNumber. cbn [NilZero.string_of_uint String.append].
    change (codeOf "0" =? 45) with false. cbv beta iota.
    exact (parseDigits_uint (Decimal.D0 Decimal.Nil) rest ltac:(done) eq_refl Hrest).
  - pose proof (parseDigits_uint (Pos.to_uint p) rest
                  (DecimalPos.Unsigned.to_uint_nonnil p) (to_uint_normal p) Hrest) as Hp.
    unfold Z.of_uint in Hp. rewrite DecimalPos.Unsigned.of_to in Hp. cbn [Z.of_N] in Hp.
    pose proof (DecimalPos.Unsigned.to_uint_nonnil p) as Hnil.
    unfold parseNumber.
    destruct (Pos.to_uint p) as [| u | u | u | u | u | u | u | u | u | u]; [done |..];
      cbn [NilZero.string_of_uint NilEmpty.string_of_uint String.append] in *;
      exact Hp.
  - pose proof (parseDigits_uint (Pos.to_uint p) rest
                  (DecimalPos.Unsigned.to_uint_nonnil p) (to_uint_normal p) Hrest) as Hp.
    unfold Z.of_uint in Hp. rewrite DecimalPos.Unsigned.of_to in Hp. cbn [Z.of_N] in Hp.
    unfold parseNumber. cbn [String.append].
    change (codeOf "-" =? 45) with true. cbv beta iota. by rewrite Hp.
Qed.

Lemma decimal_first (n : Z) :
  exists c s, decimal n = String c s /\ (isDigit c = true \/ c = "-"%char).
Proof.
  unfold decimal. destruct n as [| p | p]; cbn [Z.to_int NilZero.string_of_int].
  - by eexists _, _; split; [reflexivity | left].
  - pose proof (DecimalPos.Unsigned.to_uint_nonnil p) as Hnil.
    destruct (Pos.to_uint p); [done |..];
      by eexists _, _; split; [reflexivity | left].
  - by eexists _, _; split; [reflexivity | right].
Qed.

(** Induction on values, through the lists that arrays and objects hold. *)
Lemma value_ind' (P : value -> Prop) :
  P VUndefined -> P VNull -> (forall b, P (VBool b)) -> (forall n, P (VNum n)) ->
  (forall s, P (VStr s)) ->
  (forall items, Forall P items -> P (VArr items)) ->
  (forall props, Forall (fun kv => P (snd kv)) props -> P (VObj props)) ->
  forall v, P v.
Proof.
  intros Hu Hn Hb Hz Hs Ha Ho.
  fix IH 1. intros [| | b | n | s | items | props].
  - exact Hu.
  - exact Hn.
  - apply Hb.
  - apply Hz.
  - apply Hs.
  - apply Ha. induction items as [| x items IHitems]; constructor.
    + apply IH.
    + exact IHitems.
  - apply Ho. induction props as [| [k x] props IHprops]; constructor.
    + apply IH.
    + exact IHprops.
Qed.

Lemma stringify_arr (x : value) (l : list value) :
  stringify (VArr (x :: l)) = "[" +:+ stringify x +:+ stringifyElements l.
Proof.
  reflexivity.
Qed.

Lemma stringify_obj (props : list (string * value)) :
  stringify (VObj props) = "{" +:+ stringifyMembers true props.
Proof.
  reflexivity.
Qed.

Lemma expect_app (lit rest : string) : expect lit (lit +:+ rest) = Some rest.
Proof.
  unfold expect.
  assert (Hp : String.prefix lit (lit +:+ rest) = true).
  { induction lit as [| c lit IH]; cbn; [by destruct rest |].
    by destruct (ascii_dec c c). }
  rewrite Hp. f_equal. clear Hp.
  induction lit as [| c lit IH]; [by destruct rest |].
  cbn [String.length String.append dropStr]. exact IH.
Qed.

Lemma expect_char (c : ascii) (rest : string) :
  expect (String c "") (String c rest) = Some rest.
Proof. exact (expect_app (String c "") rest). Qed.

Lemma expect_other (c c' : ascii) (s : string) :
  c <> c' -> expect (String c "") (String c' s) = None.
Proof.
  intros Hne. unfold expect. cbn [String.prefix].
  by destruct (ascii_dec c c').
Qed.


Lemma parseValue_step (fuel : nat) (c : ascii) (rest : string) :
  parseValue (S fuel) (String c rest)
  = let n := codeOf c in
    if n =? 110 then option_map (pair VNull) (expect "ull" rest)
    else if n =? 116 then option_map (pair (VBool true)) (expect "rue" rest)
    else if n =? 102 then option_map (pair (VBool false)) (expect "alse" rest)
    else if n =? 34 then
      match parseChars (String.length rest) rest with
      | Some (str, r) => Some (VStr str, r)
      | None => None
      end
    else if n =? 91 then
      match expect "]" rest with
      | Some r => Some (VArr [], r)
      | None =>
          match parseValue fuel rest with
          | Some (v, r) =>
              match parseElements fuel r with
              | Some (vs, r') => Some (VArr (v :: vs), r')
              | None => None
              end
          | None => None
          end
      end
    else if n =? 123 then
      match expect "}" rest with
      | Some r => Some (VObj [], r)
      | None =>
          match parseMembers fuel ("," +:+ rest) with
          | Some (kvs, r) => Some (objectOf kvs, r)
          | None => None
          end
      end
    else
      match parseNumber (String c rest) with
      | Some (z, r) => Some (VNum z, r)
      | None => None
      end.
Proof. reflexivity. Qed.

Lemma parseElements_step (fuel : nat) (c : ascii) (rest : string) :
  parseElements (S fuel) (String c rest)
  = if codeOf c =? 93 then Some ([], rest)
    else if codeOf c =? 44 then
      match parseValue fuel rest with
      | Some (v, r) =>
          match parseElements fuel r with
          | Some (vs, r') => Some (v :: vs, r')
          | None => None
          end
      | None => None
      end
    else None.
Proof. reflexivity. Qed.

Lemma parseMembers_step (fuel : nat) (c : ascii) (rest : string) :
  parseMembers (S fuel) (String c rest)
  = if codeOf c =? 125 then Some ([], rest)
    else if codeOf c =? 44 then
      match expect dq rest with
      | Some r0 =>
          match parseChars (String.length r0) r0 with
          | Some (k, r1) =>
              match expect ":" r1 with
              | Some r2 =>
                  match parseValue fuel r2 with
                  | Some (v, r3) =>
                      match parseMembers fuel r3 with
                      | Some (kvs, r4) => Some ((k, v) :: kvs, r4)
                      | None => None
                      end
                  | None => None
                  end
              | None => None
              end
          | None => None
          end
      | None => None
      end
    else None.
Proof. reflexivity. Qed.

Lemma stringifyElements_first (l : list value) (rest : string) :
  endsNumber (stringifyElements l +:+ rest) = true.
Proof. by destruct l. Qed.

Lemma stringifyMembers_first (l : list (string * value)) (rest : string) :
  forallb (fun kv => storable (snd kv)) l = true ->
  endsNumber (stringifyMembers false l +:+ rest) = true.
Proof. destruct l as [| [k []] l]; done. Qed.

Lemma reads_elements (l : list value) :
  Forall reads l ->
  forall (fuel : nat) (rest : string),
    (String.length (stringifyElements l) <= fuel)%nat ->
    parseElements fuel (stringifyElements l +:+ rest) = Some (l, rest).
Proof.
  induction 1 as [| y l Hy _ IH]; intros fuel rest Hfuel.
  - destruct fuel; [cbn in Hfuel; lia | reflexivity].
  - cbn [stringifyElements] in *. rewrite !str_length_app in Hfuel.
    destruct fuel as [| fuel]; [cbn in Hfuel; lia |].
    cbn [String.length] in Hfuel.
    cbn [String.append]. rewrite parseElements_step.
    change (codeOf "," =? 93) with false. change (codeOf "," =? 44) with true.
    cbv beta iota. rewrite str_app_assoc.
    assert (1 <= String.length (stringifyElements l))%nat by (destruct l; cbn; lia).
    rewrite Hy; [| lia | apply stringifyElements_first].
    rewrite IH by lia. reflexivity.
Qed.


Lemma stringifyMembers_cons (first : bool) (k : string) (y : value)
      (l : list (string * value)) :
  storable y = true ->
  stringifyMembers first ((k, y) :: l)
  = (if first then "" else ",") +:+ quote k +:+ ":" +:+ stringify y +:+
    stringifyMembers false l.
Proof. by destruct y. Qed.

Lemma reads_members (l : list (string * value)) :
  Forall (fun kv => reads (snd kv)) l ->
  forallb (fun kv => storable (snd kv)) l = true ->
  forall (fuel : nat) (rest : string),
    (String.length (stringifyMembers false l) <= fuel)%nat ->
    parseMembers fuel (stringifyMembers false l +:+ rest) = Some (l, rest).
Proof.
  induction 1 as [| [k y] l Hy _ IH]; intros Hall fuel rest Hfuel.
  - destruct fuel; [cbn in Hfuel; lia | reflexivity].
  - cbn [forallb snd] in Hall. apply andb_prop in Hall as [Hstor Hall].
    cbn [snd] in Hy.
    rewrite stringifyMembers_cons in * by done.
    unfold quote in *. rewrite !str_length_app in Hfuel.
    destruct fuel as [| fuel]; [cbn in Hfuel; lia |].
    cbn [String.length] in Hfuel.
    rewrite !str_app_assoc. cbn [String.append]. rewrite parseMembers_step.
    change (codeOf "," =? 125) with false. change (codeOf "," =? 44) with true.
    cbv beta iota. rewrite expect_app.
    rewrite parseChars_quoteChars.
    2: { rewrite !str_length_app. pose proof (quoteChars_length k).
         cbn [String.length dq]. lia. }
    rewrite expect_char.
    rewrite Hy; [| lia | by apply stringifyMembers_first].
    rewrite IH by (done || lia). reflexivity.
Qed.

Lemma setProp_fresh (k : string) (v : value) (acc : list (string * value)) :
  existsb (String.eqb k) (map fst acc) = false ->
  setProp k v acc = acc ++ [(k, v)].
Proof.
  induction acc as [| [k' v'] acc IH]; [done |].
  cbn [map fst existsb setProp]. intros [Hk Hacc]%orb_false_elim.
  rewrite String.eqb_sym, Hk. by rewrite IH.
Qed.

Lemma existsb_app_false (k : string) (l l' : list string) :
  existsb (String.eqb k) (l ++ l') = false <->
  existsb (String.eqb k) l = false /\ existsb (String.eqb k) l' = false.
Proof. rewrite existsb_app. apply orb_false_iff. Qed.

Lemma fold_setProp (l acc : list (string * value)) :
  uniqueKeys (map fst l) = true ->
  (forall k, In k (map fst l) -> existsb (String.eqb k) (map fst acc) = false) ->
  fold_left (fun acc kv => setProp (fst kv) (snd kv) acc) l acc = acc ++ l.
Proof.
  revert acc. induction l as [| [k v] l IH]; intros acc Huniq Hfresh.
  - by rewrite app_nil_r.
  - cbn [map fst uniqueKeys] in Huniq. apply andb_prop in Huniq as [Hk Huniq].
    apply negb_true_iff in Hk.
    cbn [fold_left fst snd]. rewrite setProp_fresh by (apply Hfresh; by left).
    rewrite IH; [by rewrite <- app_assoc | done |].
    intros k' Hin. rewrite map_app. apply existsb_app_false. split.
    + apply Hfresh. by right.
    + cbn. rewrite orb_false_r. destruct (String.eqb_spec k' k) as [-> |]; [| done].
      assert (Hex : existsb (String.eqb k) (map fst l) = true); [| congruence].
      apply existsb_exists. exists k. split; [done | apply String.eqb_refl].
Qed.

Lemma objectOf_unique (l : list (string * value)) :
  uniqueKeys (map fst l) = true -> objectOf l = VObj l.
Proof. intros Huniq. unfold objectOf. by rewrite fold_setProp. Qed.


Lemma Forall_storable (P : value -> Prop) (l : list value) :
  Forall (fun v => storable v = true -> P v) l ->
  forallb storable l = true -> Forall P l.
Proof.
  induction 1 as [| x l Hx _ IH]; [constructor |].
  cbn [forallb]. intros [Hsx Hl]%andb_prop. constructor; auto.
Qed.

Lemma Forall_storable_snd (P : value -> Prop) (l : list (string * value)) :
  Forall (fun kv => storable (snd kv) = true -> P (snd kv)) l ->
  forallb (fun kv => storable (snd kv)) l = true ->
  Forall (fun kv => P (snd kv)) l.
Proof.
  induction 1 as [| x l Hx _ IH]; [constructor |].
  cbn [forallb]. intros [Hsx Hl]%andb_prop. constructor; auto.
Qed.

Lemma stringify_first (v : value) :
  exists c s, stringify v = String c s /\ c <> "]"%char.
Proof.
  destruct v as [| | [] | n | s | [| x l] | props];
    try (by eexists _, _; split; [reflexivity |]).
  destruct (decimal_first n) as (c & s & Hdec & [Hd | ->]).
  - exists c, s. split; [done |]. by intros ->.
  - by eexists _, _.
Qed.

(** Every storable value is read back as it was written. *)
Lemma storable_reads (v : value) : storable v = true -> reads v.
Proof.
  induction v as [| | b | n | s | items IH | props IH] using value_ind';
    intros Hstor fuel rest Hfuel Hrest.
  - done.
  - destruct fuel; [cbn in Hfuel; lia |].
    cbn [stringify String.append]. rewrite parseValue_step. cbv zeta. eval_chars.
    cbv beta iota. pose proof (expect_app "ull" rest) as He. cbn [String.append] in He. by rewrite He.
  - destruct fuel; [destruct b; cbn in Hfuel; lia |].
    destruct b; cbn [stringify String.append]; rewrite parseValue_step; cbv zeta;
      eval_chars; cbv beta iota.
    + pose proof (expect_app "rue" rest) as He. cbn [String.append] in He. by rewrite He.
    + pose proof (expect_app "alse" rest) as He. cbn [String.append] in He. by rewrite He.
  - destruct (decimal_first n) as (c & s & Hdec & Hc).
    pose proof (parseNumber_decimal n rest Hrest) as Hnum.
    cbn [stringify] in *. rewrite Hdec in *.
    destruct fuel; [cbn in Hfuel; lia |].
    cbn [String.append] in *. rewrite parseValue_step. cbv zeta.
    assert (Hn : (codeOf c =? 110) = false /\ (codeOf c =? 116) = false /\
                 (codeOf c =? 102) = false /\ (codeOf c =? 34) = false /\
                 (codeOf c =? 91) = false /\ (codeOf c =? 123) = false).
    { destruct Hc as [Hd | ->]; [| done].
      unfold isDigit in Hd. apply andb_prop in Hd as [?%Z.leb_le ?%Z.leb_le].
      repeat split; apply Z.eqb_neq; lia. }
    destruct Hn as (-> & -> & -> & -> & -> & ->).
    by rewrite Hnum.
  - cbn [stringify] in *. unfold quote in *.
    destruct fuel; [cbn in Hfuel; lia |].
    rewrite !str_app_assoc. cbn [dq String.append]. rewrite parseValue_step.
    cbv zeta. change (codeOf "034" =? 110) with false.
    change (codeOf "034" =? 116) with false. change (codeOf "034" =? 102) with false.
    change (codeOf "034" =? 34) with true. cbv beta iota.
    change (String "034" rest) with (dq +:+ rest).
    rewrite parseChars_quoteChars; [done |].
    rewrite str_length_app. pose proof (quoteChars_length s). cbn [String.length dq String.append]. lia.
  - cbn [storable] in Hstor. apply (Forall_storable _ _ IH) in Hstor.
    destruct Hstor as [| x l Hx Hl].
    { destruct fuel; [cbn in Hfuel; lia |].
      cbn [stringify String.append]. rewrite parseValue_step. cbv zeta. eval_chars.
      cbv beta iota. by rewrite expect_char. }
    rewrite stringify_arr in *. rewrite !str_length_app in Hfuel.
    destruct fuel; [cbn in Hfuel; lia |]. cbn [String.length] in Hfuel.
    rewrite !str_app_assoc. cbn [String.append]. rewrite parseValue_step.
    cbv zeta. change (codeOf "[" =? 110) with false.
    change (codeOf "[" =? 116) with false. change (codeOf "[" =? 102) with false.
    change (codeOf "[" =? 34) with false. change (codeOf "[" =? 91) with true.
    cbv beta iota.
    destruct (stringify_first x) as (c & s & Hc & Hne).
    replace (expect "]" (stringify x +:+ stringifyElements l +:+ rest)) with (@None string)
      by (rewrite Hc; cbn [String.append]; symmetry; by apply expect_other).
    rewrite Hx; [| lia | apply stringifyElements_first].
    by rewrite reads_elements by (done || lia).
  - cbn [storable] in Hstor. apply andb_prop in Hstor as [Huniq Hall].
    pose proof (Forall_storable_snd _ _ IH Hall) as Hreads.
    rewrite stringify_obj in *.
    destruct fuel; [cbn in Hfuel; lia |]. cbn [String.append String.length] in *.
    rewrite parseValue_step. cbv zeta. eval_chars. cbv beta iota.
    destruct props as [| [k y] l].
    { cbn [stringifyMembers String.append]. by rewrite expect_char. }
    assert (Hy : storable y = true) by (by apply andb_prop in Hall as [? _]).
    assert (Hfalse : "," +:+ stringifyMembers true ((k, y) :: l)
                     = stringifyMembers false ((k, y) :: l))
      by (by rewrite !stringifyMembers_cons).
    replace (expect "}" (stringifyMembers true ((k, y) :: l) +:+ rest))
      with (@None string)
      by (rewrite stringifyMembers_cons by done; symmetry; by apply expect_other).
    rewrite <- str_app_assoc, Hfalse.
    rewrite reads_members; [by rewrite objectOf_unique | done | done |].
    rewrite <- Hfalse. cbn [String.append String.length]. lia.
Qed.

(** Writing a storable value and parsing the text gives the value back. *)
Lemma parse_stringify (v : value) :
  storable v = true -> JSON.parse (JSON.stringify v) = Ok v.
Proof.
  intros Hstor. unfold JSON.parse.
  pose proof (storable_reads v Hstor (S (String.length (stringify v))) ""
                ltac:(lia) eq_refl) as Hread.
  rewrite str_app_nil_r in Hread. by rewrite Hread.
Qed.

End JsonFacts.

(** * The persisted session: [saveState] and [loadState] *)

Section Persistence.
Import JSON.
Import GenieChat.

Lemma snd_tryCatch_ret {A} (c : M A) (a : A) (w : world) :
  snd (tryCatch c (fun _ => ret a) w) = snd (c w).
Proof. unfold tryCatch. by destruct (c w) as [[x | [m | m | m]] w']. Qed.

Lemma restoreMessage_this (msg : value) (w : world) :
  this (snd (restoreMessage msg w)) = this w.
Proof.
  unfold restoreMessage. run.
  repeat (case_match; simplify_eq; cbn; try reflexivity).
Qed.

Lemma forEach_this {A} (f : A -> M unit) (l : list A) (w : world) :
  (forall x w, this (snd (f x w)) = this w) ->
  this (snd (forEach f l w)) = this w.
Proof.
  intros Hf. revert w. induction l as [| x l IH]; intros w; [done |].
  cbn [forEach]. rewrite snd_bind.
  destruct (fst (f x w)); [by rewrite IH, Hf | apply Hf].
Qed.

(** What [loadState] makes of a stored document that parses. *)
Lemma loadState_stored (w : world) (text : string) (state cid : value)
      (kept : list value) :
  localStorage w !! storageKey = Some text ->
  text <> "" ->
  JSON.parse text = Ok state ->
  getProp state "conversationId" = Ok cid ->
  getProp state "messages" = Ok (VArr kept) ->
  this (snd (loadState w)) = setMessages (VArr kept) (setConversationId cid (this w)).
Proof.
  intros Hget Hne Hparse Hcid Hmsgs.
  unfold loadState. rewrite snd_tryCatch_ret.
  rewrite snd_bind. unfold getItem at 1 2. cbn [fst snd]. rewrite Hget.
  apply String.eqb_neq in Hne. rewrite Hne.
  rewrite Hparse, bind_liftR_ok, Hcid, bind_liftR_ok.
  rewrite snd_bind. cbn [modifyThis fst snd].
  rewrite Hmsgs, bind_liftR_ok. cbn [truthy].
  rewrite snd_bind. cbn [modifyThis fst snd].
  cbn [getProp String.eqb Ascii.eqb Bool.eqb]. rewrite bind_liftR_ok.
  cbn [gtZero]. rewrite bind_liftR_ok.
  destruct (0 <? Z.of_nat (length kept)); [| reflexivity].
  rewrite snd_bind. cbn [modifyDoc fst snd itemsOf]. rewrite bind_liftR_ok.
  rewrite forEach_this by apply restoreMessage_this. reflexivity.
Qed.


Lemma saveState_array (w : world) (items : list value) :
  messages (this w) = VArr items ->
  fst (saveState w) = Ok tt /\
  this (snd (saveState w)) = this w /\
  localStorage (snd (saveState w))
  = <[storageKey := storedState (conversationId (this w)) items]> (localStorage w) /\
  emitted w (snd (saveState w))
  = [SetItem storageKey (storedState (conversationId (this w)) items)].
Proof.
  intros Hitems. unfold saveState, emitted. run. rewrite Hitems.
  cbn [sliceLast setItem fst snd this localStorage trace].
  by rewrite drop_app_length.
Qed.

Lemma forallb_drop {A} (f : A -> bool) (n : nat) (l : list A) :
  forallb f l = true -> forallb f (drop n l) = true.
Proof.
  revert n. induction l as [| x l IH]; intros [| n] Hall; try done.
  cbn [forallb] in Hall. apply andb_prop in Hall as [_ Hall]. by apply IH.
Qed.

Lemma storedState_text (cid : value) (items : list value) :
  storedState cid items <> "".
Proof. unfold storedState. by rewrite stringify_obj. Qed.

(** The stored document parses to an object that holds the conversation
    handle, unless that was [undefined], and the last 20 turns. *)
Lemma storedState_parse (cid : value) (items : list value) :
  forallb storable items = true ->
  cid = VUndefined \/ storable cid = true ->
  exists state,
    JSON.parse (storedState cid items) = Ok state /\
    getProp state "conversationId" = Ok cid /\
    getProp state "messages" = Ok (VArr (lastN 20 items)).
Proof.
  intros Hitems [-> | Hcid]; unfold storedState.
  - exists (VObj [("messages", VArr (lastN 20 items))]). split; [| done].
    change (JSON.stringify (VObj [("conversationId", VUndefined);
                                  ("messages", VArr (lastN 20 items))]))
      with (JSON.stringify (VObj [("messages", VArr (lastN 20 items))])).
    apply parse_stringify. cbn [storable map fst snd JSON.uniqueKeys existsb forallb].
    unfold lastN. by rewrite forallb_drop.
  - exists (VObj [("conversationId", cid); ("messages", VArr (lastN 20 items))]).
    split; [| done].
    apply parse_stringify. cbn [storable map fst snd forallb].
    unfold lastN. rewrite Hcid, forallb_drop by done. reflexivity.
Qed.

(** C7. A session whose history holds storable turns is written by
    [saveState] and, on a page that starts from that storage, read back by
    the constructor with the same conversation handle and the same turns in
    the same order, cut to the last 20. *)
Theorem session_round_trip (w reloaded : world) (items : list value) :
  messages (this w) = VArr items ->
  forallb JSON.storable items = true ->
  conversationId (this w) = VUndefined \/
    JSON.storable (conversationId (this w)) = true ->
  localStorage reloaded = localStorage (snd (saveState w)) ->
  fst (saveState w) = Ok tt /\
  conversationId (this (snd (construct reloaded))) = conversationId (this w) /\
  messages (this (snd (construct reloaded))) = VArr (lastN 20 items).
Proof.
  intros Hitems Hstor Hcid Hstorage.
  destruct (saveState_array w items Hitems) as (Hok & _ & Hsaved & _).
  split; [exact Hok |].
  destruct (storedState_parse (conversationId (this w)) items Hstor Hcid)
    as (state & Hparse & Hid & Hmsgs).
  unfold construct. rewrite snd_bind. cbn [modifyThis fst snd].
  rewrite (loadState_stored _ (storedState (conversationId (this w)) items)
             state (conversationId (this w)) (lastN 20 items));
    [done | | apply storedState_text | done..].
  cbn [withThis localStorage]. rewrite Hstorage, Hsaved.
  apply lookup_insert_eq.
Qed.


(** Twenty-five turns are saved; the last twenty come back. *)
Lemma session_round_trip_witness :
  let w := Demo.longSession in
  let items := Demo.turns 25 in
  messages (this w) = VArr items /\
  fst (saveState w) = Ok tt /\
  conversationId (this (snd (construct (snd (saveState w))))) = VStr "c1" /\
  messages (this (snd (construct (snd (saveState w))))) = VArr (lastN 20 items).
Proof.
  intros w items. split; [reflexivity |].
  apply (session_round_trip w (snd (saveState w)) items);
    [reflexivity | reflexivity | right; reflexivity | reflexivity].
Defined.

End Persistence.

(** * Sending a message: the user's turn is kept *)

Section Kept.
Import GenieChat.

Lemma leads_ret {A} (P : world -> Prop) (a : A) : leads P (ret a) P.
Proof. by intros w. Qed.

Lemma leads_liftR {A} (P : world -> Prop) (r : result A) : leads P (liftR r) P.
Proof. by intros w. Qed.

Lemma leads_bind {A B} (P Q R : world -> Prop) (c : M A) (k : A -> M B) :
  leads P c Q -> (forall a, leads Q (k a) R) -> (forall w, Q w -> R w) ->
  leads P (bind c k) R.
Proof.
  intros Hc Hk Hmono w HP. rewrite snd_bind. specialize (Hc w HP).
  destruct (fst (c w)); [by apply Hk | by apply Hmono].
Qed.

Lemma leads_weaken {A} (P P' Q Q' : world -> Prop) (c : M A) :
  leads P c Q -> (forall w, P' w -> P w) -> (forall w, Q w -> Q' w) ->
  leads P' c Q'.
Proof. intros Hc HP HQ w Hw. apply HQ, Hc, HP, Hw. Qed.

Lemma leads_if {A} (P Q : world -> Prop) (b : bool) (c c' : M A) :
  leads P c Q -> leads P c' Q -> leads P (if b then c else c') Q.
Proof. by destruct b. Qed.

Lemma leads_tryCatch {A} (P Q R : world -> Prop) (c : M A) (h : exn -> M A) :
  leads P c Q -> (forall e, leads Q (h e) R) -> (forall w, Q w -> R w) ->
  leads P (tryCatch c h) R.
Proof.
  intros Hc Hh Hmono w HP. specialize (Hc w HP). unfold tryCatch.
  destruct (c w) as [[a | [m | m | m]] w'] eqn:Hcw; cbn [snd] in *;
    try (by apply Hmono); by apply Hh.
Qed.

Lemma leads_tryFinally {A} (P Q R : world -> Prop) (c : M A) (f : M unit) :
  leads P c Q -> leads Q f R -> leads P (tryFinally c f) R.
Proof.
  intros Hc Hf w HP. specialize (Hc w HP). unfold tryFinally.
  destruct (c w) as [r w'] eqn:Hcw; cbn [snd] in *.
  specialize (Hf w' Hc). by destruct (f w') as [[[] | e] w''].
Qed.

Lemma sameSession_advanced (evs : list event) (n : nat) (w : world) :
  sameSession w (advanced evs n w).
Proof. repeat split. by exists evs. Qed.

Lemma keeps_same (w0 : world) (items : list value) (u : value) (n : nat)
      (w w' : world) :
  keeps w0 items u n w -> sameSession w w' -> keeps w0 items u n w'.
Proof.
  intros [(more & Hm & Hall & Hlen & Hst) (later & Htr)] (Hm' & Hc' & Hs' & evs & Ht').
  split.
  - exists more. by rewrite Hm', Hc', Hs'.
  - exists (later ++ evs). rewrite Ht', Htr, <- app_assoc. reflexivity.
Qed.

Lemma keeps_more (w0 : world) (items : list value) (u : value) (n m : nat)
      (w : world) :
  (n <= m)%nat -> keeps w0 items u n w -> keeps w0 items u m w.
Proof.
  intros Hnm [(more & Hm & Hall & Hlen & Hst) Htr]. split; [| done].
  exists more. repeat split; [done .. | lia | done].
Qed.


Lemma leads_same {A} (w0 : world) (items : list value) (u : value) (n : nat)
      (c : M A) :
  (forall w, sameSession w (snd (c w))) ->
  leads (keeps w0 items u n) c (keeps w0 items u n).
Proof. intros Hc w Hw. by eapply keeps_same. Qed.

Lemma callAPI_same (action : string) (params : list (string * value)) (w : world) :
  sameSession w (snd (callAPI action params w)).
Proof. rewrite callAPI_world. apply sameSession_advanced. Qed.

Lemma pollForResult_same (mid : value) (attempt : Z) (w : world) :
  sameSession w (snd (pollForResult mid attempt w)).
Proof.
  unfold pollForResult.
  destruct (pollFrom_world (Z.to_nat (maxAttempts - attempt)) mid attempt w)
    as (n & _ & _ & ->).
  apply sameSession_advanced.
Qed.

Lemma modifyDoc_same (f : page -> page) (w : world) :
  sameSession w (snd (modifyDoc f w)).
Proof. repeat split. exists []. cbn. by rewrite app_nil_r. Qed.

Lemma showError_same (message : string) (canRetry : bool) (w : world) :
  sameSession w (snd (showError message canRetry w)).
Proof. apply modifyDoc_same. Qed.

Lemma setIsLoading_same (b : bool) (w : world) :
  sameSession w (snd (modifyThis (setIsLoading b) w)).
Proof. repeat split. exists []. cbn. by rewrite app_nil_r. Qed.

Lemma addMessage_throws (role : string) (content : value) (e : exn) (w : world) :
  jsIncludes "content" content "<" = Throw e ->
  addMessage role content w = (Throw e, w).
Proof. intros He. unfold addMessage. by rewrite He. Qed.

Lemma addMessage_pushes (role : string) (content : value) (b : bool)
      (items : list value) (w : world) :
  jsIncludes "content" content "<" = Ok b ->
  messages (this w) = VArr items ->
  let items' := items ++ [turn role content (clock (env w) (S (ticks w)))] in
  let data := storedState (conversationId (this w)) items' in
  let w' := snd (addMessage role content w) in
  messages (this w') = VArr items' /\
  conversationId (this w') = conversationId (this w) /\
  localStorage w' = <[storageKey := data]> (localStorage w) /\
  trace w' = trace w ++ [SetItem storageKey data].
Proof.
  intros Hb Hitems. unfold addMessage, saveState, storedState.
  rewrite Hb. run. fields.
  destruct (welcome (doc w) && String.eqb role "user");
    fields; rewrite Hitems; fields; cbn [sliceLast]; done.
Qed.

Lemma addMessage_keeps (w0 : world) (items : list value) (u : value) (n : nat)
      (content : value) :
  leads (keeps w0 items u n) (addMessage "assistant" content)
        (keeps w0 items u (S n)).
Proof.
  intros w Hw.
  destruct (jsIncludes "content" content "<") as [b | e] eqn:Hb.
  2: { rewrite (addMessage_throws _ _ _ _ Hb). cbn [snd].
       apply (keeps_more _ _ _ n); [lia | done]. }
  destruct Hw as [(more & Hm & Hall & Hlen & Hst) (later & Htr)].
  destruct (addMessage_pushes "assistant" content b _ w Hb Hm)
    as (Hm' & Hc' & Hs' & Ht').
  split.
  - exists (more ++ [turn "assistant" content (clock (env w) (S (ticks w)))]).
    rewrite Hm', Hc', Hs', lookup_insert_eq, <- !app_assoc.
    repeat split; [| rewrite length_app; cbn; lia].
    apply Forall_app. split; [done |]. by constructor.
  - exists (later ++ [SetItem storageKey
                        (storedState (conversationId (this w))
                           ((items ++ u :: more) ++
                            [turn "assistant" content (clock (env w) (S (ticks w)))]))]).
    rewrite Ht', Htr, <- app_assoc. reflexivity.
Qed.


(** Steps over a pure part of a computation, keeping the current bound. *)
Ltac keeps_mono := intros; eapply keeps_more; [| eassumption]; lia.
Ltac skip_pure m :=
  eapply (leads_bind _ (keeps _ _ _ m));
  [apply leads_liftR | intros ? | keeps_mono].
Ltac keeps_ret := eapply leads_weaken; [apply leads_ret | done | keeps_mono].
Ltac keeps_add :=
  eapply leads_weaken; [apply addMessage_keeps | done | keeps_mono].

(** [displayResult] adds at most four assistant turns and drops none. *)
Lemma displayResult_keeps (w0 : world) (items : list value) (u : value) (n : nat)
      (result : value) :
  leads (keeps w0 items u n) (displayResult result) (keeps w0 items u (n + 4)).
Proof.
  unfold displayResult.
  skip_pure n. skip_pure n. apply leads_if; [keeps_add |].
  skip_pure n. cbv zeta. skip_pure n. skip_pure n.
  eapply (leads_bind _ (keeps _ _ _ (S n))); [| intros hasData | keeps_mono].
  { apply leads_if; [| keeps_ret].
    skip_pure n. skip_pure n. apply leads_if; [| keeps_ret].
    skip_pure n. skip_pure n.
    eapply (leads_bind _ (keeps _ _ _ (S n)));
      [apply addMessage_keeps | intros ?; apply leads_ret | done]. }
  skip_pure (S n). skip_pure (S n).
  eapply (leads_bind _ (keeps _ _ _ (S (S n)))); [| intros ? | keeps_mono].
  { apply leads_if; [apply addMessage_keeps | keeps_ret]. }
  skip_pure (S (S n)). skip_pure (S (S n)).
  eapply (leads_bind _ (keeps _ _ _ (S (S (S n))))); [| intros ? | keeps_mono].
  { apply leads_if; [apply addMessage_keeps | keeps_ret]. }
  apply leads_if; [keeps_ret | keeps_add].
Qed.

(** Storing a new conversation handle and saving keeps the history. *)
Lemma setConversationId_keeps (w0 : world) (items : list value) (u : value)
      (n : nat) (cid : value) :
  leads (keeps w0 items u n)
        (bind (modifyThis (setConversationId cid)) (fun _ => saveState))
        (keeps w0 items u n).
Proof.
  intros w [(more & Hm & Hall & Hlen & Hst) (later & Htr)].
  rewrite snd_bind. cbn [modifyThis fst snd].
  destruct (saveState_array (withThis (setConversationId cid) w) (items ++ u :: more) Hm)
    as (_ & Hthis & Hsaved & Hev).
  split.
  - exists more. rewrite Hthis, Hsaved, lookup_insert_eq. by repeat split.
  - unfold saveState in *. revert Hev. unfold emitted. run. fields.
    rewrite Hm. cbn [sliceLast]. fields. intros _.
    eexists (later ++ [_]). rewrite Htr, <- app_assoc. reflexivity.
Qed.


Lemma leads_getThis (P : world -> Prop) : leads P getThis P.
Proof. by intros w. Qed.

Lemma hideTypingIndicator_keeps (w0 : world) (items : list value) (u : value) (n : nat) :
  leads (keeps w0 items u n) hideTypingIndicator (keeps w0 items u n).
Proof. apply leads_same, modifyDoc_same. Qed.

(** What [sendMessage] does once the user's turn is in the history. *)
Lemma afterUserTurn_keeps (w0 : world) (items : list value) (u : value)
      (content : string) :
  leads (keeps w0 items u 0)
    (self <- getThis ;;
     (if negb (truthy (conversationId self)) then
        conversationData <- callAPI "start-conversation" [] ;;
        cid <- liftR (getProp conversationData "conversation_id") ;;
        modifyThis (setConversationId cid) ;;
        saveState
      else ret tt) ;;
     self <- getThis ;;
     messageData <- callAPI "send-message"
                      [("conversationId", conversationId self);
                       ("content", VStr content)] ;;
     messageId <- liftR (getProp messageData "id") ;;
     showTypingIndicator ;;
     result <- pollForResult messageId 0 ;;
     hideTypingIndicator ;;
     displayResult result)
    (keeps w0 items u 4).
Proof.
  eapply (leads_bind _ (keeps _ _ _ 0%nat));
    [apply leads_getThis | intros self | keeps_mono].
  eapply (leads_bind _ (keeps _ _ _ 0%nat)); [| intros ? | keeps_mono].
  { apply leads_if; [| apply leads_ret].
    eapply (leads_bind _ (keeps _ _ _ 0%nat));
      [apply leads_same, callAPI_same | intros conversationData | done].
    eapply (leads_bind _ (keeps _ _ _ 0%nat));
      [apply leads_liftR | intros cid | done].
    apply setConversationId_keeps. }
  eapply (leads_bind _ (keeps _ _ _ 0%nat));
    [apply leads_getThis | intros self' | keeps_mono].
  eapply (leads_bind _ (keeps _ _ _ 0%nat));
    [apply leads_same, callAPI_same | intros messageData | keeps_mono].
  skip_pure 0%nat.
  eapply (leads_bind _ (keeps _ _ _ 0%nat));
    [apply leads_same, modifyDoc_same | intros ? | keeps_mono].
  eapply (leads_bind _ (keeps _ _ _ 0%nat));
    [apply leads_same, pollForResult_same | intros result | keeps_mono].
  eapply (leads_bind _ (keeps _ _ _ 0%nat));
    [apply hideTypingIndicator_keeps | intros ? | keeps_mono].
  apply (displayResult_keeps _ _ _ 0).
Qed.

Lemma sendMessage_keeps (w : world) (content : string) (items : list value) :
  messages (this w) = VArr items ->
  keeps w items (turn "user" (VStr content) (clock (env w) (S (ticks w)))) 4
        (snd (sendMessage content w)).
Proof.
  intros Hitems.
  set (u := turn "user" (VStr content) (clock (env w) (S (ticks w)))).
  cut (leads (fun w1 => w1 = w) (sendMessage content) (keeps w items u 4)).
  { intros Hleads. by apply Hleads. }
  apply (leads_tryFinally _ (keeps w items u 4)).
  2: { eapply (leads_bind _ (keeps _ _ _ 4%nat));
         [apply leads_same, setIsLoading_same | intros ? | done].
       apply leads_same, modifyDoc_same. }
  apply (leads_tryCatch _ (keeps w items u 4)); [| | done].
  2: { intros e. eapply (leads_bind _ (keeps _ _ _ 4%nat));
         [apply hideTypingIndicator_keeps | intros ? | done].
       apply leads_same, showError_same. }
  intros ? ->.
  rewrite (bind_ok _ _ _ _ _ eq_refl : bind (modifyThis (setIsLoading true)) _ w = _).
  rewrite (bind_ok (modifyDoc (setProcessing true)) _ _ _ _ eq_refl).
  set (wa := withDoc (setProcessing true) (withThis (setIsLoading true) w)).
  rewrite (bind_ok _ _ _ _ _ (addMessage_string "user" content items wa Hitems)).
  apply afterUserTurn_keeps. split.
  - exists []. repeat split; [constructor | cbn; lia |].
    cbn [appended localStorage this conversationId setMessages]. apply lookup_insert_eq.
  - by exists [].
Qed.


Lemma kept_in_last_20 (items more : list value) (u : value) :
  (length more <= 4)%nat -> u ∈ lastN 20 (items ++ u :: more).
Proof.
  intros Hlen. unfold lastN. rewrite drop_app_le.
  - set_solver.
  - rewrite length_app. cbn [length]. lia.
Qed.

(** C4. [sendMessage] first pushes the user's turn onto the history and
    writes it to storage, before any other effect and so before any request;
    whatever the later steps return or throw, the history at the end is the
    old one, that one user turn and assistant turns only, and the stored
    document holds the same history, the user's turn within its last 20. *)
Theorem user_turn_saved_before_network
    (w : world) (content : string) (items : list value) :
  messages (this w) = VArr items ->
  let u := turn "user" (VStr content) (clock (env w) (S (ticks w))) in
  let w' := snd (sendMessage content w) in
  (exists later,
     emitted w w'
     = SetItem storageKey (storedState (conversationId (this w)) (items ++ [u]))
       :: later) /\
  exists more,
    messages (this w') = VArr (items ++ u :: more) /\
    Forall isAssistant more /\
    localStorage w' !! storageKey
    = Some (storedState (conversationId (this w')) (items ++ u :: more)) /\
    u ∈ lastN 20 (items ++ u :: more).
Proof.
  intros Hitems u w'.
  destruct (sendMessage_keeps w content items Hitems)
    as [(more & Hm & Hall & Hlen & Hst) (later & Htr)].
  split.
  - exists later. unfold emitted. subst w'. rewrite Htr. apply drop_app_length.
  - exists more. repeat split; try done. by apply kept_in_last_20.
Qed.

(** A question whose answer fails to render is still in the history. *)
Lemma user_turn_saved_before_network_witness :
  let w := Demo.start (Demo.relay Demo.missingSchema) "" in
  let content := "Who won in 2008?" in
  let u := turn "user" (VStr content) (clock (env w) (S (ticks w))) in
  let w' := snd (sendMessage content w) in
  messages (this w) = VArr [] /\
  (exists later,
     emitted w w'
     = SetItem storageKey (storedState (conversationId (this w)) ([] ++ [u]))
       :: later) /\
  exists more,
    messages (this w') = VArr ([] ++ u :: more) /\
    Forall isAssistant more /\
    localStorage w' !! storageKey
    = Some (storedState (conversationId (this w')) ([] ++ u :: more)) /\
    u ∈ lastN 20 ([] ++ u :: more).
Proof.
  intros w content u w'. split; [reflexivity |].
  exact (user_turn_saved_before_network w content [] eq_refl).
Defined.

End Kept.

(** * The widget, end to end *)

Section Effects.
Import GenieChat.



Lemma calls_app evs evs' : calls (evs ++ evs') = calls evs ++ calls evs'.
Proof. induction evs as [| [] evs IH]; cbn; by rewrite ?IH. Qed.

Lemma calls_quiet es : forallb isSetItem es = true -> calls es = [].
Proof. induction es as [| [] es IH]; cbn; try done. Qed.

Lemma calls_pollEvents w mid attempt n :
  calls (pollEvents w mid attempt n) = replicate n (pollCall (conversationId (this w)) mid).
Proof.
  revert attempt. induction n as [| n IH]; intros attempt; [done |].
  cbn. by rewrite IH.
Qed.

(** What [addMessage] does to everything but the instance. *)
Lemma addMessage_effects role content w :
  let w' := snd (addMessage role content w) in
  (exists l, children (doc w') = children (doc w) ++ l /\ typingShown l = 0%nat) /\
  (exists es, trace w' = trace w ++ es /\ forallb isSetItem es = true) /\
  conversationId (this w') = conversationId (this w) /\
  isLoading (this w') = isLoading (this w) /\
  fetches w' = fetches w /\ env w' = env w.
Proof.
  unfold addMessage, saveState. run.
  destruct (jsIncludes "content" content "<") as [b | e]; cbn.
  { destruct (welcome (doc w) && String.eqb role "user"); fields.
    all: destruct (messages (this w)); fields; cbn [sliceLast]; fields.
    all: repeat split.
    all: try (eexists [_]; split; [reflexivity | by destruct b]).
    all: try (exists []; by rewrite app_nil_r).
    all: try (eexists [_]; split; [reflexivity | done]). }
  repeat split; exists []; by rewrite app_nil_r.
Qed.

(** [displayResult] acts on the world through [addMessage] only. *)
Lemma displayResult_inv (I : world -> Prop) (result : value) :
  (forall role content, leads I (addMessage role content) I) ->
  leads I (displayResult result) I.
Proof.
  intros Hadd. unfold displayResult.
  repeat first
    [ apply Hadd
    | apply leads_ret
    | apply leads_liftR
    | apply leads_if
    | eapply (leads_bind _ I); [| intros ? | done]
    | progress cbv zeta ].
Qed.

End Effects.

Section Yields.
Import GenieChat.
Context {A B : Type}.
Implicit Types (P : world -> Prop) (E : exn -> world -> Prop).

Lemma yields_ret P (Q : A -> world -> Prop) E (a : A) :
  (forall w, P w -> Q a w) -> yields P (ret a) Q E.
Proof. intros H w Hw. by apply H. Qed.

Lemma yields_throw P (Q : A -> world -> Prop) E (e : exn) :
  (forall w, P w -> E e w) -> yields P (throw e) Q E.
Proof. intros H w Hw. by apply H. Qed.

Lemma yields_liftR P E (r : result A) :
  (forall e w, P w -> E e w) -> yields P (liftR r) (fun _ => P) E.
Proof. intros H w Hw. destruct r; cbn; auto. Qed.

Lemma yields_bind P (Q : A -> world -> Prop) (R : B -> world -> Prop) E
      (c : M A) (k : A -> M B) :
  yields P c Q E -> (forall a, yields (Q a) (k a) R E) -> yields P (bind c k) R E.
Proof.
  intros Hc Hk w Hw. specialize (Hc w Hw). unfold bind.
  destruct (c w) as [[a | e] w']; [by apply Hk | done].
Qed.

Lemma yields_leads P (Q : world -> Prop) E (c : M A) :
  leads P c Q -> (forall e w, Q w -> E e w) -> yields P c (fun _ => Q) E.
Proof.
  intros Hc HE w Hw. specialize (Hc w Hw).
  destruct (c w) as [[a | e] w']; cbn in *; auto.
Qed.

Lemma yields_weaken P P' (Q Q' : A -> world -> Prop) E E' (c : M A) :
  yields P c Q E -> (forall w, P' w -> P w) -> (forall a w, Q a w -> Q' a w) ->
  (forall e w, E e w -> E' e w) -> yields P' c Q' E'.
Proof.
  intros Hc HP HQ HE w Hw. specialize (Hc w (HP w Hw)).
  destruct (c w) as [[a | e] w']; auto.
Qed.

Lemma yields_if P (Q : A -> world -> Prop) E (b : bool) (c c' : M A) :
  yields P c Q E -> yields P c' Q E -> yields P (if b then c else c') Q E.
Proof. by destruct b. Qed.

(** A handler sees every exception but the marker of what the model leaves
    out, which goes on to the caller. *)
Lemma yields_tryCatch P (Q : A -> world -> Prop) E E' (c : M A) (h : exn -> M A) :
  yields P c Q E ->
  (forall e, isUnmodelled e = false -> yields (E e) (h e) Q E') ->
  (forall e w, isUnmodelled e = true -> E e w -> E' e w) ->
  yields P (tryCatch c h) Q E'.
Proof.
  intros Hc Hh Hpass w Hw. specialize (Hc w Hw). unfold tryCatch.
  destruct (c w) as [[a | [m | m | m]] w']; [done | | | by apply Hpass].
  - by apply (Hh (JsError m)).
  - by apply (Hh (TypeError m)).
Qed.

Lemma yields_tryFinally P (Q Q' : A -> world -> Prop) E E' (c : M A) (f : M unit) :
  yields P c Q E ->
  (forall a, yields (Q a) f (fun _ => Q' a) E') ->
  (forall e, yields (E e) f (fun _ => E' e) E') ->
  yields P (tryFinally c f) Q' E'.
Proof.
  intros Hc Hq He w Hw. specialize (Hc w Hw). unfold tryFinally.
  destruct (c w) as [[a | e] w'].
  - specialize (Hq a w' Hc). by destruct (f w') as [[[] | e] w''].
  - specialize (He e w' Hc). by destruct (f w') as [[[] | e'] w''].
Qed.

End Yields.


Section Settles.
Import GenieChat.

Lemma saveState_effects (w : world) :
  let w' := snd (saveState w) in
  doc w' = doc w /\ this w' = this w /\ fetches w' = fetches w /\ env w' = env w /\
  exists es, trace w' = trace w ++ es /\ forallb isSetItem es = true.
Proof.
  unfold saveState. run. destruct (sliceLast _ _ _); cbn.
  - repeat split. by eexists [_].
  - repeat split. exists []. by rewrite app_nil_r.
Qed.

Lemma pollForResult_world (mid : value) (attempt : Z) (w : world) :
  exists n, (n <= Z.to_nat (maxAttempts - attempt))%nat /\
    snd (pollForResult mid attempt w) = advanced (pollEvents w mid attempt n) n w.
Proof.
  unfold pollForResult.
  destruct (pollFrom_world (Z.to_nat (maxAttempts - attempt)) mid attempt w)
    as (n & Hn & _ & Hw).
  by exists n.
Qed.






End Settles.


Section Protocol.
Import GenieChat.

Lemma stage_quiet {A} (c : M A) w0 P C :
  quiet c -> leads (stage w0 P C) c (stage w0 P C).
Proof.
  intros Hc w [(evs & Htr & HP) HC]. destruct (Hc w) as (Hcid & es & Hes & Hq).
  split; [| by rewrite Hcid].
  exists (evs ++ es). rewrite Hes, Htr, app_assoc. split; [done |].
  by rewrite calls_app, (calls_quiet es), app_nil_r.
Qed.

Lemma quiet_addMessage role content : quiet (addMessage role content).
Proof.
  intros w. destruct (addMessage_effects role content w) as (_ & Hes & Hcid & _).
  by split.
Qed.

Lemma quiet_saveState : quiet saveState.
Proof.
  intros w. destruct (saveState_effects w) as (_ & Hthis & _ & _ & Hes).
  split; [by rewrite Hthis | done].
Qed.

Lemma quiet_modifyDoc f : quiet (modifyDoc f).
Proof. intros w. split; [done |]. exists []. cbn. by rewrite app_nil_r. Qed.

Lemma quiet_displayResult result : quiet (displayResult result).
Proof.
  intros w0.
  pose (I := fun w => conversationId (this w) = conversationId (this w0) /\
                      exists es, trace w = trace w0 ++ es /\ forallb isSetItem es = true).
  apply (displayResult_inv I result).
  - intros role content w [Hcid (es & Hes & Hq)].
    destruct (quiet_addMessage role content w) as (Hcid' & es' & Hes' & Hq').
    split; [congruence |]. exists (es ++ es').
    rewrite Hes', Hes, app_assoc. split; [done |].
    rewrite forallb_app. by rewrite Hq, Hq'.
  - split; [done |]. exists []. by rewrite app_nil_r.
Qed.

Lemma yields_getThis (P : world -> Prop) E :
  yields P getThis (fun self w => P w /\ self = this w) E.
Proof. by intros w Hw. Qed.

Lemma yields_quiet {A} (c : M A) w0 P C (E : exn -> world -> Prop) :
  quiet c -> (forall e w, stage w0 P C w -> E e w) ->
  yields (stage w0 P C) c (fun _ => stage w0 P C) E.
Proof. intros Hc HE. apply yields_leads; [by apply stage_quiet | done]. Qed.

Lemma stage_call w0 (l : list (string * list (string * value))) C action params w :
  stage w0 (eq l) C w ->
  stage w0 (eq (l ++ [(action, params)])) C (snd (callAPI action params w)).
Proof.
  intros [(evs & Htr & HP) HC]. rewrite callAPI_world. split; [| done].
  exists (evs ++ [Fetch action params]). cbn. rewrite Htr, app_assoc.
  split; [done |]. rewrite calls_app. cbn. by rewrite <- HP.
Qed.

Lemma sendMessage_exchange (w0 : world) (content : string) :
  leads (fun w => w = w0) (sendMessage content)
        (stage w0 (inExchange (conversationId (this w0)) content) (fun _ => True)).
Proof.
  set (cid0 := conversationId (this w0)).
  set (R := stage w0 (inExchange cid0 content) (fun _ => True)).
  assert (Hnil : forall C w, stage w0 (eq []) C w -> R w).
  { intros C w [(evs & Htr & Hl) _]. split; [| done]. exists evs. split; [done |].
    exists cid0, VUndefined, 0%nat. split; [lia |]. split; [done |].
    rewrite <- Hl. apply prefix_nil. }
  assert (Hstart : forall C w, stage w0 (eq (startCalls cid0)) C w -> R w).
  { intros C w [(evs & Htr & Hl) _]. split; [| done]. exists evs. split; [done |].
    exists cid0, VUndefined, 0%nat. split; [lia |]. split; [done |].
    rewrite <- Hl. by apply prefix_app_r. }
  assert (Hpolls : forall cid mid w,
            stage w0 (fun l => exists n, (n <= 30)%nat /\ l = exchange cid0 cid mid content n)
                  (fun _ => truthy cid0 = true -> cid = cid0) w -> R w).
  { intros cid mid w [(evs & Htr & n & Hn & Hl) HC]. split; [| done].
    exists evs. split; [done |]. exists cid, mid, n. by rewrite Hl. }
  unfold sendMessage.
  apply (leads_tryFinally _ R).
  2: { apply stage_quiet. intros w. split; [done |]. exists []. cbn. by rewrite app_nil_r. }
  cut (yields (fun w => w = w0)
         (tryCatch
            (modifyThis (setIsLoading true) ;;
             modifyDoc (setProcessing true) ;;
             addMessage "user" (VStr content) ;;
             self <- getThis ;;
             (if negb (truthy (conversationId self)) then
                conversationData <- callAPI "start-conversation" [] ;;
                cid <- liftR (getProp conversationData "conversation_id") ;;
                modifyThis (setConversationId cid) ;;
                saveState
              else ret tt) ;;
             self <- getThis ;;
             messageData <- callAPI "send-message"
                              [("conversationId", conversationId self);
                               ("content", VStr content)] ;;
             messageId <- liftR (getProp messageData "id") ;;
             showTypingIndicator ;;
             result <- pollForResult messageId 0 ;;
             hideTypingIndicator ;;
             displayResult result)
            (fun error => hideTypingIndicator ;; showError (messageOf error) true))
         (fun _ => R) (fun _ => R)).
  { intros H w Hw. specialize (H w Hw). by destruct (tryCatch _ _ w) as [[[] | e] w1]. }
  apply (yields_tryCatch _ _ (fun _ => R)); [| | done].
  2: { intros e _. apply yields_quiet; [| done].
       intros w. split; [done |]. exists []. cbn. by rewrite app_nil_r. }
  pose (S0 := stage w0 (eq []) (eq cid0)).
  eapply yields_bind; [apply (yields_leads _ S0 (fun _ => R)) | intros ?].
  { intros w ->. split; [| done]. exists []. cbn. by rewrite app_nil_r. }
  { intros _. apply Hnil. }
  eapply yields_bind;
    [apply yields_quiet; [apply quiet_modifyDoc | intros _; apply Hnil] | intros ?].
  eapply yields_bind;
    [apply yields_quiet; [apply quiet_addMessage | intros _; apply Hnil] | intros ?].
  eapply yields_bind; [apply yields_getThis | intros self].
  pose (S1 := stage w0 (eq (startCalls cid0)) (fun c => truthy cid0 = true -> c = cid0)).
  eapply (yields_bind _ (fun _ => S1)); [| intros ?].
  { intros w [[Hev Hcid] ->]. rewrite <- Hcid. fold cid0.
    destruct (truthy cid0) eqn:Ht; cbn [negb].
    { split; [| done]. unfold startCalls. by rewrite Ht. }
    assert (Hone : stage w0 (eq (startCalls cid0)) (fun _ => True)
                         (snd (callAPI "start-conversation" [] w))).
    { unfold startCalls. rewrite Ht. by apply (stage_call w0 [] (fun _ => True)). }
    unfold bind at 1.
    destruct (callAPI "start-conversation" [] w) as [[data | e] w1]; cbn [snd] in Hone;
      [| by eapply Hstart].
    unfold bind at 1, liftR at 1.
    destruct (getProp data "conversation_id") as [cid | e]; [| by eapply Hstart].
    unfold bind at 1. cbn [modifyThis].
    assert (Htwo : stage w0 (eq (startCalls cid0)) (fun _ => True)
                         (withThis (setConversationId cid) w1)).
    { destruct Hone as [Hev1 _]. by split. }
    pose proof (stage_quiet saveState _ _ _ quiet_saveState _ Htwo) as Hthree.
    destruct (saveState (withThis (setConversationId cid) w1)) as [[[] | e] w2];
      cbn [snd] in Hthree; [| by eapply Hstart].
    destruct Hthree as [Hev3 _]. split; [done |]. congruence. }
  eapply yields_bind; [apply yields_getThis | intros self'].
  set (cid := conversationId self').
  pose (S2 := stage w0 (eq (startCalls cid0 ++ [("send-message", sendParams cid content)]))
                (fun c => c = cid /\ (truthy cid0 = true -> cid = cid0))).
  eapply (yields_bind _ (fun _ => S2)); [| intros messageData].
  { intros w [[Hev Hcid] ->].
    assert (Hsent : S2 (snd (callAPI "send-message" (sendParams (conversationId (this w)) content) w))).
    { destruct (stage_call w0 (startCalls cid0) (fun _ => True) "send-message"
                  (sendParams (conversationId (this w)) content) w) as [Hev' _]; [by split |].
      split; [exact Hev' |]. rewrite callAPI_world. cbn. by split. }
    change [("conversationId", conversationId (this w)); ("content", VStr content)]
      with (sendParams (conversationId (this w)) content).
    destruct (callAPI "send-message" _ w) as [[data | e] w1]; cbn [snd] in Hsent; [done |].
    destruct Hsent as [(evs & Htr & Hl) [_ Hc]]. split; [| done].
    exists evs. split; [done |]. exists (conversationId (this w)), VUndefined, 0%nat.
    split; [lia |]. split; [done |]. rewrite <- Hl. unfold exchange. cbn. done. }
  assert (Hsent : forall w, S2 w -> R w).
  { intros w [(evs & Htr & Hl) [_ Hc]]. split; [| done].
    exists evs. split; [done |]. exists cid, VUndefined, 0%nat.
    split; [lia |]. split; [done |]. by rewrite <- Hl. }
  eapply yields_bind; [apply yields_liftR; intros _; apply Hsent | intros mid].
  eapply yields_bind;
    [apply yields_quiet; [apply quiet_modifyDoc | intros _; apply Hsent] | intros ?].
  pose (S3 := stage w0 (fun l => exists n, (n <= 30)%nat /\ l = exchange cid0 cid mid content n)
                (fun _ => truthy cid0 = true -> cid = cid0)).
  eapply (yields_bind _ (fun _ => S3)); [apply yields_leads | intros result].
  { intros w [(evs & Htr & Hl) [Hcid Hc]].
    destruct (pollForResult_world mid 0 w) as (n & Hn & ->). split; [| done].
    exists (evs ++ pollEvents w mid 0 n). cbn. rewrite Htr, app_assoc. split; [done |].
    exists n. split; [exact Hn |]. rewrite calls_app, calls_pollEvents, <- Hl, Hcid.
    unfold exchange. by rewrite <- app_assoc. }
  { intros _. apply Hpolls. }
  eapply yields_bind;
    [apply yields_quiet; [apply quiet_modifyDoc | intros _; apply Hpolls] | intros ?].
  apply (yields_weaken S3 S3 (fun _ => S3) (fun _ => R) (fun _ => R) (fun _ => R));
    [apply yields_quiet; [apply quiet_displayResult | intros ?; apply Hpolls]
    | done | intros ?; apply Hpolls | done].
Qed.

End Protocol.


Section ProtocolTheorems.
Import GenieChat.

Lemma requests_calls (evs : list event) : requests evs = map fst (calls evs).
Proof. induction evs as [| [] evs IH]; cbn; by rewrite ?IH. Qed.

Lemma stage_emitted w0 P C w : stage w0 P C w -> P (calls (emitted w0 w)).
Proof.
  intros [(evs & Htr & HP) _]. unfold emitted. by rewrite Htr, drop_app_length.
Qed.

(** X2. The requests of one submission are an initial part of the exchange:
    start-conversation when there is no conversation yet, then send-message
    with the conversation handle and the text, then at most 30 poll-result
    requests that all name that conversation and the same message; so a
    submission costs at most 32 requests. *)
Theorem sendMessage_protocol (w : world) (content : string) :
  let cid0 := conversationId (this w) in
  let made := calls (emitted w (snd (sendMessage content w))) in
  (exists cid messageId n,
     (n <= 30)%nat /\ (truthy cid0 = true -> cid = cid0) /\
     made `prefix_of` exchange cid0 cid messageId content n) /\
  (length made <= 32)%nat.
Proof.
  intros cid0 made.
  pose proof (stage_emitted _ _ _ _ (sendMessage_exchange w content w eq_refl)) as H.
  split; [exact H |].
  destruct H as (cid & mid & n & Hn & _ & Hpre).
  apply prefix_length in Hpre. fold made in Hpre.
  unfold exchange in Hpre. rewrite length_app in Hpre. cbn [length] in Hpre.
  rewrite length_replicate in Hpre.
  assert (length (startCalls cid0) <= 1)%nat.
  { unfold startCalls. destruct (truthy cid0); cbn; lia. }
  subst cid0. lia.
Qed.

(** X3. Whatever [handleSend] sends was validated: a request is made only
    for a trimmed text of 5 to 1000 characters and only when no query is in
    flight, and the send-message request carries exactly that text. *)
Theorem only_valid_text_is_sent (w : world) (action : string)
    (params : list (string * value)) :
  (action, params) ∈ calls (emitted w (snd (handleSend w))) ->
  let text := trim (inputValue (doc w)) in
  5 <= strlen text <= 1000 /\
  isLoading (this w) = false /\
  (action = "send-message" -> assoc "content" params = Some (VStr text)).
Proof.
  intros Hin text. subst text.
  destruct (Z.lt_ge_cases (strlen (trim (inputValue (doc w)))) 5) as [Hs | Hs].
  { rewrite (handleSend_too_short w Hs) in Hin. cbn [snd] in Hin.
    unfold alerted in Hin. rewrite emitted_advanced in Hin. cbn in Hin. set_solver. }
  destruct (Z.lt_ge_cases 1000 (strlen (trim (inputValue (doc w))))) as [Hl | Hl].
  { rewrite (handleSend_too_long w Hl) in Hin. cbn [snd] in Hin.
    unfold alerted in Hin. rewrite emitted_advanced in Hin. cbn in Hin. set_solver. }
  destruct (isLoading (this w)) eqn:Hbusy.
  { rewrite (handleSend_busy w Hbusy) in Hin by lia. cbn [snd] in Hin.
    unfold emitted in Hin. rewrite drop_all in Hin. cbn in Hin. set_solver. }
  split; [lia |]. split; [done |].
  rewrite (handleSend_accepted w Hbusy) in Hin by lia.
  set (t := trim (inputValue (doc w))) in *.
  set (w1 := withThis _ _) in Hin.
  pose proof (stage_emitted _ _ _ _ (sendMessage_exchange w1 t w1 eq_refl)) as H.
  change (emitted w (snd (sendMessage t w1))) with (emitted w1 (snd (sendMessage t w1))) in Hin.
  destruct H as (cid & mid & n & _ & _ & [rest Hpre]).
  assert (Hin' : (action, params) ∈ exchange (conversationId (this w1)) cid mid t n).
  { rewrite Hpre. set_solver. }
  unfold exchange, startCalls in Hin'.
  intros ->. apply elem_of_app in Hin' as [Hin' | Hin'].
  { destruct (truthy _); [by apply not_elem_of_nil in Hin' |].
    apply list_elem_of_singleton in Hin'. discriminate Hin'. }
  apply elem_of_cons in Hin' as [Heq | Hin'].
  { by injection Heq as ->. }
  apply elem_of_replicate in Hin' as [Heq _]. discriminate Heq.
Qed.

Lemma only_valid_text_is_sent_witness :
  let w := Demo.stalled in
  let params := [("conversationId", VStr "c1");
                 ("content", VStr "Who won the most championships?")] in
  ("send-message", params) ∈ calls (emitted w (snd (handleSend w))) /\
  5 <= strlen (trim (inputValue (doc w))) <= 1000 /\
  isLoading (this w) = false /\
  ("send-message" = "send-message" ->
   assoc "content" params = Some (VStr (trim (inputValue (doc w))))).
Proof.
  intros w params.
  assert (H : ("send-message", params) ∈ calls (emitted w (snd (handleSend w)))).
  { vm_compute. repeat constructor. }
  split; [exact H |].
  exact (only_valid_text_is_sent w "send-message" params H).
Defined.

End ProtocolTheorems.


Section Calls.
Import GenieChat.

Lemma callAPI_payload (action : string) (params : list (string * value))
      (w : world) (data : value) :
  payloadOf (respond (env w) (fetches w) action params) = Some data ->
  callAPI action params w = (Ok data, advanced [Fetch action params] 1 w).
Proof.
  unfold payloadOf, callAPI, fetch. run.
  destruct (respond (env w) (fetches w) action params) as [e | r]; [done |].
  destruct r as [okr st ct [result | e]]; cbn; destruct okr; cbn; try done.
  destruct (getProp result "success") as [success | e]; cbn; [| done].
  destruct (getProp result "data") as [data' | e]; cbn; [| done].
  destruct (truthy success); cbn; [| done].
  by intros [= ->].
Qed.

Lemma callAPI_ok_payload (action : string) (params : list (string * value))
      (w : world) (data : value) :
  fst (callAPI action params w) = Ok data ->
  payloadOf (respond (env w) (fetches w) action params) = Some data.
Proof.
  unfold payloadOf, callAPI, fetch. run.
  destruct (respond (env w) (fetches w) action params) as [e | r].
  { cbn. destruct e; cbn; [| | done]; by case_match. }
  destruct r as [okr st ct [result | e]]; cbn; destruct okr; cbn.
  + destruct (getProp result "success") as [success | e]; cbn.
    2: { destruct e; cbn; [| | done]; by case_match. }
    destruct (truthy success); cbn.
    2: { destruct (getProp result "error") as [detail | e]; cbn.
         - by case_match.
         - destruct e; cbn; [| | done]; by case_match. }
    destruct (getProp result "data") as [data' | e]; cbn; [by intros [= ->] |].
    destruct e; cbn; [| | done]; by case_match.
  + repeat (case_match; simplify_eq; cbn; try done).
  + destruct e; cbn; [| | done]; by case_match.
  + repeat (case_match; simplify_eq; cbn; try done).
Qed.

Lemma callAPI_no_payload (action : string) (params : list (string * value))
      (w : world) :
  payloadOf (respond (env w) (fetches w) action params) = None ->
  exists e, callAPI action params w = (Throw e, advanced [Fetch action params] 1 w).
Proof.
  intros Hnone. pose proof (callAPI_world action params w) as Hw.
  pose proof (callAPI_ok_payload action params w) as Hok.
  destruct (callAPI action params w) as [[data | e] w']; cbn in *; subst w'.
  - specialize (Hok data eq_refl). congruence.
  - by exists e.
Qed.

(** X4. [callAPI] sends exactly one request and touches nothing else; it
    returns a payload exactly when the response has an OK status and its body
    is an envelope with a truthy [success], and then it returns that
    envelope's [data]. *)
Theorem callAPI_returns_payload (action : string) (params : list (string * value))
    (w : world) (data : value) :
  snd (callAPI action params w) = advanced [Fetch action params] 1 w /\
  (fst (callAPI action params w) = Ok data <->
   payloadOf (respond (env w) (fetches w) action params) = Some data).
Proof.
  split; [apply callAPI_world |]. split.
  - apply callAPI_ok_payload.
  - intros H. by rewrite (callAPI_payload _ _ _ _ H).
Qed.

End Calls.


Section PollOutcome.
Import GenieChat.

Lemma pollEvents_snoc (w : world) (mid : value) (attempt : Z) (n : nat) :
  pollEvents w mid attempt (S n)
  = pollEvents w mid attempt n ++
    [Timeout (delayOf (attempt + Z.of_nat n)); Fetch "poll-result" (pollParams w mid)].
Proof.
  revert attempt. induction n as [| n IH]; intros attempt.
  - cbn. by rewrite Z.add_0_r.
  - change (pollEvents w mid attempt (S (S n)))
      with (Timeout (delayOf attempt) :: Fetch "poll-result" (pollParams w mid) ::
            pollEvents w mid (attempt + 1) (S n)).
    rewrite IH. replace (attempt + Z.of_nat (S n)) with (attempt + 1 + Z.of_nat n) by lia.
    reflexivity.
Qed.

(** The polls that find the service still working, followed by one more. *)
Lemma pollFrom_until (k budget : nat) (mid : value) (attempt : Z) (w : world) :
  attempt + Z.of_nat k < maxAttempts -> (k < budget)%nat ->
  (forall i, (i < k)%nat ->
     stillWorking (respond (env w) (i + fetches w) "poll-result" (pollParams w mid)) = true) ->
  pollFrom budget mid attempt w
  = pollFrom (budget - k) mid (attempt + Z.of_nat k)
      (advanced (pollEvents w mid attempt k) k w).
Proof.
  revert budget attempt w. induction k as [| k IH]; intros budget attempt w Hatt Hb Hstill.
  { cbn. rewrite advanced_nil, Z.add_0_r. by replace (budget - 0)%nat with budget by lia. }
  destruct budget as [| budget]; [lia |].
  cbn [pollFrom]. destruct (Z.leb_spec maxAttempts attempt); [lia |].
  set (w1 := advanced [Timeout (delayOf attempt)] 0 w).
  destruct (callAPI_still_working "poll-result" (pollParams w mid) w1)
    as (data & status & Hcall & Hstatus & Hc & Hf).
  { apply (Hstill 0%nat). lia. }
  unfold bind at 1. change (sleep (delayOf attempt) w) with (Ok tt, w1).
  unfold bind at 1. cbn [getThis].
  change [("conversationId", conversationId (this w1)); ("messageId", mid)]
    with (pollParams w mid).
  unfold bind at 1. rewrite Hcall.
  unfold bind at 1. cbn [liftR]. rewrite Hstatus, Hc, Hf.
  set (w2 := advanced [Fetch "poll-result" (pollParams w mid)] 1 w1).
  assert (Hnext : pollFrom budget mid (attempt + 1) w2
                  = pollFrom (S budget - S k) mid (attempt + Z.of_nat (S k))
                      (advanced (pollEvents w mid attempt (S k)) (S k) w)).
  { rewrite (IH budget (attempt + 1) w2); [| lia | lia |].
    - f_equal; [lia |]. subst w2 w1. rewrite !advanced_advanced. cbn.
      rewrite (pollEvents_this w); [| done]. f_equal. lia.
    - intros i Hi. subst w2 w1. cbn [advanced env fetches Nat.add].
      change (pollParams _ mid) with (pollParams w mid).
      replace (i + S (fetches w))%nat with (S i + fetches w)%nat by lia.
      apply (Hstill (S i)). lia. }
  destruct (_ || _); exact Hnext.
Qed.

Lemma pollFrom_last (budget : nat) (mid : value) (attempt : Z) (w : world)
      (data : value) :
  attempt < maxAttempts ->
  payloadOf (respond (env w) (fetches w) "poll-result" (pollParams w mid)) = Some data ->
  pollFrom (S budget) mid attempt w
  = (status <- liftR (getProp data "status") ;;
     if isStr status "EXECUTING" || isStr status "FILTERING_CONTEXT"
        || isStr status "QUERY_RESULT_EXPIRED" then
       pollFrom budget mid (attempt + 1)
     else if isStr status "COMPLETED" then ret data
     else if isStr status "FAILED" then
       errorMessage <- failureMessage data ;;
       scanAttachments data ;;
       throw (JsError errorMessage)
     else pollFrom budget mid (attempt + 1))
      (advanced (pollEvents w mid attempt 1) 1 w).
Proof.
  intros Hatt Hpay. cbn [pollFrom].
  destruct (Z.leb_spec maxAttempts attempt); [lia |].
  set (w1 := advanced [Timeout (delayOf attempt)] 0 w).
  unfold bind at 1. change (sleep (delayOf attempt) w) with (Ok tt, w1).
  unfold bind at 1. cbn [getThis].
  change [("conversationId", conversationId (this w1)); ("messageId", mid)]
    with (pollParams w mid).
  unfold bind at 1. rewrite (callAPI_payload _ _ w1 data Hpay).
  subst w1. by rewrite advanced_advanced.
Qed.

Lemma sumZ_app (l l' : list Z) : sumZ (l ++ l') = sumZ l + sumZ l'.
Proof. unfold sumZ. induction l as [| x l IH]; cbn; [done |]. rewrite IH. lia. Qed.

Lemma sum_waits_pollEvents (w : world) (mid : value) (n : nat) :
  sumZ (waits (pollEvents w mid 0 n)) = scheduleSum 0 n.
Proof. by rewrite waits_pollEvents. Qed.

(** X5. When the first [k] polls find the service still working and the
    next one says COMPLETED, [pollForResult] returns that message after
    exactly [k + 1] status requests, having waited the first [k + 1] delays
    of the schedule. *)
Theorem pollForResult_completes (w : world) (messageId data : value) (k : nat) :
  (k < 30)%nat ->
  (forall i, (i < k)%nat ->
     stillWorking (respond (env w) (i + fetches w) "poll-result"
                     (pollParams w messageId)) = true) ->
  payloadOf (respond (env w) (k + fetches w) "poll-result" (pollParams w messageId))
  = Some data ->
  getProp data "status" = Ok (VStr "COMPLETED") ->
  let evs := emitted w (snd (pollForResult messageId 0 w)) in
  fst (pollForResult messageId 0 w) = Ok data /\
  requests evs = replicate (S k) "poll-result" /\
  sumZ (waits evs) = scheduleSum 0 (S k).
Proof.
  intros Hk Hstill Hpay Hstatus evs. subst evs. unfold pollForResult.
  change (Z.to_nat (maxAttempts - 0)) with 30%nat.
  rewrite (pollFrom_until k 30 messageId 0 w); [| unfold maxAttempts; lia | lia | done].
  replace (30 - k)%nat with (S (29 - k)) by lia.
  set (wk := advanced (pollEvents w messageId 0 k) k w).
  rewrite (pollFrom_last _ _ _ wk data); [| unfold maxAttempts; lia |].
  2: { exact Hpay. }
  rewrite Hstatus. cbn [liftR bind isStr String.eqb Ascii.eqb Bool.eqb orb ret fst snd].
  subst wk. rewrite advanced_advanced.
  rewrite (pollEvents_this w (advanced (pollEvents w messageId 0 k) k w)) by done.
  change (pollEvents w messageId (0 + Z.of_nat k) 1)
    with [Timeout (delayOf (0 + Z.of_nat k));
          Fetch "poll-result" (pollParams w messageId)].
  rewrite <- pollEvents_snoc, emitted_advanced.
  split; [done |]. split; [apply requests_pollEvents | apply sum_waits_pollEvents].
Qed.

(** An answer that is ready at the third poll. *)
Lemma pollForResult_completes_witness :
  let w := Demo.start (Demo.finishing 2 (Demo.narrativeOnly "Hamilton, with 103 wins.")) "" in
  let data := Demo.narrativeOnly "Hamilton, with 103 wins." in
  let evs := emitted w (snd (pollForResult (VStr "m1") 0 w)) in
  fst (pollForResult (VStr "m1") 0 w) = Ok data /\
  requests evs = replicate 3 "poll-result" /\
  sumZ (waits evs) = scheduleSum 0 3.
Proof.
  intros w data.
  apply (pollForResult_completes w (VStr "m1") data 2); [lia | | reflexivity | reflexivity].
  intros [| [| i]] Hi; [reflexivity | reflexivity | lia].
Defined.

End PollOutcome.


Section PollFailure.
Import GenieChat.


Lemma getProp_ok (v : value) (name : string) :
  isNullish v = false -> exists x, getProp v name = Ok x.
Proof. destruct v; try done; cbn; eauto. Qed.





End PollFailure.


Section Masking.
Import GenieChat.

(** X7. No error leaves [callAPI] with JSON in its message: whatever fails
    with such a message, a body that does not parse or an error text of the
    server, is replaced by the fixed invalid-response message. *)
Theorem callAPI_masks_json_errors (action : string) (params : list (string * value))
    (w : world) (e : exn) :
  fst (callAPI action params w) = Throw e ->
  isUnmodelled e = false ->
  includes (messageOf e) "JSON" = false /\
  forall e0, (fst (fetch action params w) = Throw e0 \/
              exists r, fst (fetch action params w) = Ok r /\ ok r = true /\
                        body r = Throw e0) ->
             includes (messageOf e0) "JSON" = true ->
             e = JsError invalidResponse.
Proof.
  unfold callAPI, tryCatch.
  match goal with
  | |- context [match ?c w with _ => _ end] => destruct (c w) as [[a | e1] w1] eqn:Hc
  end; [done |].
  assert (Hmask : forall m, fst ((if includes m "JSON"
                           then throw (JsError invalidResponse)
                           else throw (JsError m) : M value) w1) = Throw e ->
                           includes (messageOf e) "JSON" = false).
  { intros m. destruct (includes m "JSON") eqn:Hm; cbn; intros [= <-]; done. }
  intros He Hun. split.
  - destruct e1 as [m | m | m]; cbn [messageOf fst] in He.
    + by apply (Hmask m).
    + destruct (includes m "JSON") eqn:Hm; cbn in He; injection He as <-; done.
    + injection He as <-. done.
  - intros e0 Hsrc Hjson.
    assert (e1 = e0) as ->.
    { revert Hc. unfold bind at 1.
      destruct Hsrc as [Hf | (r & Hf & Hok & Hbody)];
        destruct (fetch action params w) as [[r' | e'] w'']; cbn in Hf; simplify_eq.
      - by intros [= -> _].
      - rewrite Hok. cbn [negb]. rewrite bind_ret, Hbody. by intros [= -> _]. }
    destruct e0 as [m | m | m]; cbn [messageOf] in *; rewrite ?Hjson in He; cbn in He.
    + by injection He as <-.
    + by injection He as <-.
    + injection He as <-. done.
Qed.

(** A gateway that answers with a page of HTML. *)
Lemma callAPI_masks_json_errors_witness :
  let w := Demo.start Demo.errorPage "" in
  fst (callAPI "start-conversation" [] w) = Throw (JsError invalidResponse) /\
  includes invalidResponse "JSON" = false.
Proof.
  intros w. split; [reflexivity |].
  apply (callAPI_masks_json_errors "start-conversation" [] w (JsError invalidResponse));
    reflexivity.
Defined.

End Masking.


Section Escaping.
Import GenieChat.

Lemma codeOf_inj (c d : ascii) : codeOf c = codeOf d -> c = d.
Proof.
  unfold codeOf. intros H%N2Z.inj.
  by rewrite <- (ascii_N_embedding c), <- (ascii_N_embedding d), H.
Qed.

Lemma escapeChar_inj (c d : ascii) (x y : string) :
  DOM.escapeChar c +:+ x = DOM.escapeChar d +:+ y -> c = d /\ x = y.
Proof.
  unfold DOM.escapeChar.
  destruct (codeOf c =? 38) eqn:Hc1; [apply Z.eqb_eq in Hc1 |];
    [| destruct (codeOf c =? 60) eqn:Hc2; [apply Z.eqb_eq in Hc2 |];
       [| destruct (codeOf c =? 62) eqn:Hc3; [apply Z.eqb_eq in Hc3 |];
          [| destruct (codeOf c =? 160) eqn:Hc4; [apply Z.eqb_eq in Hc4 |]]]].
  all: destruct (codeOf d =? 38) eqn:Hd1; [apply Z.eqb_eq in Hd1 |];
    [| destruct (codeOf d =? 60) eqn:Hd2; [apply Z.eqb_eq in Hd2 |];
       [| destruct (codeOf d =? 62) eqn:Hd3; [apply Z.eqb_eq in Hd3 |];
          [| destruct (codeOf d =? 160) eqn:Hd4; [apply Z.eqb_eq in Hd4 |]]]].
  all: cbn [String.append]; intros Heq; try discriminate Heq.
  all: try (injection Heq as ->; split; [apply codeOf_inj; congruence | done]).
  all: try (injection Heq as -> ->; done).
  all: try (injection Heq as H1 H2; subst d;
            vm_compute in Hd1, Hd2, Hd3, Hd4; congruence).
  all: try (injection Heq as H1 H2; subst c;
            vm_compute in Hc1, Hc2, Hc3, Hc4; congruence).
Qed.

Lemma serializeText_inj (s t : string) :
  DOM.serializeText s = DOM.serializeText t -> s = t.
Proof.
  revert t. induction s as [| c s IH]; intros [| d t]; cbn [DOM.serializeText].
  - done.
  - unfold DOM.escapeChar. by repeat case_match.
  - unfold DOM.escapeChar. by repeat case_match.
  - intros [-> H]%escapeChar_inj. by rewrite (IH t H).
Qed.

(** X8. [escapeHtml] is safe and loses nothing: its result never holds a
    [<] or a [>], two different texts never escape to the same string, and a
    text without [&], [<], [>] and no-break space is left as it is. *)
Theorem escapeHtml_faithful (s t : string) :
  includes (escapeHtml (VStr s)) "<" = false /\
  includes (escapeHtml (VStr s)) ">" = false /\
  (escapeHtml (VStr s) = escapeHtml (VStr t) -> s = t) /\
  (plainText s = true -> escapeHtml (VStr s) = s).
Proof.
  unfold escapeHtml. cbn [DOM.textOf toString].
  split; [apply serializeText_no_lt |]. split; [apply serializeText_no_gt |].
  split; [apply serializeText_inj |].
  induction s as [| c s IH]; [done |].
  cbn [plainText DOM.serializeText]. intros [Hc Hs]%andb_prop.
  rewrite (IH Hs). unfold needsEscape in Hc. unfold DOM.escapeChar.
  apply negb_true_iff in Hc. repeat apply orb_false_elim in Hc as [Hc ?].
  by rewrite Hc, H1, H0, H.
Qed.

End Escaping.


Section Restoring.
Import JSON.
Import GenieChat.




Lemma jsIncludes_str (what s needle : string) :
  jsIncludes what (VStr s) needle = Ok (includes s needle).
Proof. reflexivity. Qed.

Lemma restoreMessage_turn (t : string * string * Z) (w : world) :
  restoreMessage (turnOf t) w
  = (Ok tt, withDoc (fun p => setChildren
                                (children p ++ [restoredDiv (fst (fst t)) (snd (fst t))]) p) w).
Proof.
  destruct t as [[role s] ts]. unfold restoreMessage, turnOf, turn, restoredDiv, bodyOf.
  cbn [fst snd getProp assoc String.eqb Ascii.eqb Bool.eqb default].
  rewrite !bind_liftR_ok. unfold id. cbn [jsIncludes]. rewrite bind_liftR_ok.
  unfold appendChild, modifyDoc. cbn [toString DOM.textOf].
  by destruct (includes s "<").
Qed.

Lemma forEach_restore (ts : list (string * string * Z)) (w : world) :
  forEach restoreMessage (map turnOf ts) w
  = (Ok tt, withDoc (fun p => setChildren
                                (children p ++
                                 map (fun t => restoredDiv (fst (fst t)) (snd (fst t))) ts) p) w).
Proof.
  revert w. induction ts as [| t ts IH]; intros w.
  - destruct w as [th [iv sd pr we ch] ls tr fe ti en].
    unfold withDoc, setChildren. cbn. by rewrite app_nil_r.
  - cbn [map forEach]. rewrite (bind_ok _ _ _ _ _ (restoreMessage_turn t w)).
    rewrite IH. f_equal. unfold withDoc, setChildren. cbn. by rewrite <- app_assoc.
Qed.

Lemma storable_turnOf (ts : list (string * string * Z)) :
  forallb storable (map turnOf ts) = true.
Proof. induction ts as [| [[role s] t] ts IH]; [done |]. cbn. exact IH. Qed.

Lemma lastN_map {A B} (f : A -> B) (n : nat) (l : list A) :
  lastN n (map f l) = map f (lastN n l).
Proof.
  unfold lastN. rewrite length_map.
  change (map f l) with (f <$> l). by rewrite fmap_drop.
Qed.

Lemma loadState_turns (w0 : world) (cid : value) (turns : list (string * string * Z)) :
  localStorage w0 !! storageKey = Some (storedState cid (map turnOf turns)) ->
  cid = VUndefined \/ JSON.storable cid = true ->
  loadState w0
  = (Ok tt,
     withDoc (fun p => setChildren
                         (children p ++
                          map (fun t => restoredDiv (fst (fst t)) (snd (fst t)))
                              (lastN 20 turns))
                         (match turns with [] => p | _ => setWelcome false p end))
       (withThis (fun i => setMessages (VArr (map turnOf (lastN 20 turns)))
                             (setConversationId cid i)) w0)).
Proof.
  intros Hget Hcid.
  destruct (storedState_parse cid (map turnOf turns) (storable_turnOf turns) Hcid)
    as (state & Hparse & Hid & Hmsgs).
  unfold loadState, tryCatch, getItem. unfold bind at 1. rewrite Hget.
  pose proof (storedState_text cid (map turnOf turns)) as Hne.
  apply String.eqb_neq in Hne. rewrite Hne.
  rewrite Hparse, bind_liftR_ok, Hid, bind_liftR_ok.
  rewrite (bind_ok _ _ _ _ _ eq_refl : bind (modifyThis _) _ w0 = _).
  rewrite Hmsgs, bind_liftR_ok. cbn [truthy].
  rewrite (bind_ok _ _ _ _ _ eq_refl : bind (modifyThis _) _ _ = _).
  cbn [getProp String.eqb Ascii.eqb Bool.eqb]. rewrite bind_liftR_ok.
  cbn [gtZero]. rewrite bind_liftR_ok. rewrite lastN_map.
  destruct turns as [| t turns].
  { change (lastN 20 (@nil (string * string * Z))) with (@nil (string * string * Z)).
    destruct w0 as [th [iv sd pr we ch] ls tr fe ti en].
    cbn. unfold withDoc, setChildren. cbn. by rewrite app_nil_r. }
  assert (Hpos : (0 <? Z.of_nat (length (map turnOf (lastN 20 (t :: turns))))) = true).
  { apply Z.ltb_lt. rewrite length_map. unfold lastN. rewrite length_drop.
    cbn [length]. lia. }
  rewrite Hpos.
  rewrite (bind_ok _ _ _ _ _ eq_refl : bind (modifyDoc _) _ _ = _).
  cbn [itemsOf]. rewrite bind_liftR_ok, forEach_restore. done.
Qed.

(** X10. After a reload the stored turns are shown again: the constructor
    appends one message element for each of the last 20 turns, in order, with
    the role in its class and the text as [addMessage] had put it, but without
    a time stamp; the welcome note goes when there is a turn to show. *)
Theorem history_is_redisplayed (w reloaded : world)
    (turns : list (string * string * Z)) :
  messages (this w) = VArr (map turnOf turns) ->
  conversationId (this w) = VUndefined \/
    JSON.storable (conversationId (this w)) = true ->
  localStorage reloaded = localStorage (snd (saveState w)) ->
  let w' := snd (construct reloaded) in
  fst (construct reloaded) = Ok tt /\
  children (doc w')
  = children (doc reloaded) ++
    map (fun t => restoredDiv (fst (fst t)) (snd (fst t))) (lastN 20 turns) /\
  welcome (doc w')
  = (match turns with [] => welcome (doc reloaded) | _ => false end).
Proof.
  intros Hitems Hcid Hstorage w'. subst w'.
  destruct (saveState_array w _ Hitems) as (_ & _ & Hsaved & _).
  unfold construct.
  rewrite (bind_ok _ _ _ _ _ eq_refl : bind (modifyThis _) _ reloaded = _).
  rewrite (loadState_turns _ (conversationId (this w)) turns); [| | done].
  - cbn [fst snd]. split; [done |]. by destruct turns.
  - cbn [withThis localStorage]. rewrite Hstorage, Hsaved. apply lookup_insert_eq.
Qed.

(** A session of 25 turns, saved and loaded again. *)
Lemma history_is_redisplayed_witness :
  let w := Demo.longSession in
  let reloaded := snd (saveState w) in
  messages (this w) = VArr (map turnOf (Demo.questions 25)) /\
  fst (construct reloaded) = Ok tt /\
  children (doc (snd (construct reloaded)))
  = children (doc reloaded) ++
    map (fun t => restoredDiv (fst (fst t)) (snd (fst t))) (lastN 20 (Demo.questions 25)) /\
  welcome (doc (snd (construct reloaded))) = false.
Proof.
  intros w reloaded. split; [reflexivity |].
  apply (history_is_redisplayed w reloaded (Demo.questions 25));
    [reflexivity | right; reflexivity | reflexivity].
Defined.

End Restoring.


Section ErrorBox.
Import GenieChat.

Lemma occurrences_app (c : ascii) (a b : string) :
  occurrences c (a +:+ b) = (occurrences c a + occurrences c b)%nat.
Proof. induction a as [| x a IH]; cbn; [done |]. rewrite IH. lia. Qed.

Lemma occurrences_serializeText (s : string) :
  occurrences "<" (DOM.serializeText s) = 0%nat.
Proof.
  induction s as [| c s IH]; [done |].
  cbn [DOM.serializeText]. rewrite occurrences_app, IH, Nat.add_0_r.
  unfold DOM.escapeChar.
  destruct (codeOf c =? 38); [reflexivity |].
  destruct (codeOf c =? 60) eqn:Hc; [reflexivity |].
  destruct (codeOf c =? 62); [reflexivity |].
  destruct (codeOf c =? 160); [reflexivity |].
  cbn. destruct (Ascii.eqb_spec c "<") as [-> |]; [discriminate Hc | reflexivity].
Qed.

(** X11. [showError] shows the message as text. Whatever the message holds,
    the box it appends has the tags of its template and no other: four [<]
    without the retry button, six with it, and the wording [showError] chose
    for the message stands in it escaped. *)
Theorem showError_shows_text (message : string) (canRetry : bool) (w : world) :
  exists html,
    showError message canRetry w
    = (Ok tt, withDoc (fun p => setChildren (children p ++ [ErrorDiv html canRetry]) p) w) /\
    occurrences "<" html = (if canRetry then 6 else 4)%nat /\
    occursIn ("<p><strong>Error:</strong> " +:+
              escapeHtml (VStr (displayMessageOf message)) +:+ "</p>") html.
Proof.
  unfold showError. eexists. split; [reflexivity |]. split.
  - unfold escapeHtml, nl. cbn [DOM.textOf toString].
    rewrite !occurrences_app, occurrences_serializeText.
    by destruct canRetry.
  - unfold nl. cbn [String.append].
    do 13 apply occursIn_cons.
    exists "", (nl +:+ "            " +:+
                (if canRetry
                 then "<button " +:+ DOM.attr "class" "genie-retry-btn" +:+ ">Retry</button>"
                 else "") +:+ nl +:+ "        ").
    cbn [String.append]. rewrite !str_app_assoc. reflexivity.
Qed.

End ErrorBox.


Section Answering.
Import GenieChat.

Lemma addMessage_answers (items : list value) (lo hi : nat) (content : value) :
  yields (answered items lo hi) (addMessage "assistant" content)
         (fun _ => answered items (S lo) (S hi)) (fun _ _ => True).
Proof.
  intros w (more & Hm & Hlen & Hall).
  destruct (jsIncludes "content" content "<") as [b | e] eqn:Hb.
  2: { by rewrite (addMessage_throws _ _ _ _ Hb). }
  destruct (addMessage_pushes "assistant" content b _ w Hb Hm) as (Hm' & _).
  destruct (addMessage "assistant" content w) as [[[] | e] w']; [| done].
  cbn [snd] in Hm'.
  exists (more ++ [turn "assistant" content (clock (env w) (S (ticks w)))]).
  rewrite Hm', <- app_assoc. split; [done |]. split.
  - rewrite length_app. cbn. lia.
  - apply Forall_app. split; [done |]. by constructor.
Qed.

Lemma answered_more (items : list value) (lo hi lo' hi' : nat) (w : world) :
  (lo' <= lo)%nat -> (hi <= hi')%nat ->
  answered items lo hi w -> answered items lo' hi' w.
Proof. intros ? ? (more & Hm & Hlen & Hall). exists more. repeat split; [done | lia.. | done]. Qed.

Lemma optional_answer (items : list value) (lo hi : nat) (b : bool) (content : value) :
  yields (answered items lo hi)
         (if b then addMessage "assistant" content else ret tt)
         (fun _ => answered items lo (S hi)) (fun _ _ => True).
Proof.
  destruct b.
  - eapply yields_weaken; [apply addMessage_answers | done | | done].
    intros ? ?. apply answered_more; lia.
  - apply yields_ret. intros w. apply answered_more; lia.
Qed.

Ltac pure_step := eapply yields_bind; [by apply yields_liftR | intros ?].

Lemma displayResult_answered (items : list value) (payload : value) :
  yields (answered items 0 0) (displayResult payload)
         (fun _ => answered items 1 3) (fun _ _ => True).
Proof.
  unfold displayResult. pure_step. pure_step.
  apply yields_if.
  { eapply yields_weaken; [apply addMessage_answers | done | | done].
    intros ? ?. apply answered_more; lia. }
  pure_step. cbv zeta. pure_step. pure_step.
  apply (yields_bind _ (fun hasData : bool =>
                          if hasData then answered items 1 1 else answered items 0 0)).
  { apply yields_if; [| by apply yields_ret].
    pure_step. pure_step. apply yields_if; [| by apply yields_ret].
    pure_step. pure_step.
    eapply yields_bind; [apply addMessage_answers | intros ?].
    by apply yields_ret. }
  intros hasData. 
  assert (Hpure : forall (A : Type) (r : result A) lo hi,
            yields (if hasData then answered items 1 lo else answered items 0 hi)
                   (liftR r)
                   (fun _ => if hasData then answered items 1 lo else answered items 0 hi)
                   (fun _ _ => True)).
  { intros. by apply yields_liftR. }
  eapply yields_bind; [apply Hpure | intros text].
  eapply yields_bind; [apply Hpure | intros narrative].
  apply (yields_bind _ (fun _ => if hasData then answered items 1 2 else answered items 0 1)).
  { destruct hasData; apply optional_answer. }
  intros _.
  eapply yields_bind; [apply Hpure | intros query].
  eapply yields_bind; [apply Hpure | intros sql].
  apply (yields_bind _ (fun _ => if hasData then answered items 1 3 else answered items 0 2)).
  { destruct hasData; apply optional_answer. }
  intros _. destruct hasData.
  - by apply yields_ret.
  - eapply yields_weaken; [apply addMessage_answers | done | | done].
    intros ? ?. apply answered_more; lia.
Qed.

(** X12. A result that [displayResult] shows always leaves an answer: when
    it returns, it has added at least one and at most three turns to the
    history, all of them the assistant's. *)
Theorem displayResult_answers (w : world) (result : value) (items : list value) :
  messages (this w) = VArr items ->
  fst (displayResult result w) = Ok tt ->
  exists more,
    messages (this (snd (displayResult result w))) = VArr (items ++ more) /\
    (1 <= length more <= 3)%nat /\ Forall isAssistant more.
Proof.
  intros Hitems Hok.
  pose proof (displayResult_answered items result w) as H.
  destruct (displayResult result w) as [[[] | e] w']; [| done].
  apply H. exists []. rewrite app_nil_r. by repeat split.
Qed.

(** A narrative without a table. *)
Lemma displayResult_answers_witness :
  let w := Demo.stalled in
  let result := Demo.narrativeOnly "Hamilton, with 103 wins." in
  exists more,
    messages (this (snd (displayResult result w))) = VArr ([] ++ more) /\
    (1 <= length more <= 3)%nat /\ Forall isAssistant more.
Proof.
  intros w result.
  apply (displayResult_answers w result []); reflexivity.
Defined.

End Answering.


Section TableSuccess.
Import GenieChat.

Lemma renderEach_ok {A} (f : A -> nat -> result string) (l : list A) (i : nat) :
  (forall j x, l !! j = Some x -> exists piece, f x (i + j)%nat = Ok piece) ->
  exists out, renderEach f i l = Ok out.
Proof.
  revert i. induction l as [| y l IH]; intros i Hall; cbn [renderEach]; [by eexists |].
  destruct (Hall 0%nat y eq_refl) as [piece Hp]. rewrite Nat.add_0_r in Hp. rewrite Hp.
  destruct (IH (S i)) as [more ->]; [| by eexists].
  intros j x Hj. destruct (Hall (S j) x Hj) as [p Hx]. exists p.
  by rewrite <- Hx, Nat.add_succ_r.
Qed.

Lemma forallb_lookup {A} (f : A -> bool) (l : list A) (j : nat) (x : A) :
  forallb f l = true -> l !! j = Some x -> f x = true.
Proof.
  revert j. induction l as [| y l IH]; intros j Hall Hj; [done |].
  cbn [forallb] in Hall. apply andb_prop in Hall as [Hy Hall].
  destruct j as [| j]; cbn in Hj; [by injection Hj as <- | by eapply IH].
Qed.

(** X13. [renderDataTable] renders every well-formed result: when the rows
    are arrays no longer than the list of columns and no column entry is
    [null] or missing, it returns the table, and each column's name stands in
    a header cell, escaped. *)
Theorem renderDataTable_succeeds (queryResult schema : value)
    (rows cols : list value) :
  getProp queryResult "data_array" = Ok (VArr rows) -> rows <> [] ->
  getProp queryResult "schema" = Ok schema ->
  getProp schema "columns" = Ok (VArr cols) ->
  forallb (fun col => negb (isNullish col)) cols = true ->
  (forall i row, rows !! i = Some row ->
     exists cells, row = VArr cells /\ (length cells <= length cols)%nat) ->
  exists html,
    renderDataTable queryResult = Ok html /\
    forall j col, cols !! j = Some col ->
      exists name, getProp col "name" = Ok name /\
                   occursIn ("<th>" +:+ escapeHtml name +:+ "</th>") html.
Proof.
  intros Hdata Hrows Hschema Hcols Hall Hfit.
  assert (Hcol : forall j col name, cols !! j = Some col ->
                   exists x, getProp col name = Ok x).
  { intros j col name Hj. apply getProp_ok.
    apply negb_true_iff. by apply (forallb_lookup _ cols j col Hall). }
  assert (Hq : isNullish queryResult = false).
  { by destruct queryResult. }
  destruct (getProp_ok queryResult "row_count" Hq) as [row_count Hrc].
  destruct (getProp_ok queryResult "truncated" Hq) as [truncated Htr].
  destruct (renderEach_ok renderHeader cols 0) as [ths Hths].
  { intros j col Hj. destruct (Hcol j col "name" Hj) as [name Hname].
    unfold renderHeader. rewrite Hname. by eexists. }
  destruct (renderEach_ok (renderRow cols) rows 0) as [trs Htrs].
  { intros i row Hi. destruct (Hfit i row Hi) as (cells & -> & Hlen).
    unfold renderRow. cbn [itemsOf bindR].
    destruct (renderEach_ok (renderCell cols) cells 0) as [tds ->]; [| by eexists].
    intros j cell Hj. unfold renderCell.
    assert (Hlt : (j < length cols)%nat).
    { apply lookup_lt_Some in Hj. lia. }
    destruct (lookup_lt_is_Some_2 cols j Hlt) as [col Hc].
    cbn [Nat.add]. rewrite Hc. cbn [default].
    destruct (Hcol j col "type" Hc) as [colType Htype].
    unfold id. rewrite Htype. by eexists. }
  unfold renderDataTable. rewrite Hdata, Hschema, Hrc.
  cbn [bindR truthy getProp String.eqb Ascii.eqb Bool.eqb negb orb isZero].
  destruct (Z.of_nat (length rows) =? 0) eqn:Hlen.
  { apply Z.eqb_eq in Hlen. destruct rows; [done | cbn in Hlen; lia]. }
  rewrite Hcols. cbn [bindR getProp String.eqb Ascii.eqb Bool.eqb itemsOf].
  rewrite Hths. cbn [bindR]. rewrite Htrs. cbn [bindR]. rewrite Htr. cbn [bindR].
  eexists. split; [reflexivity |].
  intros j col Hj.
  destruct (renderEach_lookup _ _ _ _ _ _ Hths Hj) as (th & Hth & Hin).
  unfold renderHeader in Hth. destruct (getProp col "name") as [name | e]; [| done].
  cbn [bindR] in Hth. injection Hth as <-. exists name. split; [done |].
  find_piece.
Qed.

Lemma renderDataTable_succeeds_witness :
  exists html,
    renderDataTable Demo.driversTable = Ok html /\
    forall j col, [Demo.column "driver" "STRING"; Demo.column "wins" "LONG"] !! j
                  = Some col ->
      exists name, getProp col "name" = Ok name /\
                   occursIn ("<th>" +:+ escapeHtml name +:+ "</th>") html.
Proof.
  apply (renderDataTable_succeeds Demo.driversTable
           (VObj [("columns", VArr [Demo.column "driver" "STRING";
                                    Demo.column "wins" "LONG"])])
           [VArr [VStr "<script>alert(1)</script>"; VNum 103]; VArr [VNull; VNum 91]]);
    try reflexivity; [done |].
  intros [| [| i]] row Hi; [| | done]; injection Hi as <-; eexists; (split; [reflexivity | cbn; lia]).
Defined.

End TableSuccess.

Section Feedback.
Import GenieChat.

Lemma addMessage_child (role : string) (content : value) (w : world) :
  fst (addMessage role content w) = Ok tt ->
  exists body time,
    children (doc (snd (addMessage role content w)))
    = children (doc w) ++ [MessageDiv ("genie-message " +:+ role) body (Some time)].
Proof.
  unfold addMessage, saveState. run.
  destruct (jsIncludes "content" content "<") as [b | e]; cbn; [| done].
  destruct (welcome (doc w) && String.eqb role "user"); fields.
  all: destruct (messages (this w)); fields; cbn [sliceLast]; fields; try done.
  all: intros _; by eexists _, _.
Qed.

Lemma addMessage_feedback (content : value) (P : world -> Prop) :
  yields P (addMessage "assistant" content) (fun _ => feedbackShown) (fun _ _ => True).
Proof.
  intros w _. pose proof (addMessage_child "assistant" content w) as H.
  destruct (addMessage "assistant" content w) as [[[] | e] w']; [| done].
  destruct (H eq_refl) as (body & time & Hch). cbn [snd] in Hch.
  unfold feedbackShown. by rewrite Hch, last_snoc.
Qed.

Lemma addMessage_keeps_feedback (content : value) (h : bool) :
  yields (fun w => h = true -> feedbackShown w)
         (addMessage "assistant" content) (fun _ => feedbackShown) (fun _ _ => True).
Proof. apply addMessage_feedback. Qed.

Lemma displayResult_feedback (r : value) :
  yields (fun _ => True) (displayResult r) (fun _ => feedbackShown) (fun _ _ => True).
Proof.
  unfold displayResult.
  eapply yields_bind; [by apply yields_liftR | intros ?].
  eapply yields_bind; [by apply yields_liftR | intros ?].
  apply yields_if; [apply addMessage_feedback |].
  eapply yields_bind; [by apply yields_liftR | intros ?]. cbv zeta.
  eapply yields_bind; [by apply yields_liftR | intros ?].
  eapply yields_bind; [by apply yields_liftR | intros ?].
  apply (yields_bind _ (fun (hasData : bool) w => hasData = true -> feedbackShown w)).
  { apply yields_if; [| by apply yields_ret].
    eapply yields_bind; [by apply yields_liftR | intros ?].
    eapply yields_bind; [by apply yields_liftR | intros ?].
    apply yields_if; [| by apply yields_ret].
    eapply yields_bind; [by apply yields_liftR | intros ?].
    eapply yields_bind; [by apply yields_liftR | intros ?].
    eapply yields_bind; [apply addMessage_feedback | intros ?].
    by apply yields_ret. }
  intros hasData.
  assert (Hopt : forall (b : bool) content,
            yields (fun w => hasData = true -> feedbackShown w)
                   (if b then addMessage "assistant" content else ret tt)
                   (fun _ w => hasData = true -> feedbackShown w) (fun _ _ => True)).
  { intros [] content.
    - apply (yields_weaken (fun _ => True) _ (fun _ => feedbackShown) _ (fun _ _ => True));
        [apply addMessage_feedback | done | by intros ? ? ? | done].
    - by apply yields_ret. }
  eapply yields_bind; [by apply yields_liftR | intros ?].
  eapply yields_bind; [by apply yields_liftR | intros ?].
  eapply yields_bind; [apply Hopt | intros ?].
  eapply yields_bind; [by apply yields_liftR | intros ?].
  eapply yields_bind; [by apply yields_liftR | intros ?].
  eapply yields_bind; [apply Hopt | intros ?].
  destruct hasData.
  - apply yields_ret. auto.
  - apply addMessage_feedback.
Qed.

(** X14. Every submission ends with something for the user to see: when
    [sendMessage] returns, the last element of the messages pane is an answer
    of the assistant or the error box with its retry button. *)
Theorem sendMessage_gives_feedback (w : world) (content : string) :
  fst (sendMessage content w) = Ok tt ->
  feedbackShown (snd (sendMessage content w)).
Proof.
  intros Hok.
  cut (yields (fun _ => True) (sendMessage content)
              (fun _ => feedbackShown) (fun _ _ => True)).
  { intros H. specialize (H w I).
    by destruct (sendMessage content w) as [[[] | e] w']. }
  unfold sendMessage.
  apply (yields_tryFinally _ (fun _ => feedbackShown) _ (fun _ _ => True)).
  2: { intros _ w0 Hw0. exact Hw0. }
  2: { by intros e w0 _. }
  apply (yields_tryCatch _ _ (fun _ _ => True)); [| | done].
  2: { intros e _ w0 _. cbn. unfold feedbackShown. cbn. by rewrite last_snoc. }
  assert (Hany : forall (A : Type) (c : M A),
            yields (fun _ => True) c (fun _ _ => True) (fun _ _ => True)).
  { intros A c w0 _. by destruct (c w0) as [[a | e] w1]. }
  do 11 (eapply yields_bind; [apply Hany | intros ?]).
  apply displayResult_feedback.
Qed.

Lemma sendMessage_gives_feedback_witness :
  fst (sendMessage "Who won in 2008?" Demo.stalled) = Ok tt /\
  feedbackShown (snd (sendMessage "Who won in 2008?" Demo.stalled)).
Proof.
  assert (H : fst (sendMessage "Who won in 2008?" Demo.stalled) = Ok tt)
    by (vm_compute; reflexivity).
  split; [exact H | exact (sendMessage_gives_feedback _ _ H)].
Defined.

End Feedback.

(** * The proxy function *)

Section ProxyFacts.
Import Proxy.

Lemma prefix_app (a b : string) : String.prefix a (a +:+ b) = true.
Proof.
  induction a as [| x a IH]; cbn; [by destruct b |].
  destruct (ascii_dec x x); [exact IH | done].
Qed.

Lemma includes_prefix (hay needle : string) :
  String.prefix needle hay = true -> includes hay needle = true.
Proof. intros H. destruct hay; cbn [includes]; by rewrite H. Qed.

Lemma includes_middle (a b c : string) : includes (a +:+ b +:+ c) b = true.
Proof.
  induction a as [| x a IH].
  - change ("" +:+ b +:+ c) with (b +:+ c). apply includes_prefix, prefix_app.
  - cbn [String.append includes]. rewrite IH. by destruct (String.prefix _ _).
Qed.

Lemma toLowerCase_app (a b : string) :
  toLowerCase (a +:+ b) = toLowerCase a +:+ toLowerCase b.
Proof. induction a as [| x a IH]; cbn; [done | by rewrite IH]. Qed.

Lemma snoc_inv {A} (l : list A) (x y : A) : l ++ [x] = l ++ [y] -> x = y.
Proof. intros H%app_inv_head. by injection H. Qed.

Lemma not_snoc {A} (l : list A) (x : A) : l <> l ++ [x].
Proof.
  intros H. apply (f_equal length) in H. rewrite length_app in H. cbn in H. lia.
Qed.

Lemma fetch_replied (genie : call -> outcome) (c : call) (rep : reply)
      (log : list call) :
  genie c = Replied rep -> fetch genie c log = (Ok rep, log ++ [c]).
Proof. unfold fetch. by intros ->. Qed.

Lemma fetch_log (genie : call -> outcome) (c : call) (log : list call) :
  snd (fetch genie c log) = log ++ [c].
Proof. unfold fetch. by destruct (genie c). Qed.

Lemma bind_fetch_log {A} (genie : call -> outcome) (c : call) (k : reply -> N A)
      (log : list call) :
  (forall rep log', snd (k rep log') = log') ->
  snd (bind (fetch genie c) k log) = log ++ [c].
Proof.
  intros Hk. unfold bind. pose proof (fetch_log genie c log) as Hf.
  destruct (fetch genie c log) as [[rep | e] log1]; cbn in *; [by rewrite Hk | done].
Qed.

(** Each of the three functions makes its one request and no other. *)
Lemma startConversation_request genie workspaceUrl token spaceId log :
  snd (startConversation genie workspaceUrl token spaceId log)
  = log ++ [startRequest workspaceUrl token spaceId].
Proof.
  apply bind_fetch_log. intros rep log'. unfold bind, liftR, throw, ret.
  repeat (case_match; simplify_eq; cbn; try reflexivity).
Qed.

Lemma sendMessage_request genie workspaceUrl token spaceId conversationId content log :
  snd (sendMessage genie workspaceUrl token spaceId conversationId content log)
  = log ++ [sendRequest workspaceUrl token spaceId conversationId content].
Proof.
  apply bind_fetch_log. intros rep log'. unfold bind, liftR, throw, ret.
  repeat (case_match; simplify_eq; cbn; try reflexivity).
Qed.

Lemma pollResult_request genie workspaceUrl token spaceId conversationId messageId log :
  snd (pollResult genie workspaceUrl token spaceId conversationId messageId log)
  = log ++ [pollRequest workspaceUrl token spaceId conversationId messageId].
Proof.
  apply bind_fetch_log. intros rep log'. unfold bind, liftR, throw, ret.
  repeat (case_match; simplify_eq; cbn; try reflexivity).
Qed.

(** Where a request is routed: nowhere, with an error and no request to the
    service, or to one of the three functions. *)
Lemma route_cases (cfg : settings) (genie : call -> outcome) (req : request)
      (log : list call) :
  (exists e, route cfg genie req log = (Throw e, log)) \/
  exists workspaceUrl token spaceId,
    setting (DATABRICKS_WORKSPACE_URL cfg) = Some workspaceUrl /\
    setting (DATABRICKS_PAT_TOKEN cfg) = Some token /\
    setting (GENIE_SPACE_ID cfg) = Some spaceId /\
    (route cfg genie req log = startConversation genie workspaceUrl token spaceId log \/
     (exists conversationId content,
        route cfg genie req log
        = sendMessage genie workspaceUrl token spaceId conversationId content log) \/
     (exists conversationId messageId,
        route cfg genie req log
        = pollResult genie workspaceUrl token spaceId conversationId messageId log)).
Proof.
  remember (route cfg genie req log) as out eqn:Hout. unfold route in Hout.
  destruct (setting (DATABRICKS_WORKSPACE_URL cfg)) as [workspaceUrl |];
    [| left; by eexists].
  destruct (setting (DATABRICKS_PAT_TOKEN cfg)) as [token |]; [| left; by eexists].
  destruct (setting (GENIE_SPACE_ID cfg)) as [spaceId |]; [| left; by eexists].
  assert (Hbody : exists r,
            match body req with
            | VStr s =>
                match JSON.parse s with
                | Ok parsed => ret parsed
                | Throw _ => throw (JsError "Invalid JSON in request body")
                end
            | given => ret given
            end log = (r, log)).
  { destruct (body req); try by eexists. destruct (JSON.parse s); by eexists. }
  destruct Hbody as [r Hbody]. unfold bind at 1 in Hout. rewrite Hbody in Hout.
  destruct r as [given | e]; [| left; by eexists].
  unfold bind at 1, liftR at 1 in Hout.
  destruct (destructure given "action") as [action | e]; [| left; by eexists].
  unfold bind at 1, liftR at 1 in Hout.
  destruct (destructure given "conversationId") as [conversationId | e];
    [| left; by eexists].
  unfold bind at 1, liftR at 1 in Hout.
  destruct (destructure given "messageId") as [messageId | e]; [| left; by eexists].
  unfold bind at 1, liftR at 1 in Hout.
  destruct (destructure given "content") as [content | e]; [| left; by eexists].
  destruct (isStr action "start-conversation").
  { right. exists workspaceUrl, token, spaceId. repeat split. by left. }
  destruct (isStr action "send-message").
  { right. exists workspaceUrl, token, spaceId. repeat split. right. left. by eexists _, _. }
  destruct (isStr action "poll-result"); [| left; by eexists].
  right. exists workspaceUrl, token, spaceId. repeat split. right. right. by eexists _, _.
Qed.

Lemma snd_handler (cfg : settings) (genie : call -> outcome) (now : string)
      (req : request) (log : list call) :
  snd (handler cfg genie now req log)
  = if String.eqb (method req) "OPTIONS" || String.eqb (method req) "GET" then log
    else snd (route cfg genie req log).
Proof.
  unfold handler.
  destruct (String.eqb (method req) "OPTIONS"); [done |].
  destruct (String.eqb (method req) "GET"); [done |].
  unfold tryCatch, bind. cbn [orb].
  by destruct (route cfg genie req log) as [[data | [m | m | m]] log1].
Qed.

Lemma handler_fails (cfg : settings) (genie : call -> outcome) (now : string)
      (req : request) (log log' : list call) (m : string) :
  method req <> "OPTIONS" -> method req <> "GET" ->
  route cfg genie req log = (Throw (JsError m), log') ->
  handler cfg genie now req log = (Ok (failureRes (JsError m)), log').
Proof.
  intros Ho%String.eqb_neq Hg%String.eqb_neq Hroute.
  unfold handler. rewrite Ho, Hg. unfold tryCatch, bind. by rewrite Hroute.
Qed.


Lemma startConversation_passes genie workspaceUrl token spaceId log :
  passedOn genie log (startConversation genie workspaceUrl token spaceId log).
Proof.
  intros data. unfold startConversation, bind, fetch, liftR, throw, ret.
  destruct (genie _) as [e | rep] eqn:Hg; cbn; [done |].
  destruct (ok rep) eqn:Hok; cbn.
  - destruct (json rep) as [d | e] eqn:Hj; cbn; [| done].
    destruct (getProp d "conversation_id"); cbn; [| done].
    intros [= ->]. by eexists _, rep.
  - by destruct (text rep).
Qed.

Lemma sendMessage_passes genie workspaceUrl token spaceId conversationId content log :
  passedOn genie log
    (sendMessage genie workspaceUrl token spaceId conversationId content log).
Proof.
  intros data. unfold sendMessage, bind, fetch, liftR, throw, ret.
  destruct (genie _) as [e | rep] eqn:Hg; cbn; [done |].
  destruct (ok rep) eqn:Hok; cbn.
  - destruct (json rep) as [d | e] eqn:Hj; cbn; [| done].
    destruct (getProp d "id"); cbn; [| done].
    destruct (getProp d "status"); cbn; [| done].
    intros [= ->]. by eexists _, rep.
  - by destruct (text rep).
Qed.

Lemma pollResult_passes genie workspaceUrl token spaceId conversationId messageId log :
  passedOn genie log
    (pollResult genie workspaceUrl token spaceId conversationId messageId log).
Proof.
  intros data. unfold pollResult, bind, fetch, liftR, throw, ret.
  destruct (genie _) as [e | rep] eqn:Hg; cbn; [done |].
  destruct (ok rep) eqn:Hok; cbn.
  - destruct (json rep) as [d | e] eqn:Hj; cbn; [| done].
    destruct (getProp d "status") as [state | e]; cbn; [| done].
    match goal with
    | |- context [match ?x with Ok _ => _ | Throw _ => _ end] => destruct x
    end; cbn; [| done].
    intros [= ->]. by eexists _, rep.
  - by destruct (text rep).
Qed.

Lemma route_passes cfg genie req log : passedOn genie log (route cfg genie req log).
Proof.
  destruct (route_cases cfg genie req log)
    as [[e ->] | (workspaceUrl & token & spaceId & _ & _ & _ &
                  [-> | [(cid & content & ->) | (cid & mid & ->)]])].
  - done.
  - apply startConversation_passes.
  - apply sendMessage_passes.
  - apply pollResult_passes.
Qed.

(** An answer of 200 to a request that was routed passes on what the
    service returned. *)
Lemma handler_passes (cfg : settings) (genie : call -> outcome) (now : string)
      (req : request) (log : list call) (r : res) :
  method req <> "OPTIONS" -> method req <> "GET" ->
  fst (handler cfg genie now req log) = Ok r -> code r = 200 ->
  exists c rep data,
    snd (handler cfg genie now req log) = log ++ [c] /\
    genie c = Replied rep /\ ok rep = true /\ json rep = Ok data /\
    content r = JSON.stringify (VObj [("success", VBool true); ("data", data)]).
Proof.
  intros Ho%String.eqb_neq Hg%String.eqb_neq.
  pose proof (route_passes cfg genie req log) as Hpass.
  unfold handler. rewrite Ho, Hg. unfold tryCatch, bind.
  destruct (route cfg genie req log) as [[data | [m | m | m]] log1]; cbn;
    intros [= <-]; cbn; intros Hcode; try done.
  destruct (Hpass data eq_refl) as (c & rep & H1 & H2 & H3 & H4).
  by exists c, rep, data.
Qed.

(** X16. The function answers 200 to a request other than a preflight
    or a health check only when the service answered its one request with an
    OK status and a body that parses, and the answer then wraps exactly what
    the service returned; every other answer is a 500 whose body names the
    error and its category. Both carry the headers that let the page read
    them. *)
Theorem proxy_answers_for_the_service (cfg : settings) (genie : call -> outcome)
    (now : string) (req : request) (log : list call) (r : res) :
  method req <> "OPTIONS" -> method req <> "GET" ->
  fst (handler cfg genie now req log) = Ok r ->
  headers r = corsHeaders /\
  ((code r = 200 /\
    exists c rep data,
      snd (handler cfg genie now req log) = log ++ [c] /\
      genie c = Replied rep /\ ok rep = true /\ json rep = Ok data /\
      content r = JSON.stringify (VObj [("success", VBool true); ("data", data)])) \/
   (code r = 500 /\
    exists error,
      fst (route cfg genie req log) = Throw error /\
      content r = JSON.stringify
                    (VObj [("success", VBool false);
                           ("error", VStr (messageOf error));
                           ("type", VStr (categorizeError error))]))).
Proof.
  intros Ho%String.eqb_neq Hg%String.eqb_neq.
  pose proof (route_passes cfg genie req log) as Hpass.
  unfold handler. rewrite Ho, Hg. unfold tryCatch, bind.
  destruct (route cfg genie req log) as [[data | [m | m | m]] log1]; cbn; intros [= <-].
  - split; [done |]. left. split; [done |].
    destruct (Hpass data eq_refl) as (c & rep & H1 & H2 & H3 & H4).
    by exists c, rep, data.
  - split; [done |]. right. split; [done |]. by eexists.
  - split; [done |]. right. split; [done |]. by eexists.
Qed.

(** The configured function passes on the start of a conversation. *)
Lemma proxy_answers_for_the_service_witness :
  let req := proxyRequest "start-conversation" [] in
  exists r,
    fst (handler Demo.configured Demo.genie Demo.noon req []) = Ok r /\
    headers r = corsHeaders /\
    ((code r = 200 /\
      exists c rep data,
        snd (handler Demo.configured Demo.genie Demo.noon req []) = [] ++ [c] /\
        Demo.genie c = Replied rep /\ ok rep = true /\ json rep = Ok data /\
        content r
        = JSON.stringify (VObj [("success", VBool true); ("data", data)])) \/
     (code r = 500 /\
      exists error,
        fst (route Demo.configured Demo.genie req []) = Throw error /\
        content r
        = JSON.stringify (VObj [("success", VBool false);
                                ("error", VStr (messageOf error));
                                ("type", VStr (categorizeError error))]))).
Proof.
  intros req. eexists. split; [vm_compute; reflexivity |].
  apply (proxy_answers_for_the_service Demo.configured Demo.genie Demo.noon req []);
    [done | done | vm_compute; reflexivity].
Defined.

Lemma startConversation_refused genie workspaceUrl token spaceId rep errorText log :
  genie (startRequest workspaceUrl token spaceId) = Replied rep ->
  ok rep = false -> text rep = Ok errorText ->
  startConversation genie workspaceUrl token spaceId log
  = (Throw (refusal "start conversation" rep errorText),
     log ++ [startRequest workspaceUrl token spaceId]).
Proof.
  intros Hg Hok Ht. unfold startConversation, bind.
  by rewrite (fetch_replied _ _ _ _ Hg), Hok, Ht.
Qed.

Lemma sendMessage_refused genie workspaceUrl token spaceId conversationId content
      rep errorText log :
  genie (sendRequest workspaceUrl token spaceId conversationId content) = Replied rep ->
  ok rep = false -> text rep = Ok errorText ->
  sendMessage genie workspaceUrl token spaceId conversationId content log
  = (Throw (refusal "send message" rep errorText),
     log ++ [sendRequest workspaceUrl token spaceId conversationId content]).
Proof.
  intros Hg Hok Ht. unfold sendMessage, bind.
  by rewrite (fetch_replied _ _ _ _ Hg), Hok, Ht.
Qed.

Lemma pollResult_refused genie workspaceUrl token spaceId conversationId messageId
      rep errorText log :
  genie (pollRequest workspaceUrl token spaceId conversationId messageId) = Replied rep ->
  ok rep = false -> text rep = Ok errorText ->
  pollResult genie workspaceUrl token spaceId conversationId messageId log
  = (Throw (refusal "poll result" rep errorText),
     log ++ [pollRequest workspaceUrl token spaceId conversationId messageId]).
Proof.
  intros Hg Hok Ht. unfold pollResult, bind.
  by rewrite (fetch_replied _ _ _ _ Hg), Hok, Ht.
Qed.

(** The status is part of the message, so 401 and 403 are found in it. *)
Lemma refusal_is_auth what (rep : reply) errorText :
  status rep = 401 \/ status rep = 403 ->
  categorizeError (refusal what rep errorText) = "auth".
Proof.
  intros Hs. unfold categorizeError, refusal. cbn [messageOf].
  assert (H : includes
                (toLowerCase ("Failed to " +:+ what +:+ ": " +:+
                              decimal (status rep) +:+ " " +:+ errorText)) "401"
              || includes
                   (toLowerCase ("Failed to " +:+ what +:+ ": " +:+
                                 decimal (status rep) +:+ " " +:+ errorText)) "403"
              = true).
  { replace ("Failed to " +:+ what +:+ ": " +:+ decimal (status rep) +:+ " " +:+ errorText)
      with (("Failed to " +:+ what +:+ ": ") +:+ decimal (status rep) +:+ " " +:+ errorText)
      by (by rewrite !str_app_assoc).
    rewrite !toLowerCase_app.
    destruct Hs as [-> | ->].
    - change (toLowerCase (decimal 401)) with "401". by rewrite includes_middle.
    - change (toLowerCase (decimal 403)) with "403". rewrite (includes_middle _ "403").
      apply orb_true_r. }
  by rewrite H.
Qed.

(** The answer of the function to a request that the service refused. *)
Lemma handler_refused (cfg : settings) (genie : call -> outcome)
    (now : string) (req : request) (log : list call)
    (c : call) (rep : reply) (errorText : string) :
  method req <> "OPTIONS" -> method req <> "GET" ->
  snd (handler cfg genie now req log) = log ++ [c] ->
  genie c = Replied rep -> ok rep = false -> text rep = Ok errorText ->
  exists what,
    (what = "start conversation" \/ what = "send message" \/ what = "poll result") /\
    fst (handler cfg genie now req log) = Ok (failureRes (refusal what rep errorText)).
Proof.
  intros Ho Hg Hlog Hrep Hok Ht. rewrite snd_handler in Hlog.
  apply String.eqb_neq in Ho as Ho', Hg as Hg'. rewrite Ho', Hg' in Hlog. cbn [orb] in Hlog.
  destruct (route_cases cfg genie req log)
    as [[e He] | (workspaceUrl & token & spaceId & _ & _ & _ &
                  [Hr | [(cid & content & Hr) | (cid & mid & Hr)]])].
  - rewrite He in Hlog. by apply not_snoc in Hlog.
  - exists "start conversation". split; [by left |].
    rewrite Hr, startConversation_request in Hlog. apply snoc_inv in Hlog as <-.
    erewrite handler_fails; [done | done | done |].
    rewrite Hr. by apply startConversation_refused.
  - exists "send message". split; [by right; left |].
    rewrite Hr, sendMessage_request in Hlog. apply snoc_inv in Hlog as <-.
    erewrite handler_fails; [done | done | done |].
    rewrite Hr. by apply sendMessage_refused.
  - exists "poll result". split; [by right; right |].
    rewrite Hr, pollResult_request in Hlog. apply snoc_inv in Hlog as <-.
    erewrite handler_fails; [done | done | done |].
    rewrite Hr. by apply pollResult_refused.
Qed.

(** X17. A refusal of the service is reported, not passed off as an
    answer: when the service answers the function's request with a failure
    status, the function answers 500 with the message Failed to ..., the
    status and the text of the service, and with the category auth when the
    status is 401 or 403. *)
Theorem service_refusal_is_reported (cfg : settings) (genie : call -> outcome)
    (now : string) (req : request) (log : list call)
    (c : call) (rep : reply) (errorText : string) :
  method req <> "OPTIONS" -> method req <> "GET" ->
  snd (handler cfg genie now req log) = log ++ [c] ->
  genie c = Replied rep -> ok rep = false -> text rep = Ok errorText ->
  exists what,
    (what = "start conversation" \/ what = "send message" \/ what = "poll result") /\
    fst (handler cfg genie now req log) = Ok (failureRes (refusal what rep errorText)) /\
    (status rep = 401 \/ status rep = 403 ->
     categorizeError (refusal what rep errorText) = "auth").
Proof.
  intros Ho Hg Hlog Hrep Hok Ht.
  destruct (handler_refused cfg genie now req log c rep errorText)
    as (what & Hwhat & Hres); try done.
  exists what. repeat split; try done. apply refusal_is_auth.
Qed.

(** A question sent with a token the service does not accept. *)
Lemma service_refusal_is_reported_witness :
  let req := proxyRequest "send-message"
               [("conversationId", VStr "c1"); ("content", VStr "Who won in 2008?")] in
  exists what,
    (what = "start conversation" \/ what = "send message" \/ what = "poll result") /\
    fst (handler Demo.configured Demo.unauthorized Demo.noon req [])
    = Ok (failureRes (refusal what Demo.denied "Invalid access token")) /\
    (status Demo.denied = 401 \/ status Demo.denied = 403 ->
     categorizeError (refusal what Demo.denied "Invalid access token") = "auth").
Proof.
  intros req.
  apply (service_refusal_is_reported Demo.configured Demo.unauthorized Demo.noon req []
           (sendRequest "https://adb-1.azuredatabricks.net" "dapi-secret" "space1"
              (VStr "c1") (VStr "Who won in 2008?"))
           Demo.denied "Invalid access token"); try done.
Defined.

End ProxyFacts.

(** * The widget served by the function *)

Section Served.
Import GenieChat.



Lemma served_ok (r : Proxy.res) (data : value) :
  Proxy.code r = 200 ->
  Proxy.content r = JSON.stringify (VObj [("success", VBool true); ("data", data)]) ->
  JSON.storable data = true ->
  payloadOf (Response (responseOf r)) = Some data.
Proof.
  intros Hcode Hcontent Hstor. unfold payloadOf, responseOf. cbn [ok body].
  rewrite Hcode, Hcontent. cbn [Z.leb Z.compare Pos.compare Pos.compare_cont andb].
  rewrite parse_stringify; [done |].
  cbn [JSON.storable map fst snd JSON.uniqueKeys existsb forallb String.eqb
       Ascii.eqb Bool.eqb negb andb]. by rewrite Hstor.
Qed.

(** X19. What the service returns is what the widget gets. When the
    function answers a request of the widget with 200, the service had
    answered the function's one request with an OK status and some data, and
    [callAPI] returns exactly that data, provided JSON carries it unchanged. *)
Theorem service_answer_reaches_widget (cfg : Proxy.settings)
    (genie : Proxy.call -> Proxy.outcome) (now : string) (w : world)
    (action : string) (params : list (string * value)) (r : Proxy.res) :
  respond (env w) = served cfg genie now ->
  fst (Proxy.handler cfg genie now (proxyRequest action params) []) = Ok r ->
  Proxy.code r = 200 ->
  exists c rep data,
    snd (Proxy.handler cfg genie now (proxyRequest action params) []) = [c] /\
    genie c = Proxy.Replied rep /\ Proxy.ok rep = true /\ Proxy.json rep = Ok data /\
    (JSON.storable data = true ->
     callAPI action params w = (Ok data, advanced [Fetch action params] 1 w)).
Proof.
  intros Hserved Hr Hcode.
  destruct (handler_passes cfg genie now (proxyRequest action params) [] r)
    as (c & rep & data & H1 & H2 & H3 & H4 & H5); try done.
  exists c, rep, data. repeat split; try done.
  intros Hstor. apply callAPI_payload. rewrite Hserved. unfold served. rewrite Hr.
  by apply served_ok.
Qed.

(** The widget starts a conversation through the configured function. *)
Lemma service_answer_reaches_widget_witness :
  let w := Demo.start (served Demo.configured Demo.genie Demo.noon) "" in
  exists c rep data,
    snd (Proxy.handler Demo.configured Demo.genie Demo.noon
           (proxyRequest "start-conversation" []) []) = [c] /\
    Demo.genie c = Proxy.Replied rep /\ Proxy.ok rep = true /\
    Proxy.json rep = Ok data /\
    (JSON.storable data = true ->
     callAPI "start-conversation" [] w
     = (Ok data, advanced [Fetch "start-conversation" []] 1 w)).
Proof.
  assert (H : exists r,
            fst (Proxy.handler Demo.configured Demo.genie Demo.noon
                   (proxyRequest "start-conversation" []) []) = Ok r /\
            Proxy.code r = 200)
    by (eexists; split; [vm_compute; reflexivity | reflexivity]).
  destruct H as (r & Hr & Hcode). intros w.
  exact (service_answer_reaches_widget Demo.configured Demo.genie Demo.noon w
           "start-conversation" [] r eq_refl Hr Hcode).
Defined.

Lemma served_failure (r : Proxy.res) (error : exn) :
  r = Proxy.failureRes error -> messageOf error <> "" ->
  forall action params w,
    respond (env w) (fetches w) action params = Response (responseOf r) ->
    callAPI action params w
    = (Throw (JsError (if includes (messageOf error) "JSON" then invalidResponse
                       else messageOf error)),
       advanced [Fetch action params] 1 w).
Proof.
  intros -> Hne action params w Hresp.
  apply String.eqb_neq in Hne.
  unfold callAPI, fetch, tryCatch. unfold bind at 1. rewrite Hresp.
  unfold bind at 1. cbn [responseOf Proxy.failureRes Proxy.code Proxy.headers
                         Proxy.content ok status contentType body].
  cbn [Z.leb Z.compare Pos.compare Pos.compare_cont andb negb Proxy.corsHeaders header
       String.eqb Ascii.eqb Bool.eqb].
  change (includes "application/json" "application/json") with true. cbn [andb].
  rewrite parse_stringify by reflexivity.
  rewrite bind_liftR_ok.
  cbn [getProp assoc String.eqb Ascii.eqb Bool.eqb default]. unfold id.
  rewrite bind_liftR_ok. cbn [truthy toString throw]. rewrite Hne. cbn [negb].
  unfold advanced. cbn.
  by destruct (includes (messageOf error) "JSON").
Qed.

(** X20. A refusal of the service reaches the user. When the service
    turns the function's request away with a failure status, [callAPI] throws
    the function's message, Failed to ..., with the status and the text of
    the service (or, when that mentions JSON, the invalid-response message);
    for a status of 401 or 403 and a text that does not mention JSON,
    [showError] words what was thrown as a failed authentication. *)
Theorem service_refusal_reaches_user (cfg : Proxy.settings)
    (genie : Proxy.call -> Proxy.outcome) (now : string) (w : world)
    (action : string) (params : list (string * value))
    (c : Proxy.call) (rep : Proxy.reply) (errorText : string) :
  respond (env w) = served cfg genie now ->
  snd (Proxy.handler cfg genie now (proxyRequest action params) []) = [c] ->
  genie c = Proxy.Replied rep -> Proxy.ok rep = false ->
  Proxy.text rep = Ok errorText ->
  exists what,
    let message := messageOf (Proxy.refusal what rep errorText) in
    let thrown := if includes message "JSON" then invalidResponse else message in
    fst (callAPI action params w) = Throw (JsError thrown) /\
    (Proxy.status rep = 401 \/ Proxy.status rep = 403 ->
     includes message "JSON" = false ->
     displayMessageOf thrown
     = "Authentication failed. Please check your Databricks credentials.").
Proof.
  intros Hserved Hlog Hrep Hok Ht.
  destruct (handler_refused cfg genie now (proxyRequest action params) []
              c rep errorText) as (what & _ & Hres); try done.
  exists what. intros message thrown. split.
  - rewrite (served_failure _ (Proxy.refusal what rep errorText) eq_refl); [done | done |].
    rewrite Hserved. unfold served. by rewrite Hres.
  - intros Hs Hplain. subst thrown. rewrite Hplain. subst message. unfold Proxy.refusal, displayMessageOf. cbn [messageOf].
    replace ("Failed to " +:+ what +:+ ": " +:+ decimal (Proxy.status rep) +:+ " " +:+ errorText)
      with (("Failed to " +:+ what +:+ ": ") +:+ decimal (Proxy.status rep) +:+ " " +:+ errorText)
      by (by rewrite !str_app_assoc).
    destruct Hs as [-> | ->].
    + change (decimal 401) with "401". by rewrite includes_middle.
    + change (decimal 403) with "403". rewrite (includes_middle _ "403").
      by rewrite orb_true_r.
Qed.

(** The widget behind a function whose token the service does not accept. *)
Lemma service_refusal_reaches_user_witness :
  let w := Demo.start (served Demo.configured Demo.unauthorized Demo.noon) "" in
  exists what,
    let message := messageOf (Proxy.refusal what Demo.denied "Invalid access token") in
    let thrown := if includes message "JSON" then invalidResponse else message in
    fst (callAPI "start-conversation" [] w) = Throw (JsError thrown) /\
    (Proxy.status Demo.denied = 401 \/ Proxy.status Demo.denied = 403 ->
     includes message "JSON" = false ->
     displayMessageOf thrown
     = "Authentication failed. Please check your Databricks credentials.").
Proof.
  intros w.
  apply (service_refusal_reaches_user Demo.configured Demo.unauthorized Demo.noon w
           "start-conversation" []
           (Proxy.startRequest "https://adb-1.azuredatabricks.net" "dapi-secret" "space1")
           Demo.denied "Invalid access token"); reflexivity.
Defined.

End Served.

(** * The local test script *)

Section LocalTestFacts.
Import GenieChat.

Lemma getProp_modelled (v : value) (name : string) (e : exn) :
  getProp v name = Throw e -> isUnmodelled e = false.
Proof. destruct v; cbn; try done; by intros [= <-]. Qed.

(** A poll of the widget that gets no payload ends the polling with an
    error. *)
Lemma pollFrom_stops (budget : nat) (mid : value) (attempt : Z) (w : world) :
  attempt < maxAttempts ->
  payloadOf (respond (env w) (fetches w) "poll-result" (pollParams w mid)) = None ->
  exists e,
    pollFrom (S budget) mid attempt w
    = (Throw e, advanced (pollEvents w mid attempt 1) 1 w).
Proof.
  intros Hatt Hpay. cbn [pollFrom].
  destruct (Z.leb_spec maxAttempts attempt); [lia |].
  set (w1 := advanced [Timeout (delayOf attempt)] 0 w).
  destruct (callAPI_no_payload "poll-result" (pollParams w mid) w1 Hpay) as [e He].
  exists e.
  unfold bind at 1. change (sleep (delayOf attempt) w) with (Ok tt, w1).
  unfold bind at 1. cbn [getThis].
  change [("conversationId", conversationId (this w1)); ("messageId", mid)]
    with (pollParams w mid).
  unfold bind at 1. rewrite He.
  subst w1. by rewrite advanced_advanced.
Qed.

(** A FAILED message ends the polling of the widget with an error. *)
Lemma failed_throws (data : value) (w : world) :
  exists e,
    (errorMessage <- failureMessage data ;;
     scanAttachments data ;;
     @throw value (JsError errorMessage)) w = (Throw e, w).
Proof.
  pose proof (failureMessage_world data w) as H1.
  unfold bind at 1.
  destruct (failureMessage data w) as [[m | e] w1]; cbn in H1; subst w1; [| by eexists].
  pose proof (scanAttachments_world data w) as H2.
  unfold bind at 1.
  destruct (scanAttachments data w) as [[[] | e] w1]; cbn in H2; subst w1; by eexists.
Qed.

(** One pass of the loop of the test on a reply that carries a payload. *)
Lemma pollOnce_payload (cid mid : value) (attempt : Z) (w : world) (data : value) :
  payloadOf (respond (env w) (fetches w) "poll-result"
               [("conversationId", cid); ("messageId", mid)]) = Some data ->
  LocalTest.pollOnce cid mid attempt w
  = (Ok match getProp data "status" with
        | Ok status =>
            if isStr status "EXECUTING" || isStr status "FILTERING_CONTEXT"
               || isStr status "QUERY_RESULT_EXPIRED" then None
            else if isStr status "COMPLETED" then Some data
            else if isStr status "FAILED" then Some VNull
            else None
        | Throw _ => Some VNull
        end,
     advanced [Timeout (LocalTest.delayOf attempt);
               Fetch "poll-result" [("conversationId", cid); ("messageId", mid)]] 1 w).
Proof.
  unfold payloadOf, LocalTest.pollOnce, fetch. run. cbn [env fetches].
  destruct (respond (env w) (fetches w) "poll-result" _) as [e | r]; [done |].
  destruct r as [okr st ct [result | e]]; cbn; destruct okr; cbn; try done.
  destruct (getProp result "success") as [success | e]; cbn; [| done].
  destruct (getProp result "data") as [data' | e]; cbn; [| done].
  destruct (truthy success); cbn; [| done].
  intros [= ->]. unfold advanced. cbn.
  destruct (getProp data "status") as [status | e] eqn:Hs; cbn.
  - rewrite <- app_assoc.
    destruct (isStr status "EXECUTING"); cbn; [done |].
    destruct (isStr status "FILTERING_CONTEXT"); cbn; [done |].
    destruct (isStr status "QUERY_RESULT_EXPIRED"); cbn; [done |].
    destruct (isStr status "COMPLETED"); cbn; [done |].
    by destruct (isStr status "FAILED").
  - apply getProp_modelled in Hs. rewrite <- app_assoc. by destruct e.
Qed.

(** One pass on a reply without a payload: the test gives up. *)
Lemma pollOnce_stops (cid mid : value) (attempt : Z) (w : world) :
  payloadOf (respond (env w) (fetches w) "poll-result"
               [("conversationId", cid); ("messageId", mid)]) = None ->
  consistent (respond (env w) (fetches w) "poll-result"
                [("conversationId", cid); ("messageId", mid)]) = true ->
  exists r,
    LocalTest.pollOnce cid mid attempt w
    = (r, advanced [Timeout (LocalTest.delayOf attempt);
                    Fetch "poll-result" [("conversationId", cid); ("messageId", mid)]]
            1 w) /\
    match r with
    | Ok step => step = Some VNull
    | Throw e => isUnmodelled e = true
    end.
Proof.
  unfold payloadOf, consistent, LocalTest.pollOnce, fetch. run. cbn [env fetches].
  destruct (respond (env w) (fetches w) "poll-result" _) as [e | r]; cbn.
  { intros _ _. unfold advanced; cbn. rewrite <- app_assoc.
    destruct e; cbn; eexists; (split; [reflexivity | done]). }
  destruct r as [okr st ct [result | e]]; cbn.
  2: { intros _ _. unfold advanced; cbn. rewrite <- app_assoc.
       destruct e; cbn; eexists; (split; [reflexivity | done]). }
  destruct (getProp result "success") as [success | e] eqn:Hs; cbn.
  2: { intros _ _. apply getProp_modelled in Hs. unfold advanced; cbn.
       rewrite <- app_assoc.
       destruct e; try done; cbn; eexists; (split; [reflexivity | done]). }
  destruct (truthy success); cbn.
  - destruct okr; cbn; [| done].
    destruct (getProp result "data") as [data' | e] eqn:Hd; cbn; [done |].
    destruct result; cbn in Hs, Hd; done.
  - intros _ _. unfold advanced; cbn. rewrite <- app_assoc.
    eexists; (split; [reflexivity | done]).
Qed.

(** What it means for the test to have polled like the widget. *)
Lemma lockstep (budget : nat) (mid : value) (attempt : Z) (w : world) :
  (forall n params, consistent (respond (env w) n "poll-result" params) = true) ->
  alike (pollFrom budget mid attempt w)
        (LocalTest.pollLoop budget (conversationId (this w)) mid attempt w).
Proof.
  revert attempt w.
  induction budget as [| budget IH]; intros attempt w Hcons.
  - cbn [pollFrom LocalTest.pollLoop].
    change LocalTest.maxAttempts with maxAttempts.
    rewrite (Z.leb_antisym attempt maxAttempts).
    destruct (attempt <? maxAttempts); cbn; unfold alike; cbn; split; try done.
    + by left.
    + by right.
  - cbn [LocalTest.pollLoop]. change LocalTest.maxAttempts with maxAttempts.
    destruct (Z.ltb_spec attempt maxAttempts) as [Hatt | Hatt].
    2: { cbn [pollFrom]. destruct (Z.leb_spec maxAttempts attempt); [| lia].
         unfold alike; cbn. split; [done | by right]. }
    destruct (payloadOf (respond (env w) (fetches w) "poll-result" (pollParams w mid)))
      as [data |] eqn:Hpay.
    + rewrite (pollFrom_last budget mid attempt w data Hatt Hpay).
      rewrite (bind_ok _ _ w _ _ (pollOnce_payload _ mid attempt w data Hpay)).
      change (LocalTest.delayOf attempt) with (delayOf attempt).
      change [Timeout (delayOf attempt);
              Fetch "poll-result" [("conversationId", conversationId (this w));
                                   ("messageId", mid)]]
        with (pollEvents w mid attempt 1).
      set (w2 := advanced (pollEvents w mid attempt 1) 1 w).
      assert (Hnext : alike (pollFrom budget mid (attempt + 1) w2)
                        (LocalTest.pollLoop budget (conversationId (this w)) mid
                           (attempt + 1) w2)).
      { apply (IH (attempt + 1) w2). intros n params. apply Hcons. }
      unfold bind at 1. cbn [liftR].
      destruct (getProp data "status") as [status | e] eqn:Hs.
      * destruct (isStr status "EXECUTING" || isStr status "FILTERING_CONTEXT"
                  || isStr status "QUERY_RESULT_EXPIRED"); [exact Hnext |].
        destruct (isStr status "COMPLETED"); [by split |].
        destruct (isStr status "FAILED"); [| exact Hnext].
        destruct (failed_throws data w2) as [e ->]. split; [done | by right].
      * split; [done | by right].
    + destruct (pollFrom_stops budget mid attempt w Hatt Hpay) as [e ->].
      destruct (pollOnce_stops (conversationId (this w)) mid attempt w Hpay (Hcons _ _))
        as (r & Hr & Hres).
      unfold bind. rewrite Hr.
      change (LocalTest.delayOf attempt) with (delayOf attempt).
      destruct r as [step | e']; [subst step |]; split; try done; by right.
Qed.

End LocalTestFacts.

Section LocalTestTheorems.
Import GenieChat.

(** X21. The local test polls like the widget. Against a server whose
    failure statuses never come with a truthy [success], [testPollResult]
    called with the widget's conversation makes the same waits and the same
    requests as [pollForResult]; what the widget returns the test returns,
    and where the widget throws the test returns [null]. *)
Theorem local_test_polls_like_widget (w : world) (messageId : value) :
  truthy (conversationId (this w)) = true -> truthy messageId = true ->
  (forall n params, consistent (respond (env w) n "poll-result" params) = true) ->
  let widget := pollForResult messageId 0 w in
  let test := LocalTest.testPollResult (conversationId (this w)) messageId w in
  snd test = snd widget /\
  match fst widget with
  | Ok data => fst test = Ok data
  | Throw e =>
      isUnmodelled e = true \/
      match fst test with
      | Ok returned => returned = VNull
      | Throw e' => isUnmodelled e' = true
      end
  end.
Proof.
  intros Hcid Hmid Hcons widget test. subst widget test.
  unfold LocalTest.testPollResult, pollForResult. rewrite Hcid, Hmid. cbn [negb orb].
  change (Z.to_nat (maxAttempts - 0)) with (Z.to_nat LocalTest.maxAttempts).
  exact (lockstep _ messageId 0 w Hcons).
Qed.

(** A session whose answer is ready at the third poll, polled by both. *)
Lemma local_test_polls_like_widget_witness :
  let w := Demo.talking in
  let widget := pollForResult (VStr "m1") 0 w in
  let test := LocalTest.testPollResult (conversationId (this w)) (VStr "m1") w in
  snd test = snd widget /\
  match fst widget with
  | Ok data => fst test = Ok data
  | Throw e =>
      isUnmodelled e = true \/
      match fst test with
      | Ok returned => returned = VNull
      | Throw e' => isUnmodelled e' = true
      end
  end.
Proof.
  intros w.
  apply (local_test_polls_like_widget w (VStr "m1")); [reflexivity | reflexivity |].
  intros n params. cbn. unfold Demo.finishing. by destruct (n <? 2)%nat.
Defined.

End LocalTestTheorems.

Section BehindTheFunction.
Import GenieChat.




End BehindTheFunction.
